(** * The subiquity server orchestrator (subiquity/server/server.py)

    A shallow embedding of [SubiquityServer] and [MetaController]: the
    application object is a record, every method is a function in a small
    monad that threads the application object, may raise, and records the
    calls it makes to the outside (files written, collaborators invoked).

    Collaborators whose code is not part of server.py (the stage
    controllers, cloud-init, aiohttp, the error reporter's formatting) are
    the fields of the record [Ext]; every definition that needs one takes
    [E : Ext]. *)

From Stdlib Require Import Ascii.
From stdpp Require Import gmap strings list fin_maps.

Set Warnings "-register-all".

(** ** Python helpers *)

Definition startswith (s prefix : string) : bool := String.prefix prefix s.

Definition endswith_slash (s : string) : bool :=
  match String.get (String.length s - 1) s with
  | Some c => bool_decide (c = "/"%char)
  | None => false
  end.

(** [os.path.join a b] for two components (posixpath). *)
Definition os_path_join (a b : string) : string :=
  if startswith b "/" then b
  else if bool_decide (a = EmptyString) || endswith_slash a then a +:+ b
  else a +:+ "/" +:+ b.

Definition newline : Ascii.ascii := Ascii.ascii_of_nat 10.

Definition carriage_return : Ascii.ascii := Ascii.ascii_of_nat 13.

(** The lines of a file opened in text mode, as iterating over the file
    gives them, without their line ending: with universal newlines a line
    ends at a line feed, at a carriage return, or at a carriage return
    followed by a line feed, which is one ending. *)
Fixpoint lines_from (cur : string) (s : string) : list string :=
  match s with
  | EmptyString =>
      if bool_decide (cur = EmptyString) then [] else [String.rev cur]
  | String c rest =>
      if bool_decide (c = newline)
      then String.rev cur :: lines_from EmptyString rest
      else if bool_decide (c = carriage_return)
      then String.rev cur
             :: lines_from EmptyString
                  match rest with
                  | String d rest' =>
                      if bool_decide (d = newline) then rest' else rest
                  | EmptyString => rest
                  end
      else lines_from (String c cur) rest
  end.

Definition lines (s : string) : list string := lines_from EmptyString s.

(** [str.isspace] of a character. The characters of a string are the code
    points below 256; those that are white space for Python are the tab,
    the line feed, the vertical tab, the form feed and the carriage return
    (9 to 13), the four separators (28 to 31), the space (32), the next
    line control (133, U+0085) and the no-break space (160, U+00A0). *)
Definition isspace (c : Ascii.ascii) : bool :=
  let n := Ascii.nat_of_ascii c in
  bool_decide (n = 32) || (bool_decide (9 ≤ n) && bool_decide (n ≤ 13))
  || (bool_decide (28 ≤ n) && bool_decide (n ≤ 31))
  || bool_decide (n = 133) || bool_decide (n = 160).

Fixpoint lstrip (s : string) : string :=
  match s with
  | String c rest => if isspace c then lstrip rest else s
  | EmptyString => EmptyString
  end.

Definition strip (s : string) : string :=
  String.rev (lstrip (String.rev (lstrip s))).

(** [s.split(":", 1)]: [None] when the separator does not occur (Python
    then returns a one-element list), otherwise the text before the first
    colon and everything after it. *)
Fixpoint split_first_colon (s : string) : option (string * string) :=
  match s with
  | EmptyString => None
  | String c rest =>
      if bool_decide (c = ":"%char) then Some (EmptyString, rest)
      else match split_first_colon rest with
           | Some (u, p) => Some (String c u, p)
           | None => None
           end
  end.

(** [needle in haystack] on strings. *)
Definition str_contains (needle haystack : string) : bool :=
  match String.index 0 needle haystack with Some _ => true | None => false end.

(** A Python function object is truthy, whatever it would return. *)
Definition bool_of_function {A B : Type} (f : A → B) : bool := true.

(** Values as [yaml.safe_load] produces them (floats are left out). *)
Inductive PyVal :=
| PNone
| PBool (b : bool)
| PInt (z : Z)
| PStr (s : string)
| PList (l : list PyVal)
| PDict (d : gmap string PyVal).

(** [bool(v)] *)
Definition truthy (v : PyVal) : bool :=
  match v with
  | PNone => false
  | PBool b => b
  | PInt z => negb (Z.eqb z 0)
  | PStr s => negb (bool_decide (s = EmptyString))
  | PList l => match l with [] => false | _ => true end
  | PDict d => negb (bool_decide (d = ∅))
  end.

(** [v == ["*"]] *)
Definition is_star_list (v : PyVal) : bool :=
  match v with
  | PList [PStr s] => bool_decide (s = "*")
  | _ => false
  end.

(** ** Types of subiquity.common.types *)

(** Modelled from the spec: the enum [ApplicationState] is declared in
    subiquity.common.types, which is not among the sources; its members are
    the ones server.py names and the ones section 3 of the specification
    lists. *)
Inductive ApplicationState :=
| STARTING_UP | CLOUD_INIT_WAIT | EARLY_COMMANDS | WAITING
| NEEDS_CONFIRMATION | RUNNING | DONE | ERROR | EXITED.

#[global] Instance ApplicationState_eq_dec : EqDecision ApplicationState.
Proof. solve_decision. Defined.

(** [state.name] *)
Definition name (s : ApplicationState) : string :=
  match s with
  | STARTING_UP => "STARTING_UP"
  | CLOUD_INIT_WAIT => "CLOUD_INIT_WAIT"
  | EARLY_COMMANDS => "EARLY_COMMANDS"
  | WAITING => "WAITING"
  | NEEDS_CONFIRMATION => "NEEDS_CONFIRMATION"
  | RUNNING => "RUNNING"
  | DONE => "DONE"
  | ERROR => "ERROR"
  | EXITED => "EXITED"
  end.

(** [PasswordKind], with the three members server.py uses. *)
Inductive PasswordKind := NONE | UNKNOWN | KNOWN.

#[global] Instance PasswordKind_eq_dec : EqDecision PasswordKind.
Proof. solve_decision. Defined.

Record KeyFingerprint := {
  keytype : string;
  fingerprint : string;
}.

Record LiveSessionSSHInfo := {
  username : string;
  password_kind : PasswordKind;
  password : option string;
  authorized_key_fingerprints : list KeyFingerprint;
  ips : list string;
  host_key_fingerprints : list KeyFingerprint;
}.

Inductive Exn :=
| Exception (msg : string)
| ValueError (msg : string)
| KeyError (key : string)
| AttributeError (attr : string)
| FileNotFoundError (path : string)
| TypeError (msg : string)
| ValidationError
| YAMLError
| CollaboratorError (what : string).

(** The two kinds server.py uses; [UNKNOWN_KIND] is
    [ErrorReportKind.UNKNOWN]. *)
Inductive ErrorReportKind := SERVER_REQUEST_FAIL | UNKNOWN_KIND.

(** What [make_apport_report] is given; [report_base] numbers the reports
    of one run. *)
Record ErrorReport := {
  report_base : nat;
  report_kind : ErrorReportKind;
  report_thing : string;
  report_exc : Exn;
}.

Record ApplicationStatus := {
  status_state : ApplicationState;
  status_confirming_tty : string;
  status_error : option ErrorReport;
  status_cloud_init_ok : option bool;
  status_interactive : option bool;
  status_echo_syslog_id : string;
  status_event_syslog_id : string;
  status_log_syslog_id : string;
}.

(** ** Controllers and the asyncio event *)

(** The class-level attributes of a stage controller. *)
Record Controller := {
  ctl_name : string;
  autoinstall_key : option string;
  model_name : option string;
  endpoint : option string;
}.

#[global] Instance Controller_eq_dec : EqDecision Controller.
Proof. solve_decision. Defined.

(** A suspended [status_GET] call: the coroutine is identified by a number,
    [poll_cur] is its argument [cur]. *)
Record StatusPoll := {
  poll_id : nat;
  poll_cur : option ApplicationState;
}.

(** A future created by [Event.wait], owned by the coroutine awaiting it. *)
Record Fut := {
  fut_owner : StatusPoll;
  fut_done : bool;
}.

(** [asyncio.Event]: the flag and the futures of the coroutines in
    [wait()]. A future stays in [_waiters] until its coroutine runs again
    and removes it. *)
Record Event := {
  _value : bool;
  _waiters : list Fut;
}.

Record Opts := {
  dry_run : bool;
  opts_autoinstall : option string;
}.

(** ** The application object *)

Record App := {
  opts : Opts;
  root : string;                       (* base_model.root *)
  state_dir : string;
  fs : gmap string string;             (* the files, by path *)
  _state : ApplicationState;
  state_event : Event;
  loop_ready : list StatusPoll;        (* coroutines the loop will resume *)
  updated : bool;
  snapd : bool;                        (* self.snapd is not None *)
  interactive : option bool;
  confirming_tty : string;
  fatal_error : option ErrorReport;
  cloud_init_ok : option bool;
  echo_syslog_id : string;
  event_syslog_id : string;
  log_syslog_id : string;
  installer_user_name : option string;
  installer_user_passwd_kind : PasswordKind;
  installer_user_passwd : option string;
  error_reports : list ErrorReport;    (* error_reporter.reports *)
  instances : list Controller;         (* controllers.instances *)
  autoinstall : option string;
  autoinstall_config : option PyVal;
  ctl_store : gmap string PyVal;       (* the controllers' own attributes *)
}.

(** Attribute assignment, [self.x = v]. *)

Definition set_fs (v : gmap string string) (a : App) : App :=
  {| opts := opts a; root := root a; state_dir := state_dir a; fs := v;
     _state := _state a; state_event := state_event a; loop_ready :=
     loop_ready a; updated := updated a; snapd := snapd a; interactive :=
     interactive a; confirming_tty := confirming_tty a; fatal_error :=
     fatal_error a; cloud_init_ok := cloud_init_ok a; echo_syslog_id :=
     echo_syslog_id a; event_syslog_id := event_syslog_id a; log_syslog_id
     := log_syslog_id a; installer_user_name := installer_user_name a;
     installer_user_passwd_kind := installer_user_passwd_kind a;
     installer_user_passwd := installer_user_passwd a; error_reports :=
     error_reports a; instances := instances a; autoinstall := autoinstall
     a; autoinstall_config := autoinstall_config a; ctl_store := ctl_store a
     |}.

Definition set_state (v : ApplicationState) (a : App) : App :=
  {| opts := opts a; root := root a; state_dir := state_dir a; fs := fs a;
     _state := v; state_event := state_event a; loop_ready := loop_ready a;
     updated := updated a; snapd := snapd a; interactive := interactive a;
     confirming_tty := confirming_tty a; fatal_error := fatal_error a;
     cloud_init_ok := cloud_init_ok a; echo_syslog_id := echo_syslog_id a;
     event_syslog_id := event_syslog_id a; log_syslog_id := log_syslog_id a;
     installer_user_name := installer_user_name a;
     installer_user_passwd_kind := installer_user_passwd_kind a;
     installer_user_passwd := installer_user_passwd a; error_reports :=
     error_reports a; instances := instances a; autoinstall := autoinstall
     a; autoinstall_config := autoinstall_config a; ctl_store := ctl_store a
     |}.

Definition set_state_event (v : Event) (a : App) : App :=
  {| opts := opts a; root := root a; state_dir := state_dir a; fs := fs a;
     _state := _state a; state_event := v; loop_ready := loop_ready a;
     updated := updated a; snapd := snapd a; interactive := interactive a;
     confirming_tty := confirming_tty a; fatal_error := fatal_error a;
     cloud_init_ok := cloud_init_ok a; echo_syslog_id := echo_syslog_id a;
     event_syslog_id := event_syslog_id a; log_syslog_id := log_syslog_id a;
     installer_user_name := installer_user_name a;
     installer_user_passwd_kind := installer_user_passwd_kind a;
     installer_user_passwd := installer_user_passwd a; error_reports :=
     error_reports a; instances := instances a; autoinstall := autoinstall
     a; autoinstall_config := autoinstall_config a; ctl_store := ctl_store a
     |}.

Definition set_loop_ready (v : list StatusPoll) (a : App) : App :=
  {| opts := opts a; root := root a; state_dir := state_dir a; fs := fs a;
     _state := _state a; state_event := state_event a; loop_ready := v;
     updated := updated a; snapd := snapd a; interactive := interactive a;
     confirming_tty := confirming_tty a; fatal_error := fatal_error a;
     cloud_init_ok := cloud_init_ok a; echo_syslog_id := echo_syslog_id a;
     event_syslog_id := event_syslog_id a; log_syslog_id := log_syslog_id a;
     installer_user_name := installer_user_name a;
     installer_user_passwd_kind := installer_user_passwd_kind a;
     installer_user_passwd := installer_user_passwd a; error_reports :=
     error_reports a; instances := instances a; autoinstall := autoinstall
     a; autoinstall_config := autoinstall_config a; ctl_store := ctl_store a
     |}.

Definition set_interactive (v : option bool) (a : App) : App :=
  {| opts := opts a; root := root a; state_dir := state_dir a; fs := fs a;
     _state := _state a; state_event := state_event a; loop_ready :=
     loop_ready a; updated := updated a; snapd := snapd a; interactive := v;
     confirming_tty := confirming_tty a; fatal_error := fatal_error a;
     cloud_init_ok := cloud_init_ok a; echo_syslog_id := echo_syslog_id a;
     event_syslog_id := event_syslog_id a; log_syslog_id := log_syslog_id a;
     installer_user_name := installer_user_name a;
     installer_user_passwd_kind := installer_user_passwd_kind a;
     installer_user_passwd := installer_user_passwd a; error_reports :=
     error_reports a; instances := instances a; autoinstall := autoinstall
     a; autoinstall_config := autoinstall_config a; ctl_store := ctl_store a
     |}.

Definition set_cloud_init_ok (v : option bool) (a : App) : App :=
  {| opts := opts a; root := root a; state_dir := state_dir a; fs := fs a;
     _state := _state a; state_event := state_event a; loop_ready :=
     loop_ready a; updated := updated a; snapd := snapd a; interactive :=
     interactive a; confirming_tty := confirming_tty a; fatal_error :=
     fatal_error a; cloud_init_ok := v; echo_syslog_id := echo_syslog_id a;
     event_syslog_id := event_syslog_id a; log_syslog_id := log_syslog_id a;
     installer_user_name := installer_user_name a;
     installer_user_passwd_kind := installer_user_passwd_kind a;
     installer_user_passwd := installer_user_passwd a; error_reports :=
     error_reports a; instances := instances a; autoinstall := autoinstall
     a; autoinstall_config := autoinstall_config a; ctl_store := ctl_store a
     |}.

Definition set_installer_user_name (v : option string) (a : App) : App :=
  {| opts := opts a; root := root a; state_dir := state_dir a; fs := fs a;
     _state := _state a; state_event := state_event a; loop_ready :=
     loop_ready a; updated := updated a; snapd := snapd a; interactive :=
     interactive a; confirming_tty := confirming_tty a; fatal_error :=
     fatal_error a; cloud_init_ok := cloud_init_ok a; echo_syslog_id :=
     echo_syslog_id a; event_syslog_id := event_syslog_id a; log_syslog_id
     := log_syslog_id a; installer_user_name := v;
     installer_user_passwd_kind := installer_user_passwd_kind a;
     installer_user_passwd := installer_user_passwd a; error_reports :=
     error_reports a; instances := instances a; autoinstall := autoinstall
     a; autoinstall_config := autoinstall_config a; ctl_store := ctl_store a
     |}.

Definition set_installer_user_passwd_kind (v : PasswordKind) (a : App) : App :=
  {| opts := opts a; root := root a; state_dir := state_dir a; fs := fs a;
     _state := _state a; state_event := state_event a; loop_ready :=
     loop_ready a; updated := updated a; snapd := snapd a; interactive :=
     interactive a; confirming_tty := confirming_tty a; fatal_error :=
     fatal_error a; cloud_init_ok := cloud_init_ok a; echo_syslog_id :=
     echo_syslog_id a; event_syslog_id := event_syslog_id a; log_syslog_id
     := log_syslog_id a; installer_user_name := installer_user_name a;
     installer_user_passwd_kind := v; installer_user_passwd :=
     installer_user_passwd a; error_reports := error_reports a; instances :=
     instances a; autoinstall := autoinstall a; autoinstall_config :=
     autoinstall_config a; ctl_store := ctl_store a |}.

Definition set_installer_user_passwd (v : option string) (a : App) : App :=
  {| opts := opts a; root := root a; state_dir := state_dir a; fs := fs a;
     _state := _state a; state_event := state_event a; loop_ready :=
     loop_ready a; updated := updated a; snapd := snapd a; interactive :=
     interactive a; confirming_tty := confirming_tty a; fatal_error :=
     fatal_error a; cloud_init_ok := cloud_init_ok a; echo_syslog_id :=
     echo_syslog_id a; event_syslog_id := event_syslog_id a; log_syslog_id
     := log_syslog_id a; installer_user_name := installer_user_name a;
     installer_user_passwd_kind := installer_user_passwd_kind a;
     installer_user_passwd := v; error_reports := error_reports a; instances
     := instances a; autoinstall := autoinstall a; autoinstall_config :=
     autoinstall_config a; ctl_store := ctl_store a |}.

Definition set_error_reports (v : list ErrorReport) (a : App) : App :=
  {| opts := opts a; root := root a; state_dir := state_dir a; fs := fs a;
     _state := _state a; state_event := state_event a; loop_ready :=
     loop_ready a; updated := updated a; snapd := snapd a; interactive :=
     interactive a; confirming_tty := confirming_tty a; fatal_error :=
     fatal_error a; cloud_init_ok := cloud_init_ok a; echo_syslog_id :=
     echo_syslog_id a; event_syslog_id := event_syslog_id a; log_syslog_id
     := log_syslog_id a; installer_user_name := installer_user_name a;
     installer_user_passwd_kind := installer_user_passwd_kind a;
     installer_user_passwd := installer_user_passwd a; error_reports := v;
     instances := instances a; autoinstall := autoinstall a;
     autoinstall_config := autoinstall_config a; ctl_store := ctl_store a |}.

Definition set_autoinstall (v : option string) (a : App) : App :=
  {| opts := opts a; root := root a; state_dir := state_dir a; fs := fs a;
     _state := _state a; state_event := state_event a; loop_ready :=
     loop_ready a; updated := updated a; snapd := snapd a; interactive :=
     interactive a; confirming_tty := confirming_tty a; fatal_error :=
     fatal_error a; cloud_init_ok := cloud_init_ok a; echo_syslog_id :=
     echo_syslog_id a; event_syslog_id := event_syslog_id a; log_syslog_id
     := log_syslog_id a; installer_user_name := installer_user_name a;
     installer_user_passwd_kind := installer_user_passwd_kind a;
     installer_user_passwd := installer_user_passwd a; error_reports :=
     error_reports a; instances := instances a; autoinstall := v;
     autoinstall_config := autoinstall_config a; ctl_store := ctl_store a |}.

Definition set_autoinstall_config (v : option PyVal) (a : App) : App :=
  {| opts := opts a; root := root a; state_dir := state_dir a; fs := fs a;
     _state := _state a; state_event := state_event a; loop_ready :=
     loop_ready a; updated := updated a; snapd := snapd a; interactive :=
     interactive a; confirming_tty := confirming_tty a; fatal_error :=
     fatal_error a; cloud_init_ok := cloud_init_ok a; echo_syslog_id :=
     echo_syslog_id a; event_syslog_id := event_syslog_id a; log_syslog_id
     := log_syslog_id a; installer_user_name := installer_user_name a;
     installer_user_passwd_kind := installer_user_passwd_kind a;
     installer_user_passwd := installer_user_passwd a; error_reports :=
     error_reports a; instances := instances a; autoinstall := autoinstall
     a; autoinstall_config := v; ctl_store := ctl_store a |}.
Definition set_instances (v : list Controller) (a : App) : App :=
  {| opts := opts a; root := root a; state_dir := state_dir a; fs := fs a;
     _state := _state a; state_event := state_event a; loop_ready :=
     loop_ready a; updated := updated a; snapd := snapd a; interactive :=
     interactive a; confirming_tty := confirming_tty a; fatal_error :=
     fatal_error a; cloud_init_ok := cloud_init_ok a; echo_syslog_id :=
     echo_syslog_id a; event_syslog_id := event_syslog_id a; log_syslog_id
     := log_syslog_id a; installer_user_name := installer_user_name a;
     installer_user_passwd_kind := installer_user_passwd_kind a;
     installer_user_passwd := installer_user_passwd a; error_reports :=
     error_reports a; instances := v; autoinstall := autoinstall a;
     autoinstall_config := autoinstall_config a; ctl_store := ctl_store a |}.

Definition set_ctl_store (v : gmap string PyVal) (a : App) : App :=
  {| opts := opts a; root := root a; state_dir := state_dir a; fs := fs a;
     _state := _state a; state_event := state_event a; loop_ready :=
     loop_ready a; updated := updated a; snapd := snapd a; interactive :=
     interactive a; confirming_tty := confirming_tty a; fatal_error :=
     fatal_error a; cloud_init_ok := cloud_init_ok a; echo_syslog_id :=
     echo_syslog_id a; event_syslog_id := event_syslog_id a; log_syslog_id
     := log_syslog_id a; installer_user_name := installer_user_name a;
     installer_user_passwd_kind := installer_user_passwd_kind a;
     installer_user_passwd := installer_user_passwd a; error_reports :=
     error_reports a; instances := instances a; autoinstall := autoinstall
     a; autoinstall_config := autoinstall_config a; ctl_store := v |}.

(** ** Effects, results and the monad *)

(** What a method does to the outside, in the order it does it. *)
Inductive Effect :=
| FileWritten (path content : string)
| FileCopied (source target : string)
| Released (p : StatusPoll)            (* a waiter's future is resolved *)
| Slept (seconds : nat)
| Called (c : Controller) (method : string)
| HandlerInvoked (raw_path : string)
| ReportMade (r : ErrorReport)
| Ran (argv : list string) (input : string)
| PasswordGenerated
| ApiServerStarted
| SuperStarted.

(** A call returns, raises, or never comes back because [os.execvp]
    replaced the process. *)
Inductive Res (A : Type) :=
| Ok (x : A)
| Raise (e : Exn)
| Replaced (file : string) (argv : list string).

Arguments Ok {A} x.
Arguments Raise {A} e.
Arguments Replaced {A} file argv.

Definition M (A : Type) : Type := App → Res A * App * list Effect.

Definition ret {A} (x : A) : M A := λ a, (Ok x, a, []).

Definition bind {A B} (m : M A) (k : A → M B) : M B := λ a,
  match m a with
  | (Ok x, a1, t1) => let '(r, a2, t2) := k x a1 in (r, a2, t1 ++ t2)
  | (Raise e, a1, t1) => (Raise e, a1, t1)
  | (Replaced file argv, a1, t1) => (Replaced file argv, a1, t1)
  end.

Declare Scope py_scope.
Delimit Scope py_scope with py.
Notation "x <- m ;; k" := (bind m (λ x, k))
  (at level 100, m at next level, right associativity) : py_scope.
Notation "m ;; k" := (bind m (λ _, k))
  (at level 100, right associativity) : py_scope.
Open Scope py_scope.

Definition get : M App := λ a, (Ok a, a, []).
Definition gets {A} (f : App → A) : M A := λ a, (Ok (f a), a, []).
Definition modify (f : App → App) : M unit := λ a, (Ok tt, f a, []).
Definition emit (e : Effect) : M unit := λ a, (Ok tt, a, [e]).
Definition raise {A} (e : Exn) : M A := λ a, (Raise e, a, []).

(** A call into a collaborator, which works on the application object. *)
Definition foreign {A} (f : App → Res A * App) : M A := λ a,
  let '(r, a1) := f a in (r, a1, []).

Definition when (b : bool) (m : M unit) : M unit := if b then m else ret tt.

(** [for x in xs: body x] *)
Fixpoint for_each {A} (xs : list A) (body : A → M unit) : M unit :=
  match xs with
  | [] => ret tt
  | x :: rest => body x ;; for_each rest body
  end.

Definition result {A} (o : Res A * App * list Effect) : Res A := o.1.1.

(** The value of a call that returned. *)
Definition result_value {A} (r : Res A) : option A :=
  match r with Ok x => Some x | _ => None end.

Definition after {A} (o : Res A * App * list Effect) : App := o.1.2.
Definition trace {A} (o : Res A * App * list Effect) : list Effect := o.2.

(** ** Collaborators *)

Record Ext := {
  (* the stage controllers' methods *)
  ctl_interactive : Controller → App → bool;
  ctl_apply_autoinstall_config : Controller → App → Res unit * App;
  ctl_configured : Controller → App → Res unit * App;
  ctl_setup_autoinstall : Controller → App → Res unit * App;
  ctl_load_state : Controller → App → Res unit * App;
  ctl_start : Controller → App → Res unit * App;
  ctl_run : Controller → App → Res unit * App;
  ctl_cmds : Controller → App → PyVal;
  controllers_load_all : App → Res unit * App;
  Application_start : App → Res unit * App;
  (* the base model *)
  is_postinstall_only : App → option string → bool;
  network : App → option (list (list string));
  (* the operating system *)
  environ_USER : option string;
  sys_executable : string;
  sys_argv : list string;
  user_key_fingerprints : string → list (string * string);
  read_host_key_fingerprints : list (string * string);
  rand_user_password : App → string;
  chpasswd : string → App → Z * App;
  (* cloud-init and yaml *)
  cloud_init_status_wait : App → option string;
  get_host_combined_cloud_config : App → gmap string PyVal;
  stages_Init : App → gmap string PyVal * option string;
  safeyaml_dumps : PyVal → string;
  yaml_safe_load : string → option PyVal;
  (* serialisation of an error report reference *)
  to_json_ErrorReportRef : ErrorReport → string;
}.

(** ** Files *)

Definition exists_in (files : gmap string string) (path : string) : bool :=
  bool_decide (is_Some (files !! path)).

(** [os.path.exists] *)
Definition os_path_exists (path : string) : M bool :=
  gets (λ a, exists_in (fs a) path).

(** Modelled from the spec: [write_file] of subiquitycore.file_util is not
    among the sources; it leaves [content] in the file at [path]. *)
Definition write_file (path content : string) : M unit := λ a,
  (Ok tt, set_fs (<[path := content]> (fs a)) a, [FileWritten path content]).

(** [open(path).read()] *)
Definition read_file (path : string) : M string := λ a,
  match fs a !! path with
  | Some content => (Ok content, a, [])
  | None => (Raise (FileNotFoundError path), a, [])
  end.

(** Modelled from the spec: [copy_file_if_exists] of subiquitycore.file_util
    is not among the sources; the file at [source], when there is one, is
    copied to [target]. *)
Definition copy_file_if_exists (source target : string) : M unit := λ a,
  match fs a !! source with
  | Some content =>
      (Ok tt, set_fs (<[target := content]> (fs a)) a,
       [FileCopied source target])
  | None => (Ok tt, a, [])
  end.

Definition state_path (file : string) : M string :=
  gets (λ a, os_path_join (state_dir a) file).

Definition base_relative (path : string) : M string :=
  gets (λ a, os_path_join (root a) path).

(** ** The application state and its event *)

Definition mark_done (f : Fut) : Fut :=
  {| fut_owner := fut_owner f; fut_done := true |}.

Definition pending (f : Fut) : Prop := fut_done f = false.

#[global] Instance pending_dec f : Decision (pending f).
Proof. unfold pending. apply _. Defined.

(** The coroutines suspended in [wait()] whose future is not resolved. *)
Definition blocked (ev : Event) : list StatusPoll :=
  fut_owner <$> filter pending (_waiters ev).

(** [Event.set]: when the flag is down, raise it and resolve every future
    that is not resolved yet; resolving one schedules its coroutine. The
    second component lists the coroutines scheduled. *)
Definition Event_set (ev : Event) : Event * list StatusPoll :=
  if _value ev then (ev, [])
  else ({| _value := true; _waiters := mark_done <$> _waiters ev |},
        blocked ev).

(** [Event.clear] *)
Definition Event_clear (ev : Event) : Event :=
  {| _value := false; _waiters := _waiters ev |}.

(** [Event.wait] up to its [await]: [true] when the flag is up and the call
    returns at once, otherwise a new future is queued. *)
Definition Event_wait (p : StatusPoll) (ev : Event) : bool * Event :=
  if _value ev then (true, ev)
  else (false, {| _value := _value ev;
                  _waiters := _waiters ev ++
                              [{| fut_owner := p; fut_done := false |}] |}).

Fixpoint remove_fut (p : StatusPoll) (l : list Fut) : list Fut :=
  match l with
  | [] => []
  | f :: rest =>
      if bool_decide (poll_id (fut_owner f) = poll_id p) then rest
      else f :: remove_fut p rest
  end.

(** [Event.wait] after its [await]: the coroutine takes its future out. *)
Definition Event_wait_finally (p : StatusPoll) (ev : Event) : Event :=
  {| _value := _value ev; _waiters := remove_fut p (_waiters ev) |}.

Definition state_event_set : M unit := λ a,
  let '(ev, woken) := Event_set (state_event a) in
  (Ok tt, set_loop_ready (loop_ready a ++ woken) (set_state_event ev a),
   Released <$> woken).

Definition state_event_clear : M unit :=
  modify (λ a, set_state_event (Event_clear (state_event a)) a).

Definition update_state (state : ApplicationState) : M unit :=
  modify (set_state state) ;;
  path <- state_path "server-state" ;;
  write_file path (name state) ;;
  state_event_set ;;
  state_event_clear.

Definition current_status (a : App) : ApplicationStatus :=
  {| status_state := _state a;
     status_confirming_tty := confirming_tty a;
     status_error := fatal_error a;
     status_cloud_init_ok := cloud_init_ok a;
     status_interactive := interactive a;
     status_echo_syslog_id := echo_syslog_id a;
     status_event_syslog_id := event_syslog_id a;
     status_log_syslog_id := log_syslog_id a |}.

(** [MetaController.status_GET] up to its first suspension: [Some] status
    when the call completes without waiting, [None] when the coroutine [p]
    is now suspended in [state_event.wait()]. *)
Definition status_GET (p : StatusPoll) : M (option ApplicationStatus) := λ a,
  if bool_decide (poll_cur p = Some (_state a)) then
    let '(now, ev) := Event_wait p (state_event a) in
    if now then (Ok (Some (current_status a)), a, [])
    else (Ok None, set_state_event ev a, [])
  else (Ok (Some (current_status a)), a, []).

(** The rest of [status_GET], run when the loop resumes [p]. *)
Definition status_GET_resumed (p : StatusPoll) : M ApplicationStatus :=
  modify (λ a, set_state_event (Event_wait_finally p (state_event a)) a) ;;
  gets current_status.

(** One turn of the event loop: the coroutine at the head of the ready
    queue runs to completion. *)
Definition loop_run_once : M (option (StatusPoll * ApplicationStatus)) := λ a,
  match loop_ready a with
  | [] => (Ok None, a, [])
  | p :: rest =>
      (st <- status_GET_resumed p ;; ret (Some (p, st)))
        (set_loop_ready rest a)
  end.

(** ** Autoinstall source resolution *)

Definition iso_autoinstall_path : string := "cdrom/autoinstall.yaml".
Definition root_autoinstall_path : string := "autoinstall.yaml".
Definition cloud_autoinstall_path : string :=
  "run/subiquity/cloud.autoinstall.yaml".

(** The [for loc in locations: ... break ... else: return None] loop: the
    first location that is not [None] and exists. *)
Fixpoint first_existing (files : gmap string string)
    (locations : list (option string)) : option string :=
  match locations with
  | [] => None
  | Some loc :: rest =>
      if exists_in files loc then Some loc else first_existing files rest
  | None :: rest => first_existing files rest
  end.

Definition select_autoinstall : M (option string) :=
  o <- gets opts ;;
  if bool_decide (opts_autoinstall o = Some EmptyString) then ret None
  else
    found <- match opts_autoinstall o with
             | Some path => os_path_exists path
             | None => ret true
             end ;;
    if negb found then
      raise (Exception ("Autoinstall argument "
                        +:+ default EmptyString (opts_autoinstall o)
                        +:+ " not found"))
    else
      at_root <- base_relative root_autoinstall_path ;;
      from_cloud <- base_relative cloud_autoinstall_path ;;
      on_iso <- base_relative iso_autoinstall_path ;;
      let locations :=
        [Some at_root; opts_autoinstall o; Some from_cloud; Some on_iso] in
      files <- gets fs ;;
      match first_existing files locations with
      | None => ret None
      | Some loc =>
          rootpath <- base_relative root_autoinstall_path ;;
          copy_file_if_exists loc rootpath ;;
          ret (Some rootpath)
      end.

(** ** The installer user's password *)

(** [open(path, "w").close()], and [open(path, "w")] before anything is
    written. *)
Definition truncate (path : string) : M unit := λ a,
  (Ok tt, set_fs (<[path := EmptyString]> (fs a)) a,
   [FileWritten path EmptyString]).

(** [with open(path, "w") as fp: fp.write(content)] *)
Definition write_text (path content : string) : M unit := λ a,
  (Ok tt, set_fs (<[path := content]> (fs a)) a, [FileWritten path content]).

Fixpoint drop_chars (n : nat) (s : string) : string :=
  match n, s with
  | S k, String _ rest => drop_chars k rest
  | _, _ => s
  end.

Definition get_installer_password_from_cloudinit_log : M (option string) :=
  λ a,
  match fs a !! "/var/log/cloud-init-output.log" with
  | None => (Ok None, a, [])
  | Some log =>
      (Ok (match filter (λ line, startswith line "installer:" = true)
                   (lines log) with
           | line :: _ =>
               Some (strip (drop_chars (String.length "installer:") line))
           | [] => None
           end), a, [])
  end.

Definition _user_has_password (username : string) : M bool :=
  shadow <- read_file "/etc/shadow" ;;
  ret (existsb (λ line, startswith line (username +:+ ":$")) (lines shadow)).

Definition new_password (E : Ext) : M string := λ a,
  (Ok (rand_user_password E a), a, [PasswordGenerated]).

(** [run_command("chpasswd", input=...)], giving the return code. *)
Definition run_chpasswd (E : Ext) (input : string) : M Z := λ a,
  let '(returncode, a1) := chpasswd E input a in
  (Ok returncode, a1, [Ran ["chpasswd"] input]).

(** The local function [use_passwd] of [set_installer_password]. *)
Definition use_passwd (passfile passwd : string) : M unit :=
  modify (set_installer_user_passwd (Some passwd)) ;;
  modify (set_installer_user_passwd_kind KNOWN) ;;
  user <- gets installer_user_name ;;
  match user with
  | Some n => write_text passfile (n +:+ ":" +:+ passwd)
  | None => truncate passfile ;; raise (TypeError "NoneType + str")
  end.

Definition set_installer_password (E : Ext) : M unit :=
  user <- gets installer_user_name ;;
  match user with
  | None => ret tt
  | Some username =>
      passfile <- state_path "installer-user-passwd" ;;
      stamped <- os_path_exists passfile ;;
      if stamped then
        contents <- read_file passfile ;;
        modify (set_installer_user_passwd_kind KNOWN) ;;
        match split_first_colon contents with
        | Some (n, p) =>
            modify (set_installer_user_name (Some n)) ;;
            modify (set_installer_user_passwd (Some p))
        | None => raise (ValueError "not enough values to unpack")
        end
      else
        o <- gets opts ;;
        if dry_run o then
          match environ_USER E with
          | None => raise (KeyError "USER")
          | Some u =>
              modify (set_installer_user_name (Some u)) ;;
              passwd <- new_password E ;;
              use_passwd passfile passwd
          end
        else
          has_password <- _user_has_password username ;;
          if has_password then
            logged <- get_installer_password_from_cloudinit_log ;;
            match logged with
            | Some passwd =>
                if bool_decide (passwd = EmptyString)
                then modify (set_installer_user_passwd_kind UNKNOWN)
                else use_passwd passfile passwd
            | None => modify (set_installer_user_passwd_kind UNKNOWN)
            end
          else
            match user_key_fingerprints E username with
            | [] =>
                passwd <- new_password E ;;
                returncode <-
                  run_chpasswd E (username +:+ ":" +:+ passwd
                                  +:+ String newline EmptyString) ;;
                if bool_decide (returncode = 0%Z)
                then use_passwd passfile passwd
                else modify (set_installer_user_passwd_kind NONE)
            | _ :: _ => modify (set_installer_user_passwd_kind NONE)
            end
  end.

(** ** Cloud-init *)

(** [d.get(key, default)]; anything but a dict has no [get]. *)
Definition py_get (d : PyVal) (key : string) (default : PyVal) : M PyVal :=
  match d with
  | PDict m => ret (match m !! key with Some v => v | None => default end)
  | _ => raise (AttributeError "get")
  end.

(** The default user's name is a string when it is there at all. *)
Definition optional_str (v : PyVal) : option string :=
  match v with PStr s => Some s | _ => None end.

Definition load_cloud_config (E : Ext) : M unit :=
  combined <- gets (get_host_combined_cloud_config E) ;;
  cloud_cfg <-
    (if bool_decide (combined = ∅) then
       init <- gets (stages_Init E) ;;
       modify (set_installer_user_name init.2) ;;
       ret init.1
     else
       system_info <- py_get (PDict combined) "system_info" (PDict ∅) ;;
       default_user <- py_get system_info "default_user" (PDict ∅) ;;
       user <- py_get default_user "name" PNone ;;
       modify (set_installer_user_name (optional_str user)) ;;
       ret combined) ;;
  match cloud_cfg !! "autoinstall" with
  | Some cfg =>
      target <- base_relative cloud_autoinstall_path ;;
      write_file target (safeyaml_dumps E cfg)
  | None => ret tt
  end.

Definition wait_for_cloudinit (E : Ext) : M unit :=
  o <- gets opts ;;
  if dry_run o then modify (set_cloud_init_ok (Some true))
  else
    emit (Ran ["cloud-init"; "status"; "--wait"] EmptyString) ;;
    status_cp <- gets (cloud_init_status_wait E) ;;
    status_txt <- match status_cp with
                  | None =>
                      modify (set_cloud_init_ok (Some false)) ;;
                      ret "<timeout>"
                  | Some stdout =>
                      modify (set_cloud_init_ok (Some true)) ;;
                      ret stdout
                  end ;;
    if str_contains "status: done" status_txt then load_cloud_config E
    else ret tt.

(** ** Loading and applying the autoinstall configuration *)

(** [getattr(self.controllers, name)] *)
Definition controller_named (nm : string) : M Controller := λ a,
  match filter (λ c, ctl_name c = nm) (instances a) with
  | c :: _ => (Ok c, a, [])
  | [] => (Raise (AttributeError nm), a, [])
  end.

(** A call of a controller's method by the server. *)
Definition call (c : Controller) (method : string)
    (f : Controller → App → Res unit * App) : M unit :=
  emit (Called c method) ;; foreign (f c).

(** [jsonschema.validate(config, base_schema)]: an object whose [version]
    is the integer 1; other properties are allowed. *)
Definition validate_base_schema (config : option PyVal) : M unit :=
  match config with
  | Some (PDict d) =>
      match d !! "version" with
      | Some (PInt 1) => ret tt
      | _ => raise ValidationError
      end
  | _ => raise ValidationError
  end.

(** [yaml.safe_load] gives Python's [None] for an empty document. *)
Definition optional_of_py (v : PyVal) : option PyVal :=
  match v with PNone => None | _ => Some v end.

Definition load_autoinstall_config (E : Ext) (only_early : bool) : M unit :=
  source <- gets autoinstall ;;
  match source with
  | None => ret tt
  | Some path =>
      if bool_decide (path = EmptyString) then ret tt
      else
        text <- read_file path ;;
        match yaml_safe_load E text with
        | None => raise YAMLError
        | Some config =>
            modify (set_autoinstall_config (optional_of_py config)) ;;
            if only_early then
              reporting <- controller_named "Reporting" ;;
              call reporting "setup_autoinstall" (ctl_setup_autoinstall E) ;;
              reporting <- controller_named "Reporting" ;;
              call reporting "start" (ctl_start E) ;;
              error <- controller_named "Error" ;;
              call error "setup_autoinstall" (ctl_setup_autoinstall E) ;;
              loaded <- gets autoinstall_config ;;
              validate_base_schema loaded ;;
              early <- controller_named "Early" ;;
              call early "setup_autoinstall" (ctl_setup_autoinstall E)
            else
              controllers <- gets instances ;;
              for_each controllers (λ controller,
                call controller "setup_autoinstall" (ctl_setup_autoinstall E))
        end
  end.

Definition apply_autoinstall_config (E : Ext) : M unit :=
  controllers <- gets instances ;;
  for_each controllers (λ controller,
    is_interactive <- gets (ctl_interactive E controller) ;;
    if is_interactive then ret tt
    else
      call controller "apply_autoinstall_config"
        (ctl_apply_autoinstall_config E) ;;
      call controller "configured" (ctl_configured E)).

Definition load_serialized_state (E : Ext) : M unit :=
  controllers <- gets instances ;;
  for_each controllers (λ controller,
    call controller "load_state" (ctl_load_state E)).

(** ** Start-up *)

(** [bool(self.autoinstall_config)] *)
Definition has_autoinstall_config (a : App) : bool :=
  match autoinstall_config a with Some v => truthy v | None => false end.

(** The early-commands block of [start()] (the [if] that follows the first
    [load_autoinstall_config]). *)
Definition run_early_commands (E : Ext) : M unit :=
  configured <- gets has_autoinstall_config ;;
  if configured then
    early <- controller_named "Early" ;;
    cmds <- gets (ctl_cmds E early) ;;
    if truthy cmds then
      stamp_file <- state_path "early-commands" ;;
      stamped <- os_path_exists stamp_file ;;
      if stamped then ret tt
      else
        update_state EARLY_COMMANDS ;;
        emit (Slept 1) ;;
        early <- controller_named "Early" ;;
        call early "run" (ctl_run E) ;;
        truncate stamp_file ;;
        emit (Slept 1)
    else ret tt
  else ret tt.

Definition start_api_server : M unit := emit ApiServerStarted.

Definition start (E : Ext) : M unit :=
  foreign (controllers_load_all E) ;;
  start_api_server ;;
  update_state CLOUD_INIT_WAIT ;;
  wait_for_cloudinit E ;;
  set_installer_password E ;;
  selected <- select_autoinstall ;;
  modify (set_autoinstall selected) ;;
  load_autoinstall_config E true ;;
  run_early_commands E ;;
  load_autoinstall_config E false ;;
  configured <- gets has_autoinstall_config ;;
  (if configured then
     config <- gets autoinstall_config ;;
     sections <- py_get (default PNone config) "interactive-sections" PNone ;;
     modify (set_interactive (Some (truthy sections)))
   else modify (set_interactive (Some true))) ;;
  is_interactive <- gets interactive ;;
  o <- gets opts ;;
  when (negb (default false is_interactive) && negb (dry_run o))
    (truncate "/run/casper-no-prompt") ;;
  load_serialized_state E ;;
  update_state WAITING ;;
  emit SuperStarted ;;
  foreign (Application_start E) ;;
  apply_autoinstall_config E.

(** ** Restart *)

(** [os.execvp]: the process image is replaced, the call does not return. *)
Definition os_execvp (file : string) (argv : list string) : M unit := λ a,
  (Replaced file argv, a, []).

Definition restart (E : Ext) : M unit :=
  has_snapd <- gets snapd ;;
  if negb has_snapd then ret tt
  else
    o <- gets opts ;;
    let cmdline :=
      if dry_run o
      then [sys_executable E; "-m"; "subiquity.cmd.server"]
             ++ drop 1 (sys_argv E)
      else ["snap"; "run"; "subiquity.subiquity-server"] in
    os_execvp (default EmptyString (head cmdline)) cmdline.

Definition restart_POST (E : Ext) : M unit := restart E.

(** ** The request middleware *)

Record Request := {
  headers : gmap string string;
  raw_path : string;
}.

Record Response := {
  resp_status : Z;
  resp_headers : gmap string string;
  resp_text : string;
  resp_exception : option Exn;         (* resp["exception"] *)
}.

(** What a route's handler is attached to: a stage controller (an instance
    of [SubiquityController]) or one of the other controllers. *)
Inductive Target :=
| StageController (c : Controller)
| OtherController (nm : string).

Record Handler := {
  handler_controller : option Target;
  handler_call : Request → M Response;
}.

(** [controller_for_request]: the [controller] attribute of the handler the
    request resolves to, which is the handler the middleware is given. *)
Definition controller_for_request (handler : Handler) : M (option Target) :=
  ret (handler_controller handler).

(** [web.Response(headers=h)] *)
Definition web_Response (h : gmap string string) : Response :=
  {| resp_status := 200; resp_headers := h; resp_text := EmptyString;
     resp_exception := None |}.

(** [resp.headers[key] = value] *)
Definition set_header (key value : string) (resp : Response) : Response :=
  {| resp_status := resp_status resp;
     resp_headers := <[key := value]> (resp_headers resp);
     resp_text := resp_text resp;
     resp_exception := resp_exception resp |}.

(** Modelled from the spec: [ErrorReporter.make_apport_report] is not among
    the sources; it creates one report for the fault and keeps it. *)
Definition make_apport_report (kind : ErrorReportKind) (thing : string)
    (exc : Exn) : M ErrorReport := λ a,
  let report := {| report_base := length (error_reports a);
                   report_kind := kind; report_thing := thing;
                   report_exc := exc |} in
  (Ok report, set_error_reports (error_reports a ++ [report]) a,
   [ReportMade report]).

Definition middleware (E : Ext) (request : Request) (handler : Handler)
    : M Response :=
  controller <- controller_for_request handler ;;
  override_status <-
    match controller with
    | Some (StageController c) =>
        if bool_decide (headers request !! "x-make-view-request" = Some "yes")
        then
          is_interactive <- gets (ctl_interactive E c) ;;
          if negb is_interactive then ret (Some "skip")
          else
            state <- gets _state ;;
            if bool_decide (state = NEEDS_CONFIRMATION) then
              postinstall <-
                gets (λ a, is_postinstall_only E a (model_name c)) ;;
              if postinstall then ret (Some "confirm") else ret None
            else ret None
        else ret None
    | _ => ret None
    end ;;
  resp <- match override_status with
          | Some status => ret (web_Response {[ "x-status" := status ]})
          | None =>
              emit (HandlerInvoked (raw_path request)) ;;
              handler_call handler request
          end ;;
  was_updated <- gets updated ;;
  let resp := set_header "x-updated" (if was_updated then "yes" else "no")
                resp in
  match resp_exception resp with
  | Some exc =>
      report <- make_apport_report SERVER_REQUEST_FAIL
                  ("request to " +:+ raw_path request) exc ;;
      ret (set_header "x-error-report" (to_json_ErrorReportRef E report) resp)
  | None => ret resp
  end.

(** Modelled from the spec: the handlers that [bind] of
    subiquity.common.api.server attaches to the routes are not among the
    sources. Such a handler runs the endpoint's implementation; a fault of
    the implementation does not leave the handler: it comes back as a status
    500 response that carries the exception under ["exception"], which is
    where the middleware looks for it. *)
Definition bound_handler (controller : option Target)
    (implementation : Request → M string) : Handler :=
  {| handler_controller := controller;
     handler_call := λ request a,
       match implementation request a with
       | (Ok body, a1, t) =>
           (Ok {| resp_status := 200; resp_headers := ∅; resp_text := body;
                  resp_exception := None |}, a1, t)
       | (Raise exc, a1, t) =>
           (Ok {| resp_status := 500;
                  resp_headers := {[ "x-status" := "error" ]};
                  resp_text := EmptyString;
                  resp_exception := Some exc |}, a1, t)
       | (Replaced file argv, a1, t) => (Replaced file argv, a1, t)
       end |}.

(** ** MetaController: the remaining endpoints *)

(** The list comprehension of [interactive_sections_GET]. *)
Fixpoint interactive_keys (E : Ext) (a : App) (controllers : list Controller)
    : list string :=
  match controllers with
  | [] => []
  | controller :: rest =>
      if ctl_interactive E controller a then
        match autoinstall_key controller with
        | Some key => key :: interactive_keys E a rest
        | None => interactive_keys E a rest
        end
      else interactive_keys E a rest
  end.

Definition interactive_sections_GET (E : Ext) : M PyVal :=
  loaded <- gets autoinstall_config ;;
  match loaded with
  | None => ret PNone
  | Some config =>
      i_sections <- py_get config "interactive-sections" PNone ;;
      if is_star_list i_sections then
        a <- get ;;
        ret (PList (PStr <$> interactive_keys E a (instances a)))
      else ret i_sections
  end.

Definition KeyFingerprint_of (kf : string * string) : KeyFingerprint :=
  {| keytype := kf.1; fingerprint := kf.2 |}.

Definition ssh_info_GET (E : Ext) : M (option LiveSessionSSHInfo) :=
  a <- get ;;
  let addresses := match network E a with
                   | Some netdevs => concat netdevs
                   | None => []
                   end in
  match addresses with
  | [] => ret None
  | _ :: _ =>
      match installer_user_name a with
      | None => ret None
      | Some user =>
          let user_fingerprints :=
            KeyFingerprint_of <$> user_key_fingerprints E user in
          if bool_decide (installer_user_passwd_kind a = NONE)
             && negb (bool_of_function (user_key_fingerprints E))
          then ret None
          else
            let host_fingerprints :=
              KeyFingerprint_of <$> read_host_key_fingerprints E in
            ret (Some {| username := user;
                         password_kind := installer_user_passwd_kind a;
                         password := installer_user_passwd a;
                         authorized_key_fingerprints := user_fingerprints;
                         ips := addresses;
                         host_key_fingerprints := host_fingerprints |})
      end
  end.

(** ** Model names *)

(** [ModelNames(default, **per_variant)] *)
Record ModelNames := {
  default_names : list string;
  per_variant_names : list (string * list string);
}.

Definition INSTALL_MODEL_NAMES : ModelNames :=
  {| default_names :=
       ["debconf_selections"; "filesystem"; "kernel"; "keyboard"; "proxy";
        "source"];
     per_variant_names :=
       [("desktop", ["mirror"; "network"]);
        ("server", ["mirror"; "network"])] |}.

Definition POSTINSTALL_MODEL_NAMES : ModelNames :=
  {| default_names :=
       ["drivers"; "identity"; "locale"; "packages"; "snaplist"; "ssh";
        "ubuntu_pro"; "userdata"];
     per_variant_names :=
       [("desktop", ["timezone"; "codecs"; "active_directory"; "network"]);
        ("server", ["network"])] |}.

(** The names that count for a variant: the default ones and the
    variant's own. *)
Definition for_variant (names : ModelNames) (variant : string) : list string :=
  default_names names ++
  match filter (λ entry, entry.1 = variant) (per_variant_names names) with
  | entry :: _ => entry.2
  | [] => []
  end.

(** ** Construction *)

(** The attributes as [SubiquityServer.__init__] leaves them, before its
    call of [update_state]; [_state] does not exist yet at that point and is
    given the value that call is about to write. *)
Definition new_server (o : Opts) (model_root dir pid : string)
    (files : gmap string string) (was_updated has_snapd : bool) : App :=
  {| opts := o; root := model_root; state_dir := dir; fs := files;
     _state := STARTING_UP;
     state_event := {| _value := false; _waiters := [] |};
     loop_ready := [];
     updated := was_updated; snapd := has_snapd;
     interactive := None; confirming_tty := EmptyString; fatal_error := None;
     cloud_init_ok := None;
     echo_syslog_id := "subiquity_echo." +:+ pid;
     event_syslog_id := "subiquity_event." +:+ pid;
     log_syslog_id := "subiquity_log." +:+ pid;
     installer_user_name := None; installer_user_passwd_kind := NONE;
     installer_user_passwd := None;
     error_reports := []; instances := [];
     autoinstall := None; autoinstall_config := None; ctl_store := ∅ |}.

Definition __init__ (o : Opts) (model_root dir pid : string)
    (files : gmap string string) (was_updated has_snapd : bool) : App :=
  after (update_state STARTING_UP
           (new_server o model_root dir pid files was_updated has_snapd)).

(** ** A small installation, to run the definitions on *)

Definition Early : Controller :=
  {| ctl_name := "Early"; autoinstall_key := Some "early-commands";
     model_name := None; endpoint := None |}.
Definition Reporting : Controller :=
  {| ctl_name := "Reporting"; autoinstall_key := Some "reporting";
     model_name := None; endpoint := None |}.
Definition Error : Controller :=
  {| ctl_name := "Error"; autoinstall_key := Some "error-commands";
     model_name := None; endpoint := None |}.
Definition Network : Controller :=
  {| ctl_name := "Network"; autoinstall_key := Some "network";
     model_name := Some "network"; endpoint := Some "network" |}.
Definition Identity : Controller :=
  {| ctl_name := "Identity"; autoinstall_key := Some "identity";
     model_name := Some "identity"; endpoint := Some "identity" |}.
Definition Install : Controller :=
  {| ctl_name := "Install"; autoinstall_key := None;
     model_name := None; endpoint := None |}.

Definition demo_controllers : list Controller :=
  [Early; Reporting; Error; Network; Identity; Install].

(** Collaborators for the demonstration: a controller is interactive when
    the store holds [True] under its name; the Early controller takes its
    commands from the configuration; applying the network configuration
    makes the identity stage interactive; every autoinstall file reads as
    version 1 with one early command; a model is
    post-install only when the server variant lists it for after the
    installation and not for the installation; nothing fails. *)
Definition demo_ext : Ext :=
  {| ctl_interactive c a :=
       match ctl_store a !! ctl_name c with
       | Some (PBool b) => b
       | _ => false
       end;
     ctl_apply_autoinstall_config c a :=
       if bool_decide (ctl_name c = "Network")
       then (Ok tt,
             set_ctl_store (<["Identity" := PBool true]> (ctl_store a)) a)
       else (Ok tt, a);
     ctl_configured c a := (Ok tt, a);
     ctl_setup_autoinstall c a :=
       if bool_decide (ctl_name c = "Early") then
         match autoinstall_config a with
         | Some (PDict config) =>
             (Ok tt,
              set_ctl_store
                (<["early-commands" :=
                     default (PList []) (config !! "early-commands")]>
                   (ctl_store a)) a)
         | _ => (Ok tt, a)
         end
       else (Ok tt, a);
     ctl_load_state c a := (Ok tt, a);
     ctl_start c a := (Ok tt, a);
     ctl_run c a := (Ok tt, a);
     ctl_cmds c a := default (PList []) (ctl_store a !! "early-commands");
     controllers_load_all a := (Ok tt, set_instances demo_controllers a);
     Application_start a := (Ok tt, a);
     is_postinstall_only a model :=
       match model with
       | Some m =>
           bool_decide (m ∈ for_variant POSTINSTALL_MODEL_NAMES "server")
           && negb (bool_decide (m ∈ for_variant INSTALL_MODEL_NAMES "server"))
       | None => false
       end;
     network a := Some [["10.0.0.2"]; []];
     environ_USER := Some "ubuntu";
     sys_executable := "/usr/bin/python3";
     sys_argv := ["server"; "--dry-run"];
     user_key_fingerprints user := [];
     read_host_key_fingerprints := [("ssh-ed25519", "SHA256:n0w")];
     rand_user_password a := "hunter2hunter2hunter2";
     chpasswd input a := (0%Z, a);
     cloud_init_status_wait a := Some "status: done";
     get_host_combined_cloud_config a := ∅;
     stages_Init a := (∅, Some "ubuntu-server");
     safeyaml_dumps v := "version: 1";
     yaml_safe_load text :=
       Some (PDict {[ "version" := PInt 1;
                      "early-commands" := PList [PStr "echo early"] ]});
     to_json_ErrorReportRef r := "{}" |}.

Definition demo_opts : Opts :=
  {| dry_run := false; opts_autoinstall := None |}.

(** A server right after construction, its controllers loaded. *)
Definition demo_app : App :=
  set_instances demo_controllers
    (__init__ demo_opts "/" "/run/subiquity" "4242" ∅ false false).

(** A client long-polling for a change away from [STARTING_UP]. *)
Definition demo_poll : StatusPoll :=
  {| poll_id := 0; poll_cur := Some STARTING_UP |}.

Definition app_with_waiter : App := after (status_GET demo_poll demo_app).

(** Cloud-init and the installation media both bring an autoinstall file. *)
Definition app_two_sources : App :=
  set_fs (<["/run/subiquity/cloud.autoinstall.yaml" := "version: 1 # cloud"]>
          (<["/cdrom/autoinstall.yaml" := "version: 1 # iso"]> (fs demo_app)))
    demo_app.

(** An autoinstall configuration with early commands is loaded. *)
Definition app_early : App :=
  set_autoinstall_config (Some (PDict {[ "version" := PInt 1 ]}))
    (set_ctl_store {[ "early-commands" := PList [PStr "echo early"] ]}
       demo_app).

(** The same after a run that executed the early commands. *)
Definition app_early_stamped : App :=
  set_fs (<["/run/subiquity/early-commands" := EmptyString]> (fs app_early))
    app_early.

(** The network and install stages report themselves interactive. *)
Definition app_wildcard : App :=
  set_autoinstall_config
    (Some (PDict {[ "version" := PInt 1;
                    "interactive-sections" := PList [PStr "*"] ]}))
    (set_ctl_store {[ "Network" := PBool true; "Install" := PBool true ]}
       demo_app).

(** The identity stage is interactive and the install awaits confirmation. *)
Definition app_confirming : App :=
  set_state NEEDS_CONFIRMATION
    (set_ctl_store {[ "Identity" := PBool true ]} demo_app).

Definition view_request : Request :=
  {| headers := {[ "x-make-view-request" := "yes" ]};
     raw_path := "/identity" |}.

Definition identity_GET : Handler :=
  bound_handler (Some (StageController Identity)) (λ _, ret "{}").

Definition failing_GET : Handler :=
  bound_handler (Some (OtherController "Meta"))
    (λ _, raise (ValueError "unrecognized client variant")).

(** The installer user is known and its credentials are stamped. *)
Definition app_stamped_password : App :=
  set_installer_user_name (Some "ubuntu-server")
    (set_fs (<["/run/subiquity/installer-user-passwd" :=
               "installer:s3cret:with:colons"]> (fs demo_app)) demo_app).

(** A user without password and without keys, on a machine with a network. *)
Definition app_no_credentials : App :=
  set_installer_user_name (Some "installer") demo_app.

(** A server that found snapd. *)
Definition app_with_snapd : App :=
  __init__ demo_opts "/" "/run/subiquity" "4242" ∅ false true.

(** A machine booting for the first time, an autoinstall file on the
    installation media. *)
Definition app_first_boot : App :=
  __init__ demo_opts "/" "/run/subiquity" "4242"
    {[ "/cdrom/autoinstall.yaml" := "version: 1";
       "/etc/shadow" := "root:*:19000:0:99999:7:::" ]} false false.

(** ** Vocabulary of the statements *)

(** [prepend t o]: the outcome [o] of a continuation, after the effects
    [t] of what ran before it. *)
Definition prepend {A} (t : list Effect) (o : Res A * App * list Effect)
    : Res A * App * list Effect :=
  (o.1.1, o.1.2, t ++ o.2).

(** The numbers of the coroutines that have a future in the event. *)
Definition poll_ids (ev : Event) : list nat :=
  (λ f, poll_id (fut_owner f)) <$> _waiters ev.

(** The future has its result; its coroutine is scheduled, not yet run. *)
Definition resolved (f : Fut) : Prop := fut_done f = true.

#[global] Instance resolved_dec f : Decision (resolved f).
Proof. unfold resolved. apply _. Defined.

(** The event between two calls: the flag is down, the coroutines in it
    are distinct, the ready queue holds the coroutines whose future is
    resolved, and whoever is still blocked polled with the current state. *)
Record state_event_wf (a : App) : Prop := {
  wf_idle : _value (state_event a) = false;
  wf_nodup : NoDup (poll_ids (state_event a));
  wf_ready :
    loop_ready a ≡ₚ fut_owner <$> filter resolved (_waiters (state_event a));
  wf_cur : ∀ p, p ∈ blocked (state_event a) → poll_cur p = Some (_state a);
}.

(** The states a server goes through: state writes, status polls that
    arrive (each coroutine with a number of its own) and turns of the loop. *)
Inductive reachable : App → Prop :=
| reach_init o model_root dir pid files was_updated has_snapd :
    reachable (__init__ o model_root dir pid files was_updated has_snapd)
| reach_update_state a s :
    reachable a → reachable (after (update_state s a))
| reach_status_GET a p :
    reachable a → poll_id p ∉ poll_ids (state_event a) →
    reachable (after (status_GET p a))
| reach_loop_run_once a :
    reachable a → reachable (after (loop_run_once a)).

(** Every effect of [m] satisfies [Q]. *)
Definition only {A} (Q : Effect → Prop) (m : M A) : Prop :=
  ∀ a, Forall Q (trace (m a)).

(** The four candidate locations, highest precedence first. *)
Definition candidates (a : App) : list (option string) :=
  [Some (os_path_join (root a) root_autoinstall_path);
   opts_autoinstall (opts a);
   Some (os_path_join (root a) cloud_autoinstall_path);
   Some (os_path_join (root a) iso_autoinstall_path)].

(** [state_path("early-commands")] *)
Definition stamp_file (a : App) : string :=
  os_path_join (state_dir a) "early-commands".

(** The early-commands stamp is there. *)
Definition stamped (a : App) : Prop :=
  exists_in (fs a) (stamp_file a) = true.

(** The collaborators leave [P] as they find it. *)
Definition keeps {A} (P : App → Prop) (f : App → A * App) : Prop :=
  ∀ a, P a → P (f a).2.

(** All collaborators that act on the application object keep [P]. *)
Record ext_keeps (E : Ext) (P : App → Prop) : Prop := {
  keeps_apply : ∀ c, keeps P (ctl_apply_autoinstall_config E c);
  keeps_configured : ∀ c, keeps P (ctl_configured E c);
  keeps_setup : ∀ c, keeps P (ctl_setup_autoinstall E c);
  keeps_load_state : ∀ c, keeps P (ctl_load_state E c);
  keeps_start : ∀ c, keeps P (ctl_start E c);
  keeps_run : ∀ c, keeps P (ctl_run E c);
  keeps_load_all : keeps P (controllers_load_all E);
  keeps_Application_start : keeps P (Application_start E);
  keeps_chpasswd : ∀ input, keeps P (chpasswd E input);
}.

(** A restart: the new process constructs its server over the files the
    old one left. *)
Definition reboot (pid : string) (a : App) : App :=
  __init__ (opts a) (root a) (state_dir a) pid (fs a) (updated a) (snapd a).

(** What [start()] does in a row of boots, one per process id. *)
Fixpoint boots (E : Ext) (pids : list string) (a : App) : list Effect :=
  match pids with
  | [] => []
  | pid :: later =>
      let o := start E a in
      trace o ++ boots E later (reboot pid (after o))
  end.

(** The effect is a call of a controller's [run]. *)
Definition is_run (e : Effect) : Prop :=
  match e with Called _ method => method = "run" | _ => False end.

(** [start()] up to the early-commands block: its first lines, to the
    first [load_autoinstall_config]. *)
Definition start_before_early (E : Ext) : M unit :=
  foreign (controllers_load_all E) ;;
  start_api_server ;;
  update_state CLOUD_INIT_WAIT ;;
  wait_for_cloudinit E ;;
  set_installer_password E ;;
  selected <- select_autoinstall ;;
  modify (set_autoinstall selected) ;;
  load_autoinstall_config E true.

(** [start()] after the early-commands block: its last lines, from the
    second [load_autoinstall_config]. *)
Definition start_after_early (E : Ext) : M unit :=
  load_autoinstall_config E false ;;
  configured <- gets has_autoinstall_config ;;
  (if configured then
     config <- gets autoinstall_config ;;
     sections <- py_get (default PNone config) "interactive-sections" PNone ;;
     modify (set_interactive (Some (truthy sections)))
   else modify (set_interactive (Some true))) ;;
  is_interactive <- gets interactive ;;
  o <- gets opts ;;
  when (negb (default false is_interactive) && negb (dry_run o))
    (truncate "/run/casper-no-prompt") ;;
  load_serialized_state E ;;
  update_state WAITING ;;
  emit SuperStarted ;;
  foreign (Application_start E) ;;
  apply_autoinstall_config E.

(** [m] keeps [P] and does not call a controller's [run]. *)
Definition quiet {A} (P : App → Prop) (m : M A) : Prop :=
  ∀ a, P a → P (after (m a)) ∧ Forall (λ e, ¬ is_run e) (trace (m a)).

(** The body of the loop of [apply_autoinstall_config], at one controller. *)
Definition visit (E : Ext) (controller : Controller) : M unit :=
  is_interactive <- gets (ctl_interactive E controller) ;;
  if is_interactive then ret tt
  else
    call controller "apply_autoinstall_config"
      (ctl_apply_autoinstall_config E) ;;
    call controller "configured" (ctl_configured E).

(** The controllers whose [apply_autoinstall_config] a trace calls. *)
Fixpoint applied (t : list Effect) : list Controller :=
  match t with
  | [] => []
  | Called c method :: rest =>
      if bool_decide (method = "apply_autoinstall_config")
      then c :: applied rest else applied rest
  | _ :: rest => applied rest
  end.

(** The response the middleware answers with when it overrides the handler. *)
Definition override_response (a : App) (status : string) : Response :=
  set_header "x-updated" (if updated a then "yes" else "no")
    (web_Response {[ "x-status" := status ]}).

(** What the middleware makes of the response [resp] that the handler
    returned in state [a1]. *)
Definition annotated (E : Ext) (request : Request) (resp : Response)
    (a1 : App) : Res Response * App * list Effect :=
  let resp' :=
    set_header "x-updated" (if updated a1 then "yes" else "no") resp in
  match resp_exception resp with
  | None => (Ok resp', a1, [])
  | Some exc =>
      let report := {| report_base := length (error_reports a1);
                       report_kind := SERVER_REQUEST_FAIL;
                       report_thing := "request to " +:+ raw_path request;
                       report_exc := exc |} in
      (Ok (set_header "x-error-report" (to_json_ErrorReportRef E report) resp'),
       set_error_reports (error_reports a1 ++ [report]) a1,
       [ReportMade report])
  end.

(** The middleware when it does call the handler. *)
Definition handled (E : Ext) (request : Request) (handler : Handler) (a : App)
    : Res Response * App * list Effect :=
  match handler_call handler request a with
  | (Ok resp, a1, t) =>
      prepend (HandlerInvoked (raw_path request) :: t)
        (annotated E request resp a1)
  | (Raise e, a1, t) => (Raise e, a1, HandlerInvoked (raw_path request) :: t)
  | (Replaced file argv, a1, t) =>
      (Replaced file argv, a1, HandlerInvoked (raw_path request) :: t)
  end.

(** The value of [override_status] in [middleware]. *)
Definition override_status (E : Ext) (request : Request) (handler : Handler)
    (a : App) : option string :=
  match handler_controller handler with
  | Some (StageController c) =>
      if bool_decide (headers request !! "x-make-view-request" = Some "yes")
      then
        if negb (ctl_interactive E c a) then Some "skip"
        else if bool_decide (_state a = NEEDS_CONFIRMATION)
                && is_postinstall_only E a (model_name c)
             then Some "confirm" else None
      else None
  | _ => None
  end.

(** [state_path("installer-user-passwd")] *)
Definition passfile (a : App) : string :=
  os_path_join (state_dir a) "installer-user-passwd".

(** The command line [restart] re-executes. *)
Definition restart_cmdline (E : Ext) (a : App) : list string :=
  if dry_run (opts a)
  then sys_executable E :: "-m" :: "subiquity.cmd.server" :: drop 1 (sys_argv E)
  else ["snap"; "run"; "subiquity.subiquity-server"].

(** The global addresses of all network devices, as [ssh_info_GET]
    collects them. *)
Definition global_ips (E : Ext) (a : App) : list string :=
  match network E a with
  | Some netdevs => concat netdevs
  | None => []
  end.

(** * More of the server *)

(** ** The event loop, for several turns *)

(** The loop resumes the coroutines of its ready queue one after the other,
    for at most [turns] turns, and collects what they return. *)
Fixpoint loop_run (turns : nat)
    : M (list (StatusPoll * ApplicationStatus)) :=
  match turns with
  | 0 => ret []
  | S n =>
      resumed <- loop_run_once ;;
      match resumed with
      | None => ret []
      | Some answer => rest <- loop_run n ;; ret (answer :: rest)
      end
  end.


(** ** MetaController.mark_configured_POST *)

(** [api_attr en] is [getattr(API, en, None)]: the endpoint of that name in
    the API definition, or [None] when the API has no such attribute. *)
Definition mark_configured_POST (E : Ext) (api_attr : string → option string)
    (endpoint_names : list string) : M unit :=
  let endpoints := api_attr <$> endpoint_names in
  controllers <- gets instances ;;
  for_each controllers (λ controller,
    if bool_decide (endpoint controller ∈ endpoints)
    then call controller "configured" (ctl_configured E)
    else ret tt).

(** ** SubiquityServer.make_autoinstall *)

(** [make_conf c] is the controller's own [make_autoinstall()], which reads
    the application object. The keys of the dictionary are the controllers'
    [autoinstall_key], which may be [None]. *)
Definition make_autoinstall (make_conf : Controller → App → PyVal) (a : App)
    : gmap (option string) PyVal :=
  foldl (λ config controller,
           let controller_conf := make_conf controller a in
           if truthy controller_conf
           then <[autoinstall_key controller := controller_conf]> config
           else config)
        {[ Some "version" := PInt 1 ]} (instances a).

(** ** Faults that reach the event loop *)

Definition set_fatal_error (v : option ErrorReport) (a : App) : App :=
  {| opts := opts a; root := root a; state_dir := state_dir a; fs := fs a;
     _state := _state a; state_event := state_event a; loop_ready :=
     loop_ready a; updated := updated a; snapd := snapd a; interactive :=
     interactive a; confirming_tty := confirming_tty a; fatal_error := v;
     cloud_init_ok := cloud_init_ok a; echo_syslog_id := echo_syslog_id a;
     event_syslog_id := event_syslog_id a; log_syslog_id := log_syslog_id a;
     installer_user_name := installer_user_name a;
     installer_user_passwd_kind := installer_user_passwd_kind a;
     installer_user_passwd := installer_user_passwd a; error_reports :=
     error_reports a; instances := instances a; autoinstall := autoinstall
     a; autoinstall_config := autoinstall_config a; ctl_store := ctl_store a
     |}.

(** [try: m except Exception: log.exception(...)] *)
Definition try_and_log (m : M unit) : M unit := λ a,
  match m a with
  | (Raise _, a1, t) => (Ok tt, a1, t)
  | o => o
  end.

(** [getattr(self.controllers, nm, None)] *)
Definition controller_named_or_None (nm : string) : M (option Controller) :=
  gets (λ a, head (filter (λ c, ctl_name c = nm) (instances a))).

(** [_run_error_cmds]; [info_task report] is [await report._info_task]. *)
Definition _run_error_cmds (E : Ext)
    (info_task : ErrorReport → App → Res unit * App) (report : ErrorReport)
    : M unit :=
  foreign (info_task report) ;;
  Error <- controller_named_or_None "Error" ;;
  match Error with
  | Some Error =>
      cmds <- gets (ctl_cmds E Error) ;;
      if truthy cmds then try_and_log (call Error "run" (ctl_run E))
      else ret tt
  | None => ret tt
  end ;;
  is_interactive <- gets interactive ;;
  if negb (default false is_interactive) then update_state ERROR
  else ret tt.

(** [_exception_handler]. The attribute [running_error_commands] is passed
    in and its new value returned, together with the report of the
    [_run_error_cmds] coroutine given to [run_bg_task], if there is one.
    [super_handler] is the handler of the base class, [report_for_exc exc]
    the error reporter's lookup of the report made for [exc]. *)
Definition _exception_handler
    (super_handler : App → Res unit * App)
    (report_for_exc : Exn → App → option ErrorReport)
    (exc : option Exn) (running_error_commands : bool)
    : M (bool * option ErrorReport) :=
  match exc with
  | None => foreign super_handler ;; ret (running_error_commands, None)
  | Some exc =>
      found <- gets (report_for_exc exc) ;;
      report <- match found with
                | Some report => ret report
                | None => make_apport_report UNKNOWN_KIND "unknown error" exc
                end ;;
      modify (set_fatal_error (Some report)) ;;
      is_interactive <- gets interactive ;;
      (if default false is_interactive then update_state ERROR
       else ret tt) ;;
      if negb running_error_commands then ret (true, Some report)
      else ret (running_error_commands, None)
  end.

(** The handler on a series of faults, one after the other: the value of
    [running_error_commands] at the end and the reports of the
    [_run_error_cmds] coroutines started on the way. *)
Fixpoint handle_faults
    (super_handler : App → Res unit * App)
    (report_for_exc : Exn → App → option ErrorReport)
    (faults : list (option Exn)) (running_error_commands : bool)
    : M (bool * list ErrorReport) :=
  match faults with
  | [] => ret (running_error_commands, [])
  | exc :: later =>
      handled <- _exception_handler super_handler report_for_exc exc
                   running_error_commands ;;
      rest <- handle_faults super_handler report_for_exc later handled.1 ;;
      ret (rest.1, option_list handled.2 ++ rest.2)
  end.

(** ** Events to the journal *)

(** What [_maybe_push_to_journal] reads of a context: the truth values of
    [context.get("is-install-context")] and [context.get("request")], the
    controller under [context.get("controller")], and the context's own
    attributes; [ctx_parent_id] is [str(context.parent.id)] when the
    context has a parent. *)
Record Context := {
  ctx_is_install_context : bool;
  ctx_controller : option Controller;
  ctx_request : bool;
  ctx_full_name : string;
  ctx_description : string;
  ctx_level : string;
  ctx_id : string;
  ctx_parent_id : option string;
}.

(** The arguments of [journal.send]. *)
Record JournalEntry := {
  MESSAGE : string;
  PRIORITY : string;
  SYSLOG_IDENTIFIER : string;
  SUBIQUITY_CONTEXT_NAME : string;
  SUBIQUITY_EVENT_TYPE : string;
  SUBIQUITY_CONTEXT_ID : string;
  SUBIQUITY_CONTEXT_PARENT_ID : string;
}.

(** [s.count(c)] for a character. *)
Fixpoint str_count (c : Ascii.ascii) (s : string) : nat :=
  match s with
  | EmptyString => 0
  | String d rest =>
      (if bool_decide (d = c) then 1 else 0) + str_count c rest
  end.

(** [s * n]; nothing for a negative [n]. *)
Definition str_times (s : string) (n : Z) : string :=
  String.concat EmptyString (replicate (Z.to_nat n) s).

(** [_maybe_push_to_journal]: the entry sent to the journal, if one is. *)
Definition _maybe_push_to_journal (E : Ext) (event_type : string)
    (context : Context) (description : string) (a : App)
    : option JournalEntry :=
  if negb (ctx_is_install_context context)
     && bool_decide (interactive a ∈ [Some true; None])
     && match ctx_controller context with
        | None => true
        | Some controller => ctl_interactive E controller a
        end
  then None
  else if ctx_request context then None
  else
    let indent := (Z.of_nat (str_count "/" (ctx_full_name context)) - 2)%Z in
    let indent_msg :=
      if ctx_is_install_context context && default false (interactive a)
      then ((indent - 1)%Z, ctx_description context)
      else (indent,
            if bool_decide (description = EmptyString)
            then ctx_full_name context
            else ctx_full_name context +:+ ": " +:+ description) in
    Some {| MESSAGE := str_times "  " indent_msg.1 +:+ indent_msg.2;
            PRIORITY := ctx_level context;
            SYSLOG_IDENTIFIER := event_syslog_id a;
            SUBIQUITY_CONTEXT_NAME := ctx_full_name context;
            SUBIQUITY_EVENT_TYPE := event_type;
            SUBIQUITY_CONTEXT_ID := ctx_id context;
            SUBIQUITY_CONTEXT_PARENT_ID :=
              default EmptyString (ctx_parent_id context) |}.

(** ** Vocabulary of the further statements *)

Definition is_file_write (e : Effect) : Prop :=
  match e with FileWritten _ _ => True | _ => False end.

Definition first_char (s : string) : option ascii :=
  match s with String c _ => Some c | EmptyString => None end.

Fixpoint last_char (s : string) : option ascii :=
  match s with
  | EmptyString => None
  | String c rest =>
      match last_char rest with Some d => Some d | None => Some c end
  end.

(** What [base_schema] accepts: an object whose [version] is the integer 1. *)
Definition base_valid (config : PyVal) : bool :=
  match config with
  | PDict d => match d !! "version" with Some (PInt 1) => true | _ => false end
  | _ => false
  end.

(** The server has the configuration [config] loaded. *)
Definition has_config (config : PyVal) (a : App) : Prop :=
  autoinstall_config a = optional_of_py config.

(** The cloud configuration [load_cloud_config] works with: the combined
    one when it is not empty, else the one of [stages.Init()]. *)
Definition cloud_cfg_of (E : Ext) (a : App) : gmap string PyVal :=
  if bool_decide (get_host_combined_cloud_config E a = ∅)
  then (stages_Init E a).1
  else get_host_combined_cloud_config E a.

Definition cloud_path (a : App) : string :=
  os_path_join (root a) cloud_autoinstall_path.

Definition cloud_init_wait_command : Effect :=
  Ran ["cloud-init"; "status"; "--wait"] EmptyString.

Definition state_file (a : App) : string :=
  os_path_join (state_dir a) "server-state".

(** The calls of [configured], one per controller. *)
Definition configured_calls (cs : list Controller) : list Effect :=
  (λ c, Called c "configured") <$> cs.

(** The controllers that contribute to the key [k]: those with this
    [autoinstall_key] whose own configuration is truthy. *)
Definition contributes (make_conf : Controller → App → PyVal) (a : App)
    (k : option string) (c : Controller) : Prop :=
  autoinstall_key c = k ∧ truthy (make_conf c a) = true.

#[global] Instance contributes_dec
    (make_conf : Controller → App → PyVal) (a : App) (k : option string)
    (c : Controller) :
  Decision (contributes make_conf a k c).
Proof. unfold contributes. apply _. Defined.

(** The report [_exception_handler] makes when the reporter has none. *)
Definition unknown_error_report (exc : Exn) (a : App) : ErrorReport :=
  {| report_base := length (error_reports a); report_kind := UNKNOWN_KIND;
     report_thing := "unknown error"; report_exc := exc |}.

(** The reports the handler adds to the reporter's: none when the reporter
    had one for the exception. *)
Definition new_reports (found : option ErrorReport) (report : ErrorReport)
    : list ErrorReport :=
  match found with Some _ => [] | None => [report] end.

(** The effect is a write of [ERROR] to a file. *)
Definition is_error_write (e : Effect) : Prop :=
  match e with FileWritten _ content => content = "ERROR" | _ => False end.

#[global] Instance is_error_write_dec e : Decision (is_error_write e).
Proof. destruct e; simpl; apply _. Defined.

(** A fault from its arrival in the handler to the end of the
    [_run_error_cmds] coroutine, when the handler starts one. *)
Definition fault_handled (E : Ext)
    (super_handler : App → Res unit * App)
    (report_for_exc : Exn → App → option ErrorReport)
    (info_task : ErrorReport → App → Res unit * App)
    (exc : Exn) (running_error_commands : bool) : M bool :=
  handled <- _exception_handler super_handler report_for_exc (Some exc)
               running_error_commands ;;
  match handled.2 with
  | Some report => _run_error_cmds E info_task report
  | None => ret tt
  end ;;
  ret handled.1.

(** The last two lines of [_run_error_cmds]. *)
Definition error_state_unless_interactive : M unit :=
  is_interactive <- gets interactive ;;
  if negb (default false is_interactive) then update_state ERROR
  else ret tt.

(** The Error controller, when it is there and has commands. *)
Definition error_commands (E : Ext) (a : App) : option Controller :=
  match head (filter (λ c, ctl_name c = "Error") (instances a)) with
  | Some c => if truthy (ctl_cmds E c a) then Some c else None
  | None => None
  end.

(** The collaborator leaves the state and the kind of run alone. *)
Definition keeps_state {A} (f : App → Res A * App) : Prop :=
  ∀ b, interactive (f b).2 = interactive b ∧ _state (f b).2 = _state b.

(** A call the non-interactive sweep makes. *)
Definition is_sweep_call (e : Effect) : Prop :=
  match e with
  | Called _ method =>
      method = "apply_autoinstall_config" ∨ method = "configured"
  | _ => False
  end.

(** The trace is made of what comes before the sweep, which ends with the
    state [WAITING] written and the start of the base class, and of the
    sweep. *)
Definition sweep_comes_last (t : list Effect) : Prop :=
  ∃ before sweep,
    t = before ++ sweep
    ∧ Forall (λ e, ¬ is_sweep_call e) before
    ∧ Forall is_sweep_call sweep
    ∧ (sweep ≠ [] →
       ∃ earlier path released,
         before = earlier ++ FileWritten path "WAITING"
                    :: (Released <$> released) ++ [SuperStarted]).

(** The server after the write of [WAITING] that released the client. *)
Definition app_released : App := after (update_state WAITING app_with_waiter).

(** A server that was polled right after its construction and then came to
    wait for its clients. *)
Definition server_waiting : App :=
  after (update_state WAITING
           (after (status_GET demo_poll
                     (__init__ demo_opts "/" "/run/subiquity" "4242" ∅
                        false false)))).

(** The installer user of the first boot: cloud-init named it, it has no
    password and no key. *)
Definition app_new_user : App :=
  set_installer_user_name (Some "ubuntu-server") app_first_boot.

(** The collaborators of the demonstration with another YAML parser. *)
Definition with_yaml (load : string → option PyVal) (E : Ext) : Ext :=
  {| ctl_interactive := ctl_interactive E;
     ctl_apply_autoinstall_config := ctl_apply_autoinstall_config E;
     ctl_configured := ctl_configured E;
     ctl_setup_autoinstall := ctl_setup_autoinstall E;
     ctl_load_state := ctl_load_state E;
     ctl_start := ctl_start E;
     ctl_run := ctl_run E;
     ctl_cmds := ctl_cmds E;
     controllers_load_all := controllers_load_all E;
     Application_start := Application_start E;
     is_postinstall_only := is_postinstall_only E;
     network := network E;
     environ_USER := environ_USER E;
     sys_executable := sys_executable E;
     sys_argv := sys_argv E;
     user_key_fingerprints := user_key_fingerprints E;
     read_host_key_fingerprints := read_host_key_fingerprints E;
     rand_user_password := rand_user_password E;
     chpasswd := chpasswd E;
     cloud_init_status_wait := cloud_init_status_wait E;
     get_host_combined_cloud_config := get_host_combined_cloud_config E;
     stages_Init := stages_Init E;
     safeyaml_dumps := safeyaml_dumps E;
     yaml_safe_load := load;
     to_json_ErrorReportRef := to_json_ErrorReportRef E |}.

(** The same with a stage whose [apply_autoinstall_config] fails. *)
Definition with_failing_stage (stage : string) (E : Ext) : Ext :=
  {| ctl_interactive := ctl_interactive E;
     ctl_apply_autoinstall_config c a :=
       if bool_decide (ctl_name c = stage)
       then (Raise (CollaboratorError stage), a)
       else ctl_apply_autoinstall_config E c a;
     ctl_configured := ctl_configured E;
     ctl_setup_autoinstall := ctl_setup_autoinstall E;
     ctl_load_state := ctl_load_state E;
     ctl_start := ctl_start E;
     ctl_run := ctl_run E;
     ctl_cmds := ctl_cmds E;
     controllers_load_all := controllers_load_all E;
     Application_start := Application_start E;
     is_postinstall_only := is_postinstall_only E;
     network := network E;
     environ_USER := environ_USER E;
     sys_executable := sys_executable E;
     sys_argv := sys_argv E;
     user_key_fingerprints := user_key_fingerprints E;
     read_host_key_fingerprints := read_host_key_fingerprints E;
     rand_user_password := rand_user_password E;
     chpasswd := chpasswd E;
     cloud_init_status_wait := cloud_init_status_wait E;
     get_host_combined_cloud_config := get_host_combined_cloud_config E;
     stages_Init := stages_Init E;
     safeyaml_dumps := safeyaml_dumps E;
     yaml_safe_load := yaml_safe_load E;
     to_json_ErrorReportRef := to_json_ErrorReportRef E |}.

(** The same with a combined cloud configuration. *)
Definition with_cloud_config (combined : gmap string PyVal) (E : Ext) : Ext :=
  {| ctl_interactive := ctl_interactive E;
     ctl_apply_autoinstall_config := ctl_apply_autoinstall_config E;
     ctl_configured := ctl_configured E;
     ctl_setup_autoinstall := ctl_setup_autoinstall E;
     ctl_load_state := ctl_load_state E;
     ctl_start := ctl_start E;
     ctl_run := ctl_run E;
     ctl_cmds := ctl_cmds E;
     controllers_load_all := controllers_load_all E;
     Application_start := Application_start E;
     is_postinstall_only := is_postinstall_only E;
     network := network E;
     environ_USER := environ_USER E;
     sys_executable := sys_executable E;
     sys_argv := sys_argv E;
     user_key_fingerprints := user_key_fingerprints E;
     read_host_key_fingerprints := read_host_key_fingerprints E;
     rand_user_password := rand_user_password E;
     chpasswd := chpasswd E;
     cloud_init_status_wait := cloud_init_status_wait E;
     get_host_combined_cloud_config a := combined;
     stages_Init := stages_Init E;
     safeyaml_dumps := safeyaml_dumps E;
     yaml_safe_load := yaml_safe_load E;
     to_json_ErrorReportRef := to_json_ErrorReportRef E |}.

(** An autoinstall file of a version the server does not know. *)
Definition version_2 : PyVal := PDict {[ "version" := PInt 2 ]}.

Definition app_version_2 : App :=
  set_autoinstall (Some "/autoinstall.yaml")
    (set_fs {[ "/autoinstall.yaml" := "version: 2" ]} demo_app).

(** Every stage reports itself interactive. *)
Definition app_all_interactive : App :=
  set_ctl_store
    (list_to_map ((λ c, (ctl_name c, PBool true)) <$> demo_controllers))
    demo_app.

(** A request that is not a view request. *)
Definition plain_request : Request :=
  {| headers := ∅; raw_path := "/identity" |}.

(** A cloud configuration that carries an autoinstall section. *)
Definition cloud_with_autoinstall : gmap string PyVal :=
  {[ "autoinstall" := PDict {[ "version" := PInt 1 ]} ]}.

(** The handler of the base class and a reporter without reports. *)
Definition super_handler_ok (a : App) : Res unit * App := (Ok tt, a).
Definition no_report_for_exc (exc : Exn) (a : App) : option ErrorReport :=
  None.
Definition info_task_ok (report : ErrorReport) (a : App) : Res unit * App :=
  (Ok tt, a).

(** The API of the demonstration: the endpoints of the two stages. *)
Definition demo_api (en : string) : option string :=
  if bool_decide (en = "network") then Some "network"
  else if bool_decide (en = "identity") then Some "identity"
  else None.

(** * Properties *)

(** ** Reasoning about the monad *)

Lemma prepend_nil {A} (o : Res A * App * list Effect) : prepend [] o = o.
Proof. by destruct o as [[]]. Qed.

Lemma prepend_prepend {A} t1 t2 (o : Res A * App * list Effect) :
  prepend t1 (prepend t2 o) = prepend (t1 ++ t2) o.
Proof. unfold prepend. simpl. by rewrite app_assoc. Qed.

Lemma result_prepend {A} t (o : Res A * App * list Effect) :
  result (prepend t o) = result o.
Proof. done. Qed.

Lemma after_prepend {A} t (o : Res A * App * list Effect) :
  after (prepend t o) = after o.
Proof. done. Qed.

Lemma trace_prepend {A} t (o : Res A * App * list Effect) :
  trace (prepend t o) = t ++ trace o.
Proof. done. Qed.

Lemma bind_run {A B} (m : M A) (k : A → M B) a :
  bind m k a =
  match m a with
  | (Ok x, a1, t1) => prepend t1 (k x a1)
  | (Raise e, a1, t1) => (Raise e, a1, t1)
  | (Replaced file argv, a1, t1) => (Replaced file argv, a1, t1)
  end.
Proof.
  unfold bind, prepend. destruct (m a) as [[[x|e|file argv] a1] t1]; try done.
  by destruct (k x a1) as [[]].
Qed.

Lemma bind_ret {A B} (x : A) (k : A → M B) a : bind (ret x) k a = k x a.
Proof. rewrite bind_run. apply prepend_nil. Qed.

Lemma bind_get {B} (k : App → M B) a : bind get k a = k a a.
Proof. rewrite bind_run. apply prepend_nil. Qed.

Lemma bind_gets {A B} (f : App → A) (k : A → M B) a :
  bind (gets f) k a = k (f a) a.
Proof. rewrite bind_run. apply prepend_nil. Qed.

Lemma bind_modify {B} (f : App → App) (k : unit → M B) a :
  bind (modify f) k a = k tt (f a).
Proof. rewrite bind_run. apply prepend_nil. Qed.

Lemma bind_emit {B} (e : Effect) (k : unit → M B) a :
  bind (emit e) k a = prepend [e] (k tt a).
Proof. by rewrite bind_run. Qed.

Lemma bind_raise {A B} (e : Exn) (k : A → M B) a :
  bind (raise e) k a = (Raise e, a, []).
Proof. by rewrite bind_run. Qed.

Lemma bind_assoc {A B C} (m : M A) (k : A → M B) (h : B → M C) a :
  bind (bind m k) h a = bind m (λ x, bind (k x) h) a.
Proof.
  rewrite !bind_run. destruct (m a) as [[[x|e|file argv] a1] t1]; try done.
  rewrite bind_run. unfold prepend. simpl.
  destruct (k x a1) as [[[y|e|file argv] a2] t2]; simpl; try done.
  by rewrite app_assoc.
Qed.

Lemma bind_state_path {B} file (k : string → M B) a :
  bind (state_path file) k a = k (os_path_join (state_dir a) file) a.
Proof. unfold state_path. by rewrite bind_gets. Qed.

Lemma bind_base_relative {B} path (k : string → M B) a :
  bind (base_relative path) k a = k (os_path_join (root a) path) a.
Proof. unfold base_relative. by rewrite bind_gets. Qed.

Lemma bind_os_path_exists {B} path (k : bool → M B) a :
  bind (os_path_exists path) k a = k (exists_in (fs a) path) a.
Proof. unfold os_path_exists. by rewrite bind_gets. Qed.

Lemma bind_read_file {B} path content (k : string → M B) a :
  fs a !! path = Some content → bind (read_file path) k a = k content a.
Proof.
  intros H. rewrite bind_run. unfold read_file. rewrite H. apply prepend_nil.
Qed.

Lemma bind_truncate {B} path (k : unit → M B) a :
  bind (truncate path) k a =
  prepend [FileWritten path EmptyString]
    (k tt (set_fs (<[path := EmptyString]> (fs a)) a)).
Proof. by rewrite bind_run. Qed.

Lemma bind_write_file {B} path content (k : unit → M B) a :
  bind (write_file path content) k a =
  prepend [FileWritten path content]
    (k tt (set_fs (<[path := content]> (fs a)) a)).
Proof. by rewrite bind_run. Qed.

Lemma exists_in_true files path :
  exists_in files path = true ↔ is_Some (files !! path).
Proof. unfold exists_in. apply bool_decide_eq_true. Qed.

Lemma exists_in_false files path :
  exists_in files path = false ↔ files !! path = None.
Proof.
  unfold exists_in. rewrite bool_decide_eq_false, <- eq_None_not_Some. done.
Qed.

Lemma exists_in_insert files path content other :
  exists_in files other = true →
  exists_in (<[path := content]> files) other = true.
Proof.
  rewrite !exists_in_true. intros Hsome.
  destruct (decide (path = other)) as [->|Hne].
  - rewrite lookup_insert_eq. eauto.
  - by rewrite lookup_insert_ne.
Qed.

Ltac mrun :=
  repeat (first
    [ rewrite bind_assoc | rewrite bind_ret | rewrite bind_get
    | rewrite bind_gets | rewrite bind_modify | rewrite bind_emit
    | rewrite bind_raise | rewrite bind_state_path
    | rewrite bind_base_relative | rewrite bind_os_path_exists
    | rewrite bind_truncate | rewrite bind_write_file ]).

(** ** The state event (C1) *)

Lemma blocked_mark_done (l : list Fut) :
  filter pending (mark_done <$> l) = [].
Proof.
  induction l as [|f l IH]; [done|].
  rewrite fmap_cons, filter_cons_False; [done|]. unfold pending. done.
Qed.

Lemma resolved_mark_done (l : list Fut) :
  filter resolved (mark_done <$> l) = mark_done <$> l.
Proof.
  induction l as [|f l IH]; [done|].
  rewrite fmap_cons, filter_cons_True by done. by rewrite IH.
Qed.

Lemma owners_mark_done (l : list Fut) :
  fut_owner <$> (mark_done <$> l) = fut_owner <$> l.
Proof. rewrite <- list_fmap_compose. done. Qed.

Lemma owners_split (l : list Fut) :
  fut_owner <$> l ≡ₚ
  (fut_owner <$> filter resolved l) ++ (fut_owner <$> filter pending l).
Proof.
  induction l as [|f l IH]; [done|].
  destruct (fut_done f) eqn:Hd.
  - rewrite (filter_cons_True resolved) by done.
    rewrite (filter_cons_False pending) by (unfold pending; congruence).
    simpl. by rewrite <- IH.
  - rewrite (filter_cons_False resolved) by (unfold resolved; congruence).
    rewrite (filter_cons_True pending) by done.
    simpl. rewrite <- Permutation_middle. by rewrite <- IH.
Qed.

Lemma NoDup_owners ev :
  NoDup (poll_ids ev) → NoDup (blocked ev).
Proof.
  unfold poll_ids, blocked. intros H.
  assert (NoDup (fut_owner <$> _waiters ev)) as Hn.
  { rewrite (list_fmap_compose fut_owner poll_id) in H.
    eapply NoDup_fmap_1. exact H. }
  rewrite owners_split in Hn. by apply NoDup_app in Hn as (_ & _ & ?).
Qed.

Lemma update_state_unfold s a :
  update_state s a =
  (Ok tt,
   set_state_event (Event_clear (Event_set (state_event a)).1)
     (set_loop_ready (loop_ready a ++ (Event_set (state_event a)).2)
        (set_state_event (Event_set (state_event a)).1
           (set_fs
              (<[os_path_join (state_dir a) "server-state" := name s]> (fs a))
              (set_state s a)))),
   FileWritten (os_path_join (state_dir a) "server-state") (name s)
     :: (Released <$> (Event_set (state_event a)).2)).
Proof.
  unfold update_state, bind, modify, state_path, gets, write_file,
    state_event_set, state_event_clear. simpl.
  destruct (Event_set (state_event a)) as [ev woken]. simpl.
  by rewrite app_nil_r.
Qed.

Lemma Event_set_idle ev :
  _value ev = false →
  Event_set ev =
  ({| _value := true; _waiters := mark_done <$> _waiters ev |}, blocked ev).
Proof. unfold Event_set. by intros ->. Qed.

Lemma wf_update_state a s :
  state_event_wf a → state_event_wf (after (update_state s a)).
Proof.
  intros [Hidle Hnd Hready Hcur].
  rewrite update_state_unfold, (Event_set_idle _ Hidle). unfold after. simpl.
  split; simpl.
  - done.
  - unfold poll_ids in *. simpl. by rewrite <- list_fmap_compose.
  - rewrite resolved_mark_done, owners_mark_done, Hready.
    symmetry. apply owners_split.
  - unfold blocked. simpl. rewrite blocked_mark_done. by intros p ?%elem_of_nil.
Qed.

Lemma wf_status_GET a q :
  state_event_wf a → poll_id q ∉ poll_ids (state_event a) →
  state_event_wf (after (status_GET q a)).
Proof.
  intros [Hidle Hnd Hready Hcur] Hfresh. unfold status_GET.
  case_bool_decide as Hq; [|by split].
  unfold Event_wait. rewrite Hidle. unfold after. simpl.
  split; simpl.
  - done.
  - unfold poll_ids in *. simpl. rewrite fmap_app. simpl.
    apply NoDup_app. split_and!; [done| |apply NoDup_singleton].
    intros x Hx ->%list_elem_of_singleton. done.
  - rewrite filter_app, fmap_app, Hready.
    rewrite filter_cons_False by (unfold resolved; done).
    rewrite filter_nil. simpl. by rewrite app_nil_r.
  - unfold blocked in *. simpl. intros p.
    rewrite filter_app, fmap_app, elem_of_app.
    rewrite filter_cons_True by done. rewrite filter_nil. simpl.
    intros [?| ->%list_elem_of_singleton]; auto.
Qed.

Lemma remove_fut_perm (l : list Fut) f p :
  NoDup ((λ f, poll_id (fut_owner f)) <$> l) →
  f ∈ l → poll_id (fut_owner f) = poll_id p →
  l ≡ₚ f :: remove_fut p l.
Proof.
  induction l as [|g l IH]; intros Hnd Hin Hid.
  - by apply elem_of_nil in Hin.
  - simpl in *. apply NoDup_cons in Hnd as [Hg Hnd].
    apply elem_of_cons in Hin as [->|Hin].
    + rewrite bool_decide_true by done. done.
    + case_bool_decide as Hgp.
      * exfalso. apply Hg. rewrite Hgp, <- Hid.
        apply (list_elem_of_fmap_2 (λ f, poll_id (fut_owner f))). done.
      * rewrite (IH Hnd Hin Hid) at 1. apply perm_swap.
Qed.

Lemma remove_fut_sublist p (l : list Fut) : remove_fut p l `sublist_of` l.
Proof.
  induction l as [|g l IH]; simpl; [done|].
  case_bool_decide; [by apply sublist_cons | by apply sublist_skip].
Qed.

Lemma wf_loop_run_once a :
  state_event_wf a → state_event_wf (after (loop_run_once a)).
Proof.
  intros [Hidle Hnd Hready Hcur]. unfold loop_run_once.
  destruct (loop_ready a) as [|p rest] eqn:Hq.
  { unfold after; simpl. split; try done. by rewrite Hq. }
  unfold after, bind, status_GET_resumed, bind, modify, gets, ret. simpl.
  assert (p ∈ fut_owner <$> filter resolved (_waiters (state_event a)))
    as Hp by (rewrite <- Hready; set_solver).
  apply list_elem_of_fmap in Hp as (f & -> & Hf).
  apply list_elem_of_filter in Hf as [Hres Hf].
  pose proof (remove_fut_perm _ f (fut_owner f) Hnd Hf eq_refl) as Hperm.
  split; simpl.
  - done.
  - unfold poll_ids in *. simpl.
    eapply sublist_NoDup; [exact Hnd|].
    apply fmap_sublist, remove_fut_sublist.
  - rewrite Hperm in Hready.
    rewrite filter_cons_True in Hready by done. simpl in Hready.
    by apply Permutation_cons_inv in Hready.
  - intros p Hp. apply Hcur. unfold blocked in *.
    apply list_elem_of_fmap in Hp as (g & -> & Hg).
    apply list_elem_of_fmap. exists g. split; [done|].
    apply list_elem_of_filter in Hg as [? Hg]. apply list_elem_of_filter.
    split; [done|]. eapply elem_of_sublist; [exact Hg|].
    apply remove_fut_sublist.
Qed.

(** A freshly created event has no waiter. *)
Lemma wf_fresh_event a :
  state_event a = {| _value := false; _waiters := [] |} →
  loop_ready a = [] → state_event_wf a.
Proof.
  intros Hev Hq. split; rewrite ?Hev, ?Hq; simpl; try done.
  - apply NoDup_nil_2.
  - by intros p ?%elem_of_nil.
Qed.

(** The server as it is constructed has an idle event without waiters. *)
Lemma wf_init o model_root dir pid files was_updated has_snapd :
  state_event_wf (__init__ o model_root dir pid files was_updated has_snapd).
Proof. unfold __init__. by apply wf_update_state, wf_fresh_event. Qed.

Lemma reachable_wf a : reachable a → state_event_wf a.
Proof.
  induction 1 as [| a s _ IH | a p _ IH Hfresh | a _ IH].
  - apply wf_init.
  - by apply wf_update_state.
  - by apply wf_status_GET.
  - by apply wf_loop_run_once.
Qed.

Lemma update_state_effects (a : App) (s : ApplicationState) :
  state_event_wf a →
  state_dir (after (update_state s a)) = state_dir a
  ∧ _state (after (update_state s a)) = s
  ∧ trace (update_state s a)
    = FileWritten (os_path_join (state_dir a) "server-state") (name s)
        :: (Released <$> blocked (state_event a))
  ∧ loop_ready (after (update_state s a))
    = loop_ready a ++ blocked (state_event a)
  ∧ blocked (state_event (after (update_state s a))) = [].
Proof.
  intros [Hidle _ _ _].
  rewrite update_state_unfold, (Event_set_idle _ Hidle).
  unfold after, trace. simpl. split_and!; try done.
  unfold blocked. simpl. by rewrite blocked_mark_done.
Qed.

Lemma update_state_ok s a : result (update_state s a) = Ok tt.
Proof. by rewrite update_state_unfold. Qed.

(** Writes that follow one another before the loop runs: with nobody
    blocked they release nobody, and they leave the last state written. *)
Lemma later_writes (ws : list ApplicationState) (a1 : App) :
  state_event_wf a1 → blocked (state_event a1) = [] →
  let o := for_each ws update_state a1 in
  result o = Ok tt
  ∧ _state (after o) = default (_state a1) (last ws)
  ∧ Forall (λ e, ∀ p, e ≠ Released p) (trace o)
  ∧ loop_ready (after o) = loop_ready a1.
Proof.
  revert a1. induction ws as [|w ws IH]; intros a1 Hwf Hnobody; simpl.
  { by split_and!. }
  destruct (update_state_effects a1 w Hwf)
    as (_ & Hstate & Htrace & Hready & Hblocked).
  pose proof (wf_update_state a1 w Hwf) as Hwf2.
  pose proof (update_state_ok w a1) as Hok.
  rewrite bind_run.
  destruct (update_state w a1) as [[r a2] t].
  unfold result, after, trace in *. simpl in *. subst r.
  destruct (IH a2 Hwf2 Hblocked) as (Hres & Hlast & Hquiet & Hready').
  unfold result, after, trace in *. simpl.
  split_and!.
  - done.
  - rewrite Hlast, Hstate, last_cons. by destruct (last ws).
  - apply Forall_app. split; [|done].
    rewrite Htrace, Hnobody. simpl. apply Forall_singleton. by intros p.
  - rewrite Hready', Hready, Hnobody. apply app_nil_r.
Qed.

(** C1. In a server whose event is idle (which it is between any two
    calls, see [reachable_wf]), [update_state s] stores [s], writes its name
    to the server-state file and only then releases the waiters: the file
    write is the first effect, and it is followed by the release of every
    coroutine blocked in [state_event.wait()], each exactly once, whether
    [s] differs from the state they wait to change or not. Every one of
    them polled with the previous state and is now in the loop's ready
    queue. On resumption it returns the state of that moment: [s] when the
    loop resumes it before another write, which differs from the state it
    polled with exactly when the write changed the state; should more
    writes follow before the loop resumes it, they do not release it again
    and it returns the state of the last of them, which differs from the
    state it polled with exactly when that last state does. The event is
    down again when [update_state] returns, so a [status_GET] that arrives
    afterwards with [cur = s] blocks until the next write. *)
Theorem update_state_wakes_every_waiter (a : App) (s : ApplicationState) :
  state_event_wf a →
  let o := update_state s a in
  let path := os_path_join (state_dir a) "server-state" in
  result o = Ok tt
  ∧ _state (after o) = s
  ∧ fs (after o) !! path = Some (name s)
  ∧ trace o
    = FileWritten path (name s) :: (Released <$> blocked (state_event a))
  ∧ NoDup (blocked (state_event a))
  ∧ loop_ready (after o) = loop_ready a ++ blocked (state_event a)
  ∧ blocked (state_event (after o)) = []
  ∧ (∀ p, p ∈ blocked (state_event a) →
       poll_cur p = Some (_state a)
       ∧ (∃ st, result (status_GET_resumed p (after o)) = Ok st
                ∧ status_state st = s
                ∧ (Some (status_state st) ≠ poll_cur p ↔ s ≠ _state a))
       ∧ ∀ later,
           let o' := for_each later update_state (after o) in
           (Released p ∉ trace o')
           ∧ ∃ st, result (status_GET_resumed p (after o')) = Ok st
                   ∧ status_state st = default s (last later)
                   ∧ (Some (status_state st) ≠ poll_cur p
                      ↔ default s (last later) ≠ _state a))
  ∧ _value (state_event (after o)) = false
  ∧ (∀ q, poll_cur q = Some s →
       let o' := status_GET q (after o) in
       result o' = Ok None
       ∧ trace o' = []
       ∧ blocked (state_event (after o')) = [q]
       ∧ loop_ready (after o') = loop_ready (after o)).
Proof.
  intros Hwf o path. subst o path.
  pose proof Hwf as [Hidle Hnd Hready Hcur].
  pose proof (wf_update_state a s Hwf) as Hwf1.
  destruct (update_state_effects a s Hwf) as (_ & Hs & _ & _ & Hnobody).
  revert Hwf1 Hs Hnobody.
  rewrite update_state_unfold, (Event_set_idle _ Hidle).
  unfold result, after, trace. simpl. intros Hwf1 _ Hnobody.
  split_and!; try done.
  - apply lookup_insert_eq.
  - by apply NoDup_owners.
  - intros p Hp. pose proof (Hcur p Hp) as Hp_cur. split_and!; [done| |].
    { eexists. split_and!; [reflexivity|done|]. simpl. rewrite Hp_cur.
      split; intros Hne; congruence. }
    intros later.
    destruct (later_writes later _ Hwf1 Hnobody) as (_ & Hlast & Hquiet & _).
    split.
    + intros Hin. rewrite Forall_forall in Hquiet.
      by apply (Hquiet _ Hin p).
    + eexists. split; [reflexivity|].
      match goal with
      | |- ?x = _ ∧ _ =>
          assert (x = default s (last later)) as Heq by exact Hlast
      end.
      rewrite Heq, Hp_cur. split; [done|].
      split; intros Hne; congruence.
  - intros q Hq. unfold status_GET. simpl.
    rewrite bool_decide_true by done. simpl.
    split_and!; try done.
    unfold blocked. simpl. rewrite filter_app, blocked_mark_done. done.
Qed.

(** ** The effects of a method, one by one *)

Lemma only_bind {A B} Q (m : M A) (k : A → M B) :
  only Q m → (∀ x, only Q (k x)) → only Q (bind m k).
Proof.
  intros Hm Hk a. specialize (Hm a). rewrite bind_run.
  destruct (m a) as [[[x|e|file argv] a1] t1]; try done.
  rewrite trace_prepend. apply Forall_app. split; [done|apply Hk].
Qed.

Lemma only_silent {A} Q (m : M A) : (∀ a, trace (m a) = []) → only Q m.
Proof. intros Hm a. by rewrite Hm. Qed.

Lemma only_emit Q e : Q e → only Q (emit e).
Proof. intros He a. by apply Forall_singleton. Qed.

Lemma only_foreign {A} Q (f : App → Res A * App) : only Q (foreign f).
Proof. apply only_silent. intros a. unfold foreign. by destruct (f a). Qed.

Lemma only_for_each {A} Q (xs : list A) body :
  (∀ x, only Q (body x)) → only Q (for_each xs body).
Proof.
  intros Hbody. induction xs as [|x xs IH]; simpl; [by intros a|].
  apply only_bind; [apply Hbody|by intros _].
Qed.

Lemma only_if {A} Q (b : bool) (m1 m2 : M A) :
  only Q m1 → only Q m2 → only Q (if b then m1 else m2).
Proof. by destruct b. Qed.

Lemma only_call Q c method f : Q (Called c method) → only Q (call c method f).
Proof.
  intros HQ. apply only_bind; [by apply only_emit|].
  intros _. apply only_foreign.
Qed.

Lemma only_controller_named Q nm : only Q (controller_named nm).
Proof.
  apply only_silent. intros a. unfold controller_named.
  by destruct (filter _ _).
Qed.

Lemma only_read_file Q path : only Q (read_file path).
Proof.
  apply only_silent. intros a. unfold read_file. by destruct (fs a !! path).
Qed.

Lemma only_copy_file_if_exists Q source target :
  Q (FileCopied source target) → only Q (copy_file_if_exists source target).
Proof.
  intros HQ a. unfold copy_file_if_exists.
  destruct (fs a !! source); [|done]. by apply Forall_singleton.
Qed.

Lemma only_update_state Q s :
  (∀ path, Q (FileWritten path (name s))) → (∀ p, Q (Released p)) →
  only Q (update_state s).
Proof.
  intros Hw Hr a. rewrite update_state_unfold. unfold trace. simpl.
  apply Forall_cons. split; [done|]. apply Forall_fmap, Forall_forall.
  intros p _. apply Hr.
Qed.

Lemma only_get_installer_password Q :
  only Q get_installer_password_from_cloudinit_log.
Proof.
  apply only_silent. intros a.
  unfold get_installer_password_from_cloudinit_log. by destruct (fs a !! _).
Qed.

Lemma only_run_chpasswd Q E input :
  Q (Ran ["chpasswd"] input) → only Q (run_chpasswd E input).
Proof.
  intros HQ a. unfold run_chpasswd. destruct (chpasswd E input a).
  by apply Forall_singleton.
Qed.

(** ** Autoinstall source resolution (C2) *)

Lemma first_existing_found files (locations : list (option string)) i loc :
  locations !! i = Some (Some loc) →
  exists_in files loc = true →
  (∀ j other, j < i → locations !! j = Some (Some other) →
              exists_in files other = false) →
  first_existing files locations = Some loc.
Proof.
  revert i. induction locations as [|[l|] rest IH]; intros i Hi Hex Hbefore.
  - by rewrite lookup_nil in Hi.
  - destruct i as [|i]; simpl in *.
    + injection Hi as ->. by rewrite Hex.
    + rewrite (Hbefore 0 l) by (done || lia).
      apply (IH i); [done..|].
      intros j other Hj Hlook. apply (Hbefore (S j) other); [lia|done].
  - destruct i as [|i]; simpl in *; [done|].
    apply (IH i); [done..|].
    intros j other Hj Hlook. apply (Hbefore (S j) other); [lia|done].
Qed.

Lemma first_existing_none files (locations : list (option string)) :
  (∀ i loc, locations !! i = Some (Some loc) → exists_in files loc = false) →
  first_existing files locations = None.
Proof.
  induction locations as [|[l|] rest IH]; intros Hnone; simpl; [done|..].
  - rewrite (Hnone 0 l) by done. apply IH.
    intros i loc. apply (Hnone (S i)).
  - apply IH. intros i loc. apply (Hnone (S i)).
Qed.

Lemma select_autoinstall_unfold a :
  opts_autoinstall (opts a) ≠ Some EmptyString →
  (∀ path, opts_autoinstall (opts a) = Some path →
           exists_in (fs a) path = true) →
  select_autoinstall a =
  match first_existing (fs a) (candidates a) with
  | None => (Ok None, a, [])
  | Some loc =>
      (loc' <- ret loc ;;
       copy_file_if_exists loc' (os_path_join (root a) root_autoinstall_path) ;;
       ret (Some (os_path_join (root a) root_autoinstall_path))) a
  end.
Proof.
  intros Hne Hex.
  unfold candidates, select_autoinstall, bind, gets, os_path_exists,
    base_relative. cbn -[first_existing].
  rewrite bool_decide_false by done.
  destruct (opts_autoinstall (opts a)) as [path|] eqn:Hopt;
    cbn -[first_existing].
  - rewrite (Hex path eq_refl). cbn -[first_existing].
    destruct (first_existing _ _); [|done]. unfold ret. simpl.
    by destruct (copy_file_if_exists _ _ _) as [[[]]].
  - destruct (first_existing _ _); [|done]. unfold ret. simpl.
    by destruct (copy_file_if_exists _ _ _) as [[[]]].
Qed.

(** C2. [select_autoinstall], for any file system and any options:
    with the operator's source given and empty it returns [None] and touches
    nothing, whatever files exist; with a non-empty operator's source that
    does not exist it raises; otherwise the candidates are, in this order,
    the root of the target, the operator's source, the cloud-init location
    and the installation media: when the first existing one is [loc], the
    content of [loc] is copied to the root location and that path is
    returned; when none exists it returns [None]. *)
Theorem select_autoinstall_precedence (a : App) :
  let o := select_autoinstall a in
  let rootpath := os_path_join (root a) root_autoinstall_path in
  (opts_autoinstall (opts a) = Some EmptyString → o = (Ok None, a, []))
  ∧ (∀ path, opts_autoinstall (opts a) = Some path → path ≠ EmptyString →
       exists_in (fs a) path = false →
       o = (Raise (Exception ("Autoinstall argument " +:+ path
                              +:+ " not found")), a, []))
  ∧ (opts_autoinstall (opts a) ≠ Some EmptyString →
     (∀ path, opts_autoinstall (opts a) = Some path →
              exists_in (fs a) path = true) →
     (∀ i loc content,
        candidates a !! i = Some (Some loc) →
        fs a !! loc = Some content →
        (∀ j other, j < i → candidates a !! j = Some (Some other) →
                    exists_in (fs a) other = false) →
        result o = Ok (Some rootpath)
        ∧ fs (after o) = <[rootpath := content]> (fs a)
        ∧ trace o = [FileCopied loc rootpath])
     ∧ ((∀ i loc, candidates a !! i = Some (Some loc) →
                  exists_in (fs a) loc = false) →
        o = (Ok None, a, []))).
Proof.
  intros o rootpath. subst o rootpath. split_and!.
  - intros Hempty. unfold select_autoinstall, bind, gets. simpl.
    by rewrite bool_decide_true.
  - intros path Hopt Hne Hmissing.
    unfold select_autoinstall, bind, gets, os_path_exists, raise. simpl.
    rewrite Hopt, bool_decide_false by congruence. simpl.
    by rewrite Hmissing.
  - intros Hne Hex. rewrite (select_autoinstall_unfold a Hne Hex). split.
    + intros i loc content Hi Hloc Hbefore.
      rewrite (first_existing_found (fs a) (candidates a) i loc Hi); [|..|done].
      * unfold bind, ret, copy_file_if_exists, result, after, trace. simpl.
        by rewrite Hloc.
      * unfold exists_in. rewrite Hloc. by apply bool_decide_true.
    + intros Hnone. by rewrite first_existing_none.
Qed.

(** ** Early commands (C3) *)

Lemma quiet_bind {A B} P (m : M A) (k : A → M B) :
  quiet P m → (∀ x, quiet P (k x)) → quiet P (bind m k).
Proof.
  intros Hm Hk a Ha. destruct (Hm a Ha) as [Hp Ht]. rewrite bind_run.
  destruct (m a) as [[[x|e|file argv] a1] t1]; try done.
  destruct (Hk x a1 Hp) as [Hp' Ht'].
  rewrite after_prepend, trace_prepend. split; [done|].
  by apply Forall_app.
Qed.

Lemma quiet_ret {A} P (x : A) : quiet P (ret x).
Proof. by intros a Ha. Qed.

Lemma quiet_get P : quiet P get.
Proof. by intros a Ha. Qed.

Lemma quiet_gets {A} P (f : App → A) : quiet P (gets f).
Proof. by intros a Ha. Qed.

Lemma quiet_raise {A} P e : quiet P (raise (A:=A) e).
Proof. by intros a Ha. Qed.

Lemma quiet_modify P f : (∀ a, P a → P (f a)) → quiet P (modify f).
Proof. intros Hf a Ha. split; [by apply Hf|done]. Qed.

Lemma quiet_emit P e : ¬ is_run e → quiet P (emit e).
Proof. intros He a Ha. split; [done|]. by apply Forall_singleton. Qed.

Lemma quiet_foreign {A} P (f : App → Res A * App) :
  keeps P f → quiet P (foreign f).
Proof.
  intros Hf a Ha. unfold foreign, after, trace. specialize (Hf a Ha).
  by destruct (f a).
Qed.

Lemma quiet_call P c method f :
  method ≠ "run" → keeps P (f c) → quiet P (call c method f).
Proof.
  intros Hm Hf. apply quiet_bind; [by apply quiet_emit|].
  intros _. by apply quiet_foreign.
Qed.

Lemma quiet_for_each {A} P (xs : list A) body :
  (∀ x, quiet P (body x)) → quiet P (for_each xs body).
Proof.
  intros Hbody. induction xs as [|x xs IH]; simpl; [apply quiet_ret|].
  apply quiet_bind; [apply Hbody|by intros _].
Qed.

Lemma quiet_if {A} P (b : bool) (m1 m2 : M A) :
  quiet P m1 → quiet P m2 → quiet P (if b then m1 else m2).
Proof. by destruct b. Qed.

Lemma quiet_controller_named P nm : quiet P (controller_named nm).
Proof.
  intros a Ha. unfold controller_named. by destruct (filter _ _).
Qed.

(** *** The stamp survives what the server itself does *)

Lemma stamped_insert a path content :
  stamped a → stamped (set_fs (<[path := content]> (fs a)) a).
Proof. unfold stamped, stamp_file. simpl. apply exists_in_insert. Qed.

Lemma quiet_write_file path content : quiet stamped (write_file path content).
Proof.
  intros a Ha. split; [by apply stamped_insert|].
  apply Forall_singleton. by intros [].
Qed.

Lemma quiet_write_text path content : quiet stamped (write_text path content).
Proof.
  intros a Ha. split; [by apply stamped_insert|].
  apply Forall_singleton. by intros [].
Qed.

Lemma quiet_truncate path : quiet stamped (truncate path).
Proof.
  intros a Ha. split; [by apply stamped_insert|].
  apply Forall_singleton. by intros [].
Qed.

Lemma quiet_read_file path : quiet stamped (read_file path).
Proof. intros a Ha. unfold read_file. by destruct (fs a !! path). Qed.

Lemma quiet_copy_file_if_exists source target :
  quiet stamped (copy_file_if_exists source target).
Proof.
  intros a Ha. unfold copy_file_if_exists.
  destruct (fs a !! source); [|done].
  split; [by apply stamped_insert|]. apply Forall_singleton. by intros [].
Qed.

Lemma quiet_update_state s : quiet stamped (update_state s).
Proof.
  intros a Ha. rewrite update_state_unfold. unfold after, trace. simpl.
  split.
  - by apply (stamped_insert (set_state s a)).
  - apply Forall_cons. split; [by intros []|].
    apply Forall_fmap, Forall_true. by intros p [].
Qed.

Ltac quiet_step :=
  match goal with
  | |- quiet _ (bind _ _) => apply quiet_bind; [|intros ?]
  | |- quiet _ (ret _) => apply quiet_ret
  | |- quiet _ get => apply quiet_get
  | |- quiet _ (gets _) => apply quiet_gets
  | |- quiet _ (raise _) => apply quiet_raise
  | |- quiet _ (state_path _) => apply quiet_gets
  | |- quiet _ (base_relative _) => apply quiet_gets
  | |- quiet _ (os_path_exists _) => apply quiet_gets
  | |- quiet _ (modify _) => apply quiet_modify; by intros ? ?
  | |- quiet _ (emit _) => apply quiet_emit; by intros ?
  | |- quiet _ (controller_named _) => apply quiet_controller_named
  | |- quiet _ (write_file _ _) => apply quiet_write_file
  | |- quiet _ (write_text _ _) => apply quiet_write_text
  | |- quiet _ (truncate _) => apply quiet_truncate
  | |- quiet _ (read_file _) => apply quiet_read_file
  | |- quiet _ (copy_file_if_exists _ _) => apply quiet_copy_file_if_exists
  | |- quiet _ (update_state _) => apply quiet_update_state
  | |- quiet _ (when _ _) => apply quiet_if
  | |- quiet _ (if ?b then _ else _) => apply quiet_if
  | |- quiet _ (match ?x with _ => _ end) => destruct x
  | |- quiet _ (for_each _ _) => apply quiet_for_each; intros ?
  end.

Section Quiet.
Variable E : Ext.
Hypothesis HE : ext_keeps E stamped.

Lemma quiet_use_passwd passfile passwd :
  quiet stamped (use_passwd passfile passwd).
Proof. unfold use_passwd. repeat quiet_step. Qed.

Lemma quiet_new_password : quiet stamped (new_password E).
Proof.
  intros a Ha. split; [done|]. apply Forall_singleton. by intros [].
Qed.

Lemma quiet_run_chpasswd input : quiet stamped (run_chpasswd E input).
Proof.
  intros a Ha. unfold run_chpasswd, after, trace.
  pose proof (keeps_chpasswd E stamped HE input a Ha) as Hk.
  destruct (chpasswd E input a). split; [done|].
  apply Forall_singleton. by intros [].
Qed.

Lemma quiet_get_installer_password :
  quiet stamped get_installer_password_from_cloudinit_log.
Proof.
  intros a Ha. unfold get_installer_password_from_cloudinit_log.
  by destruct (fs a !! _).
Qed.

Lemma quiet_set_installer_password :
  quiet stamped (set_installer_password E).
Proof.
  unfold set_installer_password, _user_has_password.
  repeat first
    [ quiet_step | apply quiet_use_passwd | apply quiet_new_password
    | apply quiet_run_chpasswd | apply quiet_get_installer_password ].
Qed.

Lemma quiet_select_autoinstall : quiet stamped select_autoinstall.
Proof. unfold select_autoinstall. repeat quiet_step. Qed.

Lemma quiet_py_get d key default : quiet stamped (py_get d key default).
Proof. unfold py_get. repeat quiet_step. Qed.

Lemma quiet_load_cloud_config : quiet stamped (load_cloud_config E).
Proof.
  unfold load_cloud_config.
  repeat first [quiet_step | apply quiet_py_get].
Qed.

Lemma quiet_wait_for_cloudinit : quiet stamped (wait_for_cloudinit E).
Proof.
  unfold wait_for_cloudinit.
  repeat first [quiet_step | apply quiet_load_cloud_config].
Qed.

Lemma quiet_call_other c method f :
  method ≠ "run" → (∀ c, keeps stamped (f c)) →
  quiet stamped (call c method f).
Proof. intros ? Hf. by apply quiet_call. Qed.

Lemma quiet_load_autoinstall_config only_early :
  quiet stamped (load_autoinstall_config E only_early).
Proof.
  unfold load_autoinstall_config, validate_base_schema.
  repeat first
    [ quiet_step
    | apply quiet_call_other; [done | apply HE] ].
Qed.

Lemma quiet_load_serialized_state : quiet stamped (load_serialized_state E).
Proof.
  unfold load_serialized_state.
  repeat first [quiet_step | apply quiet_call_other; [done | apply HE]].
Qed.

Lemma quiet_apply_autoinstall_config :
  quiet stamped (apply_autoinstall_config E).
Proof.
  unfold apply_autoinstall_config.
  repeat first [quiet_step | apply quiet_call_other; [done | apply HE]].
Qed.

(** With the stamp there, the early-commands block runs nothing. *)
Lemma quiet_run_early_commands : quiet stamped (run_early_commands E).
Proof.
  intros a Ha. unfold run_early_commands. mrun.
  destruct (has_autoinstall_config a); [|done].
  rewrite bind_run. unfold controller_named.
  destruct (filter _ _) as [|early rest]; [done|].
  rewrite prepend_nil. mrun.
  destruct (truthy _); [|done]. mrun.
  unfold stamped, stamp_file in Ha. by rewrite Ha.
Qed.

Lemma quiet_start : quiet stamped (start E).
Proof.
  unfold start, start_api_server.
  repeat first
    [ quiet_step
    | apply quiet_foreign; apply HE
    | apply quiet_wait_for_cloudinit
    | apply quiet_set_installer_password
    | apply quiet_select_autoinstall
    | apply quiet_load_autoinstall_config
    | apply quiet_run_early_commands
    | apply quiet_py_get
    | apply quiet_load_serialized_state
    | apply quiet_apply_autoinstall_config ].
Qed.
End Quiet.

Lemma stamped_reboot pid a : stamped a → stamped (reboot pid a).
Proof.
  unfold reboot, __init__. rewrite update_state_unfold.
  unfold stamped, stamp_file, after. simpl. apply exists_in_insert.
Qed.

Lemma update_state_instances s a :
  instances (after (update_state s a)) = instances a.
Proof. by rewrite update_state_unfold. Qed.

Lemma update_state_state s a : _state (after (update_state s a)) = s.
Proof. by rewrite update_state_unfold. Qed.

Lemma bind_update_state {B} s (k : unit → M B) a :
  bind (update_state s) k a =
  prepend (trace (update_state s a)) (k tt (after (update_state s a))).
Proof. rewrite bind_run. by rewrite update_state_unfold. Qed.

(** What the early-commands block does when it is due to decide. *)
Lemma run_early_commands_run E a early others :
  has_autoinstall_config a = true →
  filter (λ c, ctl_name c = "Early") (instances a) = early :: others →
  truthy (ctl_cmds E early a) = true →
  let before := update_state EARLY_COMMANDS a in
  run_early_commands E a =
  if exists_in (fs a) (stamp_file a) then (Ok tt, a, [])
  else prepend (trace before ++ [Slept 1; Called early "run"])
         (match ctl_run E early (after before) with
          | (Ok _, a2) =>
              (Ok tt, set_fs (<[stamp_file a := EmptyString]> (fs a2)) a2,
               [FileWritten (stamp_file a) EmptyString; Slept 1])
          | (Raise e, a2) => (Raise e, a2, [])
          | (Replaced file argv, a2) => (Replaced file argv, a2, [])
          end).
Proof.
  intros Hcfg Hearly Hcmds before. subst before.
  unfold run_early_commands. mrun. rewrite Hcfg.
  rewrite bind_run. unfold controller_named at 1. rewrite Hearly.
  rewrite prepend_nil. mrun. rewrite Hcmds. mrun.
  fold (stamp_file a). destruct (exists_in _ _); [done|].
  rewrite bind_update_state. mrun. rewrite prepend_prepend.
  rewrite bind_run. unfold controller_named.
  rewrite update_state_instances, Hearly. rewrite prepend_nil.
  unfold call. mrun. rewrite prepend_prepend.
  rewrite <- app_assoc. simpl. f_equal.
  rewrite bind_run. unfold foreign.
  by destruct (ctl_run E early _) as [[[]|e|file argv] a2].
Qed.

Lemma bind_ext {A B} (m : M A) (k k' : A → M B) a :
  (∀ x a1, k x a1 = k' x a1) → bind m k a = bind m k' a.
Proof.
  intros Hk. rewrite !bind_run.
  destruct (m a) as [[[x|e|file argv] a1] t1]; try done. by rewrite Hk.
Qed.

(** [start()] is its first lines, the early-commands block and its last
    lines, one after the other. *)
Lemma start_split E a :
  start E a =
  (start_before_early E ;; run_early_commands E ;; start_after_early E) a.
Proof.
  unfold start, start_before_early, start_after_early.
  repeat (rewrite bind_assoc; apply bind_ext; intros ? ?).
  done.
Qed.

(** The effect is not a call of [run], by its shape. *)
Ltac not_a_run := solve [ by intros ? | intros ?; discriminate ].

Ltac run_free_step :=
  match goal with
  | |- only _ (bind _ _) => apply only_bind; [|intros ?]
  | |- only _ (ret _) => by apply only_silent
  | |- only _ get => by apply only_silent
  | |- only _ (gets _) => by apply only_silent
  | |- only _ (raise _) => by apply only_silent
  | |- only _ (modify _) => by apply only_silent
  | |- only _ (state_path _) => by apply only_silent
  | |- only _ (base_relative _) => by apply only_silent
  | |- only _ (os_path_exists _) => by apply only_silent
  | |- only _ (foreign _) => apply only_foreign
  | |- only _ (controller_named _) => apply only_controller_named
  | |- only _ (read_file _) => apply only_read_file
  | |- only _ get_installer_password_from_cloudinit_log =>
      apply only_get_installer_password
  | |- only _ (emit _) => apply only_emit; not_a_run
  | |- only _ start_api_server => apply only_emit; not_a_run
  | |- only _ (new_password _) =>
      intros ?; apply Forall_singleton; not_a_run
  | |- only _ (write_file _ _) =>
      intros ?; apply Forall_singleton; not_a_run
  | |- only _ (write_text _ _) =>
      intros ?; apply Forall_singleton; not_a_run
  | |- only _ (truncate _) =>
      intros ?; apply Forall_singleton; not_a_run
  | |- only _ (run_chpasswd _ _) => apply only_run_chpasswd; not_a_run
  | |- only _ (copy_file_if_exists _ _) =>
      apply only_copy_file_if_exists; not_a_run
  | |- only _ (update_state _) =>
      apply only_update_state; intros ?; not_a_run
  | |- only _ (call _ _ _) => apply only_call; not_a_run
  | |- only _ (py_get _ _ _) => unfold py_get
  | |- only _ (when _ _) => apply only_if
  | |- only _ (if ?b then _ else _) => apply only_if
  | |- only _ (match ?x with _ => _ end) => destruct x
  | |- only _ (for_each _ _) => apply only_for_each; intros ?
  end.

(** No line of [start()] outside the early-commands block calls a
    controller's [run]. *)
Lemma start_before_early_run_free E :
  only (λ e, ¬ is_run e) (start_before_early E).
Proof.
  unfold start_before_early, wait_for_cloudinit, load_cloud_config,
    set_installer_password, _user_has_password, use_passwd,
    select_autoinstall, load_autoinstall_config, validate_base_schema.
  repeat run_free_step.
Qed.

Lemma start_after_early_run_free E :
  only (λ e, ¬ is_run e) (start_after_early E).
Proof.
  unfold start_after_early, load_autoinstall_config, load_serialized_state,
    apply_autoinstall_config.
  repeat run_free_step.
Qed.

(** C3. [start()] is its first lines, the early-commands block and its
    last lines. With an autoinstall configuration loaded and commands
    declared by the Early controller, the block calls [Early.run] exactly
    when the stamp file is absent. It then first writes the state
    [EARLY_COMMANDS] (the controller runs in that state), and when the
    commands return the stamp file is written right after them; when they
    fail nothing more is done and no stamp is left. With the stamp there the
    block does nothing at all. A run of [start()] whose first lines return
    reaches the block: when the configuration is then loaded and the Early
    controller declares commands, that run calls a controller's [run]
    exactly when the stamp file is absent at that moment, and then once: the
    write of [EARLY_COMMANDS] follows the first lines, [Early.run] follows
    it after the pause, the write of the stamp and the second pause follow
    the commands when they return, and no other [run] is called before or
    after. A run of [start()] that finds the stamp calls no controller's
    [run] and leaves the stamp in place for the next run, provided the
    collaborators themselves do not remove it; so it is for any number of
    restarts in a row. *)
Theorem early_commands_run_once (E : Ext) :
  (∀ a early others,
     has_autoinstall_config a = true →
     filter (λ c, ctl_name c = "Early") (instances a) = early :: others →
     truthy (ctl_cmds E early a) = true →
     let o := run_early_commands E a in
     let before := update_state EARLY_COMMANDS a in
     (stamped a → o = (Ok tt, a, []))
     ∧ (¬ stamped a →
        _state (after before) = EARLY_COMMANDS
        ∧ match ctl_run E early (after before) with
          | (Ok _, a2) =>
              result o = Ok tt
              ∧ after o = set_fs (<[stamp_file a := EmptyString]> (fs a2)) a2
              ∧ trace o = trace before ++
                          [Slept 1; Called early "run";
                           FileWritten (stamp_file a) EmptyString; Slept 1]
          | (Raise e, a2) =>
              o = (Raise e, a2, trace before ++ [Slept 1; Called early "run"])
          | (Replaced file argv, a2) =>
              o = (Replaced file argv, a2,
                   trace before ++ [Slept 1; Called early "run"])
          end)
     ∧ (Exists is_run (trace o) ↔ ¬ stamped a))
  ∧ (∀ a early others,
       let first := start_before_early E a in
       let a1 := after first in
       result first = Ok tt →
       has_autoinstall_config a1 = true →
       filter (λ c, ctl_name c = "Early") (instances a1) = early :: others →
       truthy (ctl_cmds E early a1) = true →
       start E a
       = prepend (trace first)
           ((run_early_commands E ;; start_after_early E) a1)
       ∧ Forall (λ e, ¬ is_run e) (trace first)
       ∧ (Exists is_run (trace (start E a)) ↔ ¬ stamped a1)
       ∧ (¬ stamped a1 →
          ∃ rest,
            trace (start E a)
            = trace first ++ trace (update_state EARLY_COMMANDS a1)
              ++ Slept 1 :: Called early "run" :: rest
            ∧ Forall (λ e, ¬ is_run e) rest
            ∧ (∀ a2,
                 ctl_run E early (after (update_state EARLY_COMMANDS a1))
                 = (Ok tt, a2) →
                 ∃ rest',
                   rest = FileWritten (stamp_file a1) EmptyString
                            :: Slept 1 :: rest')))
  ∧ (∀ a, ext_keeps E stamped → stamped a →
       Forall (λ e, ¬ is_run e) (trace (start E a))
       ∧ stamped (after (start E a)))
  ∧ (∀ pids a, ext_keeps E stamped → stamped a →
       Forall (λ e, ¬ is_run e) (boots E pids a)).
Proof.
  assert (∀ a, Forall (λ e, ¬ is_run e)
                 (trace (update_state EARLY_COMMANDS a))) as Hstate_quiet.
  { intros a. rewrite update_state_unfold. unfold trace. simpl.
    apply Forall_cons. split; [by intros []|].
    apply Forall_fmap, Forall_true. by intros p []. }
  split_and!.
  - intros a early others Hcfg Hearly Hcmds o before.
    pose proof (run_early_commands_run E a early others Hcfg Hearly Hcmds)
      as Ho.
    cbv zeta in Ho. fold before in Ho. fold o in Ho.
    pose proof (Hstate_quiet a) as Hquiet. fold before in Hquiet.
    unfold stamped. split_and!.
    + intros Hst. by rewrite Ho, Hst.
    + intros Hst%not_true_is_false. rewrite Ho, Hst.
      split; [apply update_state_state|].
      destruct (ctl_run E early _) as [[[]|e|file argv] a2];
        unfold prepend, result, after, trace; simpl;
        rewrite <- ?app_assoc; by rewrite ?app_nil_r.
    + rewrite Ho. destruct (exists_in _ _).
      * split; [by intros ?%Exists_nil|done].
      * split; [done|]. intros _. rewrite trace_prepend.
        apply Exists_app. left. apply Exists_app. right.
        apply Exists_cons. right. apply Exists_cons. by left.
  - intros a early others first a1 Hok Hcfg Hearly Hcmds.
    pose proof (start_before_early_run_free E a) as Hfirst.
    fold first in Hfirst.
    assert (start E a
            = prepend (trace first)
                ((run_early_commands E ;; start_after_early E) a1))
      as Hsplit.
    { rewrite start_split, bind_run. subst a1. unfold first in *.
      destruct (start_before_early E a) as [[r a'] t].
      unfold result in Hok. simpl in Hok. by subst r. }
    split; [exact Hsplit|]. split; [exact Hfirst|].
    rewrite Hsplit, trace_prepend, bind_run.
    rewrite (run_early_commands_run E a1 early others Hcfg Hearly Hcmds).
    unfold stamped.
    destruct (exists_in (fs a1) (stamp_file a1)) eqn:Hst.
    + rewrite prepend_nil.
      pose proof (start_after_early_run_free E a1) as Hlast.
      split; [|by intros []].
      split; [|by intros []].
      intros Hrun%Exists_app. exfalso.
      destruct Hrun as [Hrun|Hrun]; apply Exists_exists in Hrun
        as (e & He & Hrun).
      * by apply (proj1 (Forall_forall _ _) Hfirst e He).
      * by apply (proj1 (Forall_forall _ _) Hlast e He).
    + set (before := update_state EARLY_COMMANDS a1).
      set (rest :=
             match ctl_run E early (after before) with
             | (Ok _, a2) =>
                 FileWritten (stamp_file a1) EmptyString :: Slept 1
                   :: trace (start_after_early E
                               (set_fs (<[stamp_file a1 := EmptyString]>
                                          (fs a2)) a2))
             | _ => []
             end).
      assert (Forall (λ e, ¬ is_run e) rest) as Hrest.
      { subst rest. destruct (ctl_run E early _) as [[[]|e|file argv] a2];
          try done.
        apply Forall_cons. split; [by intros ?|].
        apply Forall_cons. split; [by intros ?|].
        apply start_after_early_run_free. }
      match goal with
      | |- context [trace first ++ trace ?o] =>
          assert (trace o
                  = trace before ++ Slept 1 :: Called early "run" :: rest)
            as Htrace
      end.
      { subst rest. destruct (ctl_run E early _) as [[[]|e|file argv] a2];
          unfold prepend, trace; cbn [fst snd];
          rewrite <- ?app_assoc; simpl; by rewrite ?app_nil_r. }
      rewrite Htrace. split.
      * split; [by intros _|]. intros _.
        apply Exists_app. right. apply Exists_app. right.
        apply Exists_cons. right. apply Exists_cons. by left.
      * intros _. exists rest. split_and!; [done|exact Hrest|].
        intros a2 Hran. subst rest. rewrite Hran. eauto.
  - intros a HE Ha. destruct (quiet_start E HE a Ha). done.
  - intros pids a HE. revert a.
    induction pids as [|pid later IH]; intros a Ha; simpl; [done|].
    destruct (quiet_start E HE a Ha) as [Hkept Hquiet].
    apply Forall_app. split; [done|].
    by apply IH, stamped_reboot.
Qed.

(** ** The non-interactive sweep (C4) *)

Lemma apply_autoinstall_config_loop E a :
  apply_autoinstall_config E a = for_each (instances a) (visit E) a.
Proof. unfold apply_autoinstall_config. by rewrite bind_gets. Qed.

Lemma for_each_app {A} (xs ys : list A) body a :
  for_each (xs ++ ys) body a = (for_each xs body ;; for_each ys body) a.
Proof.
  revert a. induction xs as [|x xs IH]; intros a; simpl.
  - by rewrite bind_ret.
  - rewrite bind_assoc, !(bind_run (body x)).
    destruct (body x a) as [[[[]|e|file argv] a1] t1]; try done.
    by rewrite IH.
Qed.

Lemma applied_app t1 t2 : applied (t1 ++ t2) = applied t1 ++ applied t2.
Proof.
  induction t1 as [|[] t1 IH]; simpl; try done.
  case_bool_decide; simpl; by rewrite IH.
Qed.

Lemma visit_run E c a :
  visit E c a =
  if ctl_interactive E c a then (Ok tt, a, [])
  else
    match ctl_apply_autoinstall_config E c a with
    | (Ok _, a1) =>
        ((ctl_configured E c a1).1, (ctl_configured E c a1).2,
         [Called c "apply_autoinstall_config"; Called c "configured"])
    | (Raise e, a1) => (Raise e, a1, [Called c "apply_autoinstall_config"])
    | (Replaced file argv, a1) =>
        (Replaced file argv, a1, [Called c "apply_autoinstall_config"])
    end.
Proof.
  unfold visit. mrun. destruct (ctl_interactive E c a); [done|].
  unfold call. mrun. rewrite bind_run. unfold foreign at 1.
  destruct (ctl_apply_autoinstall_config E c a) as [[[]|e|file argv] a1];
    try done.
  rewrite prepend_nil. mrun. unfold foreign.
  by destruct (ctl_configured E c a1).
Qed.

Lemma applied_visit E c a :
  applied (trace (visit E c a)) = if ctl_interactive E c a then [] else [c].
Proof.
  rewrite visit_run. destruct (ctl_interactive E c a); [done|].
  by destruct (ctl_apply_autoinstall_config E c a) as [[[]|e|file argv] a1].
Qed.

Lemma applied_sublist E cs a :
  applied (trace (for_each cs (visit E) a)) `sublist_of` cs.
Proof.
  revert a. induction cs as [|c cs IH]; intros a; simpl; [done|].
  rewrite bind_run. pose proof (applied_visit E c a) as Hc.
  destruct (visit E c a) as [[[[]|e|file argv] a1] t1]; unfold trace in *;
    simpl in *.
  - rewrite applied_app, Hc.
    destruct (ctl_interactive E c a); simpl.
    + apply sublist_cons, IH.
    + apply sublist_skip, IH.
  - rewrite Hc. destruct (ctl_interactive E c a).
    + apply sublist_nil_l.
    + apply sublist_skip, sublist_nil_l.
  - rewrite Hc. destruct (ctl_interactive E c a).
    + apply sublist_nil_l.
    + apply sublist_skip, sublist_nil_l.
Qed.

(** C4. [apply_autoinstall_config] goes through the controllers in
    registry order: the controllers whose [apply_autoinstall_config] it calls
    are a sublist of [instances]. When the sweep arrives at a controller [c]
    in state [a_c] (the state the visits before it have produced), it asks
    [c.interactive()] in [a_c]: if true it calls nothing on [c] and changes
    nothing; if false it calls [apply_autoinstall_config] and, when that
    returns, [configured] on [c], and nothing else. *)
Theorem apply_autoinstall_config_sweep (E : Ext) (a : App) :
  applied (trace (apply_autoinstall_config E a)) `sublist_of` instances a
  ∧ (∀ earlier c later a_c t,
       instances a = earlier ++ c :: later →
       for_each earlier (visit E) a = (Ok tt, a_c, t) →
       apply_autoinstall_config E a =
         prepend t ((visit E c ;; for_each later (visit E)) a_c)
       ∧ (ctl_interactive E c a_c = true → visit E c a_c = (Ok tt, a_c, []))
       ∧ (ctl_interactive E c a_c = false →
          match ctl_apply_autoinstall_config E c a_c with
          | (Ok _, a1) =>
              visit E c a_c =
              ((ctl_configured E c a1).1, (ctl_configured E c a1).2,
               [Called c "apply_autoinstall_config"; Called c "configured"])
          | (Raise e, a1) =>
              visit E c a_c =
              (Raise e, a1, [Called c "apply_autoinstall_config"])
          | (Replaced file argv, a1) =>
              visit E c a_c =
              (Replaced file argv, a1, [Called c "apply_autoinstall_config"])
          end)).
Proof.
  split.
  - rewrite apply_autoinstall_config_loop. apply applied_sublist.
  - intros earlier c later a_c t Hinst Hearlier.
    rewrite apply_autoinstall_config_loop, Hinst, for_each_app.
    rewrite bind_run, Hearlier. split; [done|].
    rewrite visit_run. split.
    + by intros ->.
    + intros ->.
      by destruct (ctl_apply_autoinstall_config E c a_c)
        as [[[]|e|file argv] a1].
Qed.

(** ** The view gate of the middleware (C5) *)

Lemma middleware_run E request handler a :
  middleware E request handler a =
  match override_status E request handler a with
  | Some status => (Ok (override_response a status), a, [])
  | None => handled E request handler a
  end.
Proof.
  unfold middleware, override_status, handled, annotated, override_response,
    controller_for_request, bind, ret, gets, emit, make_apport_report, prepend.
  simpl.
  destruct (handler_controller handler) as [[c|nm]|]; simpl.
  - case_bool_decide; simpl.
    + destruct (ctl_interactive E c a); simpl; [|done].
      case_bool_decide; simpl.
      * destruct (is_postinstall_only E a (model_name c)); simpl; [done|].
        destruct (handler_call handler request a)
          as [[[resp|e|file argv] a1] t]; simpl; try done.
        by destruct (resp_exception resp).
      * destruct (handler_call handler request a)
          as [[[resp|e|file argv] a1] t]; simpl; try done.
        by destruct (resp_exception resp).
    + destruct (handler_call handler request a)
        as [[[resp|e|file argv] a1] t]; simpl; try done.
      by destruct (resp_exception resp).
  - destruct (handler_call handler request a)
      as [[[resp|e|file argv] a1] t]; simpl; try done.
    by destruct (resp_exception resp).
  - destruct (handler_call handler request a)
      as [[[resp|e|file argv] a1] t]; simpl; try done.
    by destruct (resp_exception resp).
Qed.

(** C5. For a request with [x-make-view-request: yes] whose handler
    belongs to a stage controller [c]: when [c] is not interactive the
    middleware answers with [x-status: skip], when [c] is interactive, the
    state is [NEEDS_CONFIRMATION] and [c]'s model is post-install only it
    answers with [x-status: confirm], and in both cases the handler is not
    called and the application is untouched; in every other case the handler
    is called, first thing, and its response is what the middleware goes on
    with. *)
Theorem middleware_view_gate (E : Ext) (request : Request) (handler : Handler)
    (c : Controller) (a : App) :
  handler_controller handler = Some (StageController c) →
  headers request !! "x-make-view-request" = Some "yes" →
  let o := middleware E request handler a in
  (ctl_interactive E c a = false →
     o = (Ok (override_response a "skip"), a, [])
     ∧ resp_headers (override_response a "skip") !! "x-status" = Some "skip")
  ∧ (ctl_interactive E c a = true → _state a = NEEDS_CONFIRMATION →
     is_postinstall_only E a (model_name c) = true →
     o = (Ok (override_response a "confirm"), a, [])
     ∧ resp_headers (override_response a "confirm") !! "x-status"
       = Some "confirm")
  ∧ (ctl_interactive E c a = true →
     _state a ≠ NEEDS_CONFIRMATION
     ∨ is_postinstall_only E a (model_name c) = false →
     o = handled E request handler a
     ∧ head (trace o) = Some (HandlerInvoked (raw_path request))).
Proof.
  intros Hc Hprobe o. subst o. rewrite middleware_run.
  unfold override_status. rewrite Hc, bool_decide_true by done.
  split_and!.
  - intros ->. simpl. done.
  - intros -> -> ->. simpl. done.
  - intros -> Hother. simpl.
    assert (bool_decide (_state a = NEEDS_CONFIRMATION)
            && is_postinstall_only E a (model_name c) = false) as ->.
    { destruct Hother as [Hs| ->].
      - by rewrite bool_decide_false.
      - apply andb_false_r. }
    split; [done|]. unfold handled.
    by destruct (handler_call handler request a) as [[[resp|e|file argv] a1] t].
Qed.

(** ** Faults in handlers (C6) *)

Lemma middleware_annotates E request handler a resp :
  result (middleware E request handler a) = Ok resp →
  resp_headers resp !! "x-updated" =
    Some (if updated (after (middleware E request handler a))
          then "yes" else "no").
Proof.
  rewrite middleware_run.
  destruct (override_status E request handler a) as [status|].
  - unfold result, after. simpl. intros [= <-]. simpl.
    by rewrite lookup_insert_eq.
  - unfold handled.
    destruct (handler_call handler request a) as [[[r|e|file argv] a1] t];
      try done.
    rewrite result_prepend, after_prepend. unfold annotated.
    destruct (resp_exception r); unfold result, after; simpl;
      intros [= <-]; simpl.
    + rewrite lookup_insert_ne by done. by rewrite lookup_insert_eq.
    + by rewrite lookup_insert_eq.
Qed.

(** A fault of the implementation does not leave a bound handler. *)
Lemma bound_handler_catches controller implementation request a exc a1 t :
  implementation request a = (Raise exc, a1, t) →
  ∃ resp0,
    handler_call (bound_handler controller implementation) request a
    = (Ok resp0, a1, t)
    ∧ resp_exception resp0 = Some exc ∧ resp_status resp0 = 500%Z.
Proof. intros H. simpl. rewrite H. by eexists. Qed.

(** C6. When the handler the middleware calls comes back with a fault
    (a response that carries the exception, which is how a fault of an
    endpoint reaches the middleware), the middleware returns that response
    to the caller, makes exactly one error report for the exception and puts
    the report's reference in the [x-error-report] header. A handler built by
    [bind] turns every fault of its endpoint into such a response. Every
    response the middleware returns, fault or not, has the [x-updated]
    header, [yes] or [no] as the server was updated or not. *)
Theorem middleware_reports_fault (E : Ext) (request : Request) (a : App) :
  (∀ handler resp0 exc a1 t,
     let o := middleware E request handler a in
     handler_call handler request a = (Ok resp0, a1, t) →
     resp_exception resp0 = Some exc →
     HandlerInvoked (raw_path request) ∈ trace o →
     ∃ report,
       result o =
         Ok (set_header "x-error-report" (to_json_ErrorReportRef E report)
               (set_header "x-updated" (if updated a1 then "yes" else "no")
                  resp0))
       ∧ report_exc report = exc
       ∧ report_kind report = SERVER_REQUEST_FAIL
       ∧ report_thing report = "request to " +:+ raw_path request
       ∧ error_reports (after o) = error_reports a1 ++ [report]
       ∧ trace o = HandlerInvoked (raw_path request) :: t ++ [ReportMade report])
  ∧ (∀ controller implementation exc a1 t,
       implementation request a = (Raise exc, a1, t) →
       ∃ resp0,
         handler_call (bound_handler controller implementation) request a
         = (Ok resp0, a1, t)
         ∧ resp_exception resp0 = Some exc ∧ resp_status resp0 = 500%Z)
  ∧ (∀ handler resp,
       let o := middleware E request handler a in
       result o = Ok resp →
       resp_headers resp !! "x-updated"
       = Some (if updated (after o) then "yes" else "no")).
Proof.
  split_and!.
  - intros handler resp0 exc a1 t o Hcall Hexc Hinvoked.
    subst o. revert Hinvoked. rewrite middleware_run.
    destruct (override_status E request handler a) as [status|].
    { by intros ?%elem_of_nil. }
    intros _. unfold handled. rewrite Hcall.
    unfold annotated. rewrite Hexc. eexists.
    unfold result, after, trace, prepend. simpl.
    split_and!; done.
  - intros controller implementation exc a1 t.
    apply bound_handler_catches.
  - intros handler resp o. apply middleware_annotates.
Qed.

(** ** Interactive sections (C7) *)

Lemma is_star_list_true v : is_star_list v = true ↔ v = PList [PStr "*"].
Proof.
  split; [|by intros ->].
  destruct v as [| | | |[|[] []]|]; simpl; try done.
  by intros ->%bool_decide_eq_true.
Qed.

Lemma interactive_keys_filter E a (cs : list Controller) :
  interactive_keys E a cs =
  omap autoinstall_key (filter (λ c, ctl_interactive E c a = true) cs).
Proof.
  induction cs as [|c cs IH]; simpl; [done|].
  destruct (ctl_interactive E c a) eqn:Hc.
  - rewrite filter_cons_True by done. simpl.
    destruct (autoinstall_key c); by rewrite IH.
  - rewrite filter_cons_False by congruence. done.
Qed.

Lemma elem_of_interactive_keys E a (cs : list Controller) key :
  key ∈ interactive_keys E a cs ↔
  ∃ c, c ∈ cs ∧ ctl_interactive E c a = true ∧ autoinstall_key c = Some key.
Proof.
  rewrite interactive_keys_filter, list_elem_of_omap. split.
  - intros (c & [? ?]%list_elem_of_filter & ?). eauto.
  - intros (c & ? & ? & ?). exists c. split; [|done].
    by apply list_elem_of_filter.
Qed.

(** C7. Without a loaded autoinstall configuration the query answers
    [None]. When [interactive-sections] is [["*"]] it answers the autoinstall
    keys of the controllers, in registry order, that report themselves
    interactive in the state the call is made in and have a key; the
    application object is left as it was, nothing is stored: when a keyed
    controller's report turns from false to true between two calls, the
    two answers differ. Any other value of [interactive-sections] is answered
    as it is stored, an absent one as [None]. *)
Theorem interactive_sections_GET_expands (E : Ext) (a : App) :
  let o := interactive_sections_GET E a in
  (autoinstall_config a = None → o = (Ok PNone, a, []))
  ∧ (∀ d, autoinstall_config a = Some (PDict d) →
       (d !! "interactive-sections" = Some (PList [PStr "*"]) →
        o = (Ok (PList (PStr <$> omap autoinstall_key
                          (filter (λ c, ctl_interactive E c a = true)
                             (instances a)))), a, [])
        ∧ ∀ a2 c key,
            autoinstall_config a2 = autoinstall_config a →
            instances a2 = instances a →
            c ∈ instances a → autoinstall_key c = Some key →
            (∀ c', c' ∈ instances a → autoinstall_key c' = Some key → c' = c) →
            ctl_interactive E c a = false → ctl_interactive E c a2 = true →
            result (interactive_sections_GET E a2) ≠ result o)
       ∧ (∀ v, d !! "interactive-sections" = Some v →
               v ≠ PList [PStr "*"] → o = (Ok v, a, []))
       ∧ (d !! "interactive-sections" = None → o = (Ok PNone, a, []))).
Proof.
  intros o. subst o.
  assert (∀ a0 d, autoinstall_config a0 = Some (PDict d) →
            d !! "interactive-sections" = Some (PList [PStr "*"]) →
            interactive_sections_GET E a0 =
            (Ok (PList (PStr <$> interactive_keys E a0 (instances a0))),
             a0, [])) as Hstar.
  { intros a0 d Hcfg Hd. unfold interactive_sections_GET.
    rewrite bind_gets, Hcfg. unfold py_get. rewrite Hd, bind_ret. simpl.
    by rewrite bind_get. }
  split.
  { unfold interactive_sections_GET. rewrite bind_gets. by intros ->. }
  intros d Hcfg. split_and!.
  - intros Hd. rewrite (Hstar a d Hcfg Hd). split.
    { by rewrite interactive_keys_filter. }
    intros a2 c key Hcfg2 Hinst Hc Hkey Honly Hoff Hon.
    rewrite (Hstar a2 d) by congruence.
    unfold result. simpl. intros [= Heq].
    assert (Inj (=) (=) PStr) as HPStr by (by intros ? ? [=]).
    apply (inj (fmap PStr)) in Heq.
    assert (key ∈ interactive_keys E a (instances a)) as Hin.
    { rewrite <- Heq. apply elem_of_interactive_keys.
      exists c. rewrite Hinst. done. }
    apply elem_of_interactive_keys in Hin as (c' & Hc' & Hi' & Hk').
    rewrite (Honly c' Hc' Hk') in Hi'. congruence.
  - intros v Hv Hne. unfold interactive_sections_GET.
    rewrite bind_gets, Hcfg. unfold py_get. rewrite Hv, bind_ret.
    destruct (is_star_list v) eqn:Hs; [|done].
    by apply is_star_list_true in Hs.
  - intros Hd. unfold interactive_sections_GET.
    rewrite bind_gets, Hcfg. unfold py_get. by rewrite Hd, bind_ret.
Qed.

(** ** The installer password stamp (C8) *)

Lemma split_first_colon_verbatim contents n p :
  split_first_colon contents = Some (n, p) → contents = n +:+ ":" +:+ p.
Proof.
  revert n. induction contents as [|c rest IH]; intros n; simpl; [done|].
  case_bool_decide as Hc.
  - intros [= <- <-]. by rewrite Hc.
  - destruct (split_first_colon rest) as [[u q]|]; [|done].
    intros [= <- <-]. simpl. by rewrite (IH u eq_refl).
Qed.

(** What [use_passwd] writes is read back as it was written, for a user
    name without a colon. *)
Lemma split_first_colon_join n p :
  split_first_colon n = None →
  split_first_colon (n +:+ ":" +:+ p) = Some (n, p).
Proof.
  induction n as [|c rest IH]; simpl; [done|].
  case_bool_decide; [done|].
  destruct (split_first_colon rest) as [[]|] eqn:Hrest; [done|].
  intros _. by rewrite IH.
Qed.

(** C8. With the credential stamp file there, [set_installer_password]
    changes no file, generates no password and runs no [chpasswd]. When the
    installer user is known and the stamp has a colon, the text before the
    first colon becomes the user name, the text after it the password, the
    kind becomes [KNOWN], and a second call leaves everything as the first
    one left it. *)
Theorem set_installer_password_stamp (E : Ext) (a : App) (contents : string) :
  fs a !! passfile a = Some contents →
  let o := set_installer_password E a in
  trace o = []
  ∧ fs (after o) = fs a
  ∧ (∀ user n p,
       installer_user_name a = Some user →
       split_first_colon contents = Some (n, p) →
       result o = Ok tt
       ∧ contents = n +:+ ":" +:+ p
       ∧ installer_user_name (after o) = Some n
       ∧ installer_user_passwd (after o) = Some p
       ∧ installer_user_passwd_kind (after o) = KNOWN
       ∧ set_installer_password E (after o) = (Ok tt, after o, [])).
Proof.
  intros Hstamp o. subst o. unfold passfile in Hstamp.
  assert (exists_in (fs a) (os_path_join (state_dir a) "installer-user-passwd")
          = true) as Hex by (apply exists_in_true; eauto).
  unfold set_installer_password. mrun.
  destruct (installer_user_name a) as [user|] eqn:Huser; [|by split_and!].
  mrun. rewrite Hex. rewrite (bind_read_file _ contents) by done. mrun.
  destruct (split_first_colon contents) as [[n p]|] eqn:Hsplit.
  - mrun. unfold modify, result, after, trace. simpl.
    split_and!; try done. intros ? ? ? _ [= <- <-].
    split_and!; try done; [by apply split_first_colon_verbatim|].
    mrun. simpl. rewrite Hex. rewrite (bind_read_file _ contents) by done.
    mrun. rewrite Hsplit. mrun. done.
  - by split_and!.
Qed.

(** ** Restart (C9) *)

(** C9, as amended. A restart request re-executes the server when the
    server has a snapd connection: [snap run subiquity.subiquity-server], or
    in a dry run the Python interpreter with [-m subiquity.cmd.server] and
    the arguments of this run. Without a snapd connection the request
    returns and nothing happens. *)
Theorem restart_POST_needs_snapd (E : Ext) (a : App) :
  (snapd a = true →
     restart_POST E a =
     (Replaced (if dry_run (opts a) then sys_executable E else "snap")
        (restart_cmdline E a), a, []))
  ∧ (snapd a = false → restart_POST E a = (Ok tt, a, [])).
Proof.
  unfold restart_POST, restart, restart_cmdline. rewrite bind_gets.
  split; intros ->; simpl; [|done].
  rewrite bind_gets. unfold os_execvp. by destruct (dry_run (opts a)).
Qed.

(** ** SSH information (C10) *)

(** C10. When a network device has a global address and the installer
    user name is known, [ssh_info_GET] returns a populated
    [LiveSessionSSHInfo], whatever the password kind and the user's key
    fingerprints are; it returns [None] exactly when there is no global
    address or no installer user name. *)
Theorem ssh_info_GET_populated (E : Ext) (a : App) :
  let o := ssh_info_GET E a in
  (∀ user, global_ips E a ≠ [] → installer_user_name a = Some user →
     o = (Ok (Some {| username := user;
                      password_kind := installer_user_passwd_kind a;
                      password := installer_user_passwd a;
                      authorized_key_fingerprints :=
                        KeyFingerprint_of <$> user_key_fingerprints E user;
                      ips := global_ips E a;
                      host_key_fingerprints :=
                        KeyFingerprint_of <$> read_host_key_fingerprints E |}),
          a, []))
  ∧ (result o = Ok None ↔
     global_ips E a = [] ∨ installer_user_name a = None).
Proof.
  intros o. subst o. unfold ssh_info_GET, global_ips. rewrite bind_get.
  destruct (match network E a with
            | Some netdevs => concat netdevs
            | None => []
            end) as [|ip rest].
  { split; [done|]. split; [by left|done]. }
  destruct (installer_user_name a) as [user|].
  - unfold bool_of_function. rewrite andb_false_r. split.
    + by intros ? _ [= <-].
    + split; [done|]. by intros [|].
  - split; [done|]. split; [by right|done].
Qed.

(** ** Runs on the demonstration installation *)

(** A client that polled with [cur = STARTING_UP] right after construction
    is blocked in an idle event. *)
Lemma app_with_waiter_wf : state_event_wf app_with_waiter.
Proof.
  apply wf_status_GET.
  - by apply wf_fresh_event.
  - by intros ?%elem_of_nil.
Defined.

(** The write of [WAITING] releases that client, after the file is
    written. *)
Lemma update_state_wakes_every_waiter_witness :
  state_event_wf app_with_waiter
  ∧ trace (update_state WAITING app_with_waiter)
    = [FileWritten "/run/subiquity/server-state" "WAITING"; Released demo_poll]
  ∧ loop_ready (after (update_state WAITING app_with_waiter)) = [demo_poll].
Proof.
  split; [exact app_with_waiter_wf|].
  destruct (update_state_wakes_every_waiter app_with_waiter WAITING
              app_with_waiter_wf) as (_ & _ & _ & Htrace & _ & Hready & _).
  split; [exact Htrace | exact Hready].
Defined.

(** C1: the client waits for a change away from [STARTING_UP]. A write of
    [STARTING_UP] itself releases it, and so does a change to
    [CLOUD_INIT_WAIT] that is undone before the loop runs; both times the
    loop then answers it with [STARTING_UP], the state it polled with. *)
Lemma waiter_answered_with_its_cur :
  blocked (state_event app_with_waiter) = [demo_poll]
  ∧ poll_cur demo_poll = Some STARTING_UP
  ∧ (let o := update_state STARTING_UP app_with_waiter in
     trace o
     = [FileWritten "/run/subiquity/server-state" "STARTING_UP";
        Released demo_poll]
     ∧ result (loop_run_once (after o))
       = Ok (Some (demo_poll, current_status (after o)))
     ∧ Some (status_state (current_status (after o))) = poll_cur demo_poll)
  ∧ (let o := for_each [CLOUD_INIT_WAIT; STARTING_UP] update_state
                app_with_waiter in
     trace o
     = [FileWritten "/run/subiquity/server-state" "CLOUD_INIT_WAIT";
        Released demo_poll;
        FileWritten "/run/subiquity/server-state" "STARTING_UP"]
     ∧ result (loop_run_once (after o))
       = Ok (Some (demo_poll, current_status (after o)))
     ∧ Some (status_state (current_status (after o))) = poll_cur demo_poll).
Proof. repeat split; vm_compute; reflexivity. Qed.

(** With files from cloud-init and on the media, and neither a root file
    nor an operator's source, the cloud-init one wins and is copied. *)
Lemma select_autoinstall_precedence_witness :
  result (select_autoinstall app_two_sources) = Ok (Some "/autoinstall.yaml")
  ∧ fs (after (select_autoinstall app_two_sources))
    = <["/autoinstall.yaml" := "version: 1 # cloud"]> (fs app_two_sources)
  ∧ trace (select_autoinstall app_two_sources)
    = [FileCopied "/run/subiquity/cloud.autoinstall.yaml" "/autoinstall.yaml"].
Proof.
  destruct (select_autoinstall_precedence app_two_sources)
    as (_ & _ & Hpick).
  destruct Hpick as [Hfound _]; [done | done |].
  apply (Hfound 2 "/run/subiquity/cloud.autoinstall.yaml"
           "version: 1 # cloud"); [reflexivity | reflexivity |].
  intros [|[|j]] other Hj Hother; [| |lia].
  - injection Hother as <-. reflexivity.
  - discriminate Hother.
Defined.

(** The demonstration collaborators only touch the controllers. *)
Lemma demo_ext_keeps (P : App → Prop) :
  (∀ a v, P a → P (set_ctl_store v a)) →
  (∀ a v, P a → P (set_instances v a)) →
  ext_keeps demo_ext P.
Proof.
  intros Hstore Hinst. split; try (by intros c a Ha); try (by intros a Ha).
  - intros c a Ha. simpl. case_bool_decide; [by apply Hstore|done].
  - intros c a Ha. simpl. case_bool_decide; [|done].
    destruct (autoinstall_config a) as [[]|]; try done. by apply Hstore.
  - intros a Ha. by apply Hinst.
Defined.

(** On the first boot [start()] comes to the early-commands block with the
    autoinstall file of the media loaded and no stamp: the commands run
    once, in the state [EARLY_COMMANDS], and the stamp is written after
    them. The boots that follow find the stamp, run to their end and run no
    command. *)
Lemma early_commands_run_once_witness :
  let booted := reboot "4243" (after (start demo_ext app_first_boot)) in
  result (start demo_ext app_first_boot) = Ok tt
  ∧ Exists is_run (trace (start demo_ext app_first_boot))
  ∧ (∃ rest,
       trace (start demo_ext app_first_boot)
       = trace (start_before_early demo_ext app_first_boot)
         ++ [FileWritten "/run/subiquity/server-state" "EARLY_COMMANDS";
             Slept 1; Called Early "run";
             FileWritten "/run/subiquity/early-commands" EmptyString;
             Slept 1] ++ rest
       ∧ Forall (λ e, ¬ is_run e) rest)
  ∧ stamped booted
  ∧ result (start demo_ext booted) = Ok tt
  ∧ Forall (λ e, ¬ is_run e) (trace (start demo_ext booted))
  ∧ Forall (λ e, ¬ is_run e) (boots demo_ext ["4244"; "4245"] booted)
  ∧ Exists is_run (trace (run_early_commands demo_ext app_early))
  ∧ run_early_commands demo_ext app_early_stamped
    = (Ok tt, app_early_stamped, []).
Proof.
  destruct (early_commands_run_once demo_ext)
    as (Hgate & Hreach & Hstart & Hboots).
  destruct (Hreach app_first_boot Early [] eq_refl eq_refl eq_refl eq_refl)
    as (_ & _ & Hiff & Honce).
  assert (¬ stamped (after (start_before_early demo_ext app_first_boot)))
    as Habsent by (unfold stamped; vm_compute; discriminate).
  split_and!.
  - vm_compute. reflexivity.
  - apply Hiff, Habsent.
  - destruct (Honce Habsent) as (rest & Htrace & Hrest & Hstamp).
    destruct (Hstamp _ eq_refl) as (rest' & ->).
    exists rest'. split.
    + rewrite Htrace. reflexivity.
    + apply Forall_cons in Hrest as [_ Hrest].
      apply Forall_cons in Hrest as [_ Hrest]. exact Hrest.
  - vm_compute. reflexivity.
  - vm_compute. reflexivity.
  - apply Hstart; [|vm_compute; reflexivity].
    apply demo_ext_keeps; intros; assumption.
  - apply Hboots; [|vm_compute; reflexivity].
    apply demo_ext_keeps; intros; assumption.
  - destruct (Hgate app_early Early [] eq_refl eq_refl eq_refl)
      as (_ & _ & Hblock).
    apply Hblock. unfold stamped. vm_compute. discriminate.
  - destruct (Hgate app_early_stamped Early [] eq_refl eq_refl eq_refl)
      as (Hskip & _ & _).
    apply Hskip. reflexivity.
Defined.

(** The identity stage is not interactive when the sweep starts, becomes
    interactive when the network stage is applied, and is skipped. *)
Lemma apply_autoinstall_config_sweep_witness :
  ctl_interactive demo_ext Identity demo_app = false
  ∧ applied (trace (apply_autoinstall_config demo_ext demo_app))
    = [Early; Reporting; Error; Network; Install].
Proof.
  split; [reflexivity|].
  destruct (apply_autoinstall_config_sweep demo_ext demo_app) as [_ Hvisit].
  destruct (Hvisit [Early; Reporting; Error; Network] Identity [Install]
              (set_ctl_store {[ "Identity" := PBool true ]} demo_app)
              (flat_map (λ c, [Called c "apply_autoinstall_config";
                               Called c "configured"])
                 [Early; Reporting; Error; Network])
              eq_refl eq_refl) as (Hsweep & Hskip & _).
  rewrite Hsweep, bind_run, (Hskip eq_refl). reflexivity.
Defined.

(** A view request for the identity stage: skipped while the stage is not
    interactive, held back for confirmation once it is. *)
Lemma middleware_view_gate_witness :
  middleware demo_ext view_request identity_GET demo_app
  = (Ok (override_response demo_app "skip"), demo_app, [])
  ∧ middleware demo_ext view_request identity_GET app_confirming
    = (Ok (override_response app_confirming "confirm"), app_confirming, []).
Proof.
  split.
  - apply (middleware_view_gate demo_ext view_request identity_GET Identity
             demo_app eq_refl eq_refl). reflexivity.
  - apply (middleware_view_gate demo_ext view_request identity_GET Identity
             app_confirming eq_refl eq_refl); reflexivity.
Defined.

(** An endpoint raises [ValueError]: the caller gets the handler's
    response with the two headers added, and one report is kept. *)
Lemma middleware_reports_fault_witness :
  ∃ report,
    resp_headers <$> result_value
      (result (middleware demo_ext view_request failing_GET demo_app))
    = Some {[ "x-status" := "error"; "x-updated" := "no";
              "x-error-report" := "{}" ]}
    ∧ error_reports (after (middleware demo_ext view_request failing_GET
                              demo_app)) = [report]
    ∧ report_exc report = ValueError "unrecognized client variant".
Proof.
  destruct (middleware_reports_fault demo_ext view_request demo_app)
    as (Hfault & _ & _).
  destruct (Hfault failing_GET
              {| resp_status := 500;
                 resp_headers := {[ "x-status" := "error" ]};
                 resp_text := EmptyString;
                 resp_exception :=
                   Some (ValueError "unrecognized client variant") |}
              (ValueError "unrecognized client variant") demo_app []
              eq_refl eq_refl)
    as (report & Hres & Hexc & _ & _ & Hreports & _).
  { vm_compute. apply list_elem_of_here. }
  exists report. split_and!; [|exact Hreports|exact Hexc].
  rewrite Hres. reflexivity.
Defined.

(** Of the two interactive stages only the network stage has a key; once
    the identity stage reports itself interactive the answer is another. *)
Lemma interactive_sections_GET_expands_witness :
  interactive_sections_GET demo_ext app_wildcard
  = (Ok (PList [PStr "network"]), app_wildcard, [])
  ∧ result (interactive_sections_GET demo_ext
              (set_ctl_store {[ "Network" := PBool true;
                                "Identity" := PBool true ]} app_wildcard))
    ≠ Ok (PList [PStr "network"]).
Proof.
  destruct (interactive_sections_GET_expands demo_ext app_wildcard)
    as [_ Hconfig].
  destruct (Hconfig _ eq_refl) as (Hstar & _ & _).
  destruct (Hstar eq_refl) as [Hresult Hfresh].
  split; [rewrite Hresult; reflexivity|].
  intros Hsame.
  apply (Hfresh (set_ctl_store {[ "Network" := PBool true;
                                  "Identity" := PBool true ]} app_wildcard)
           Identity "identity"); try reflexivity.
  - apply list_elem_of_In. vm_compute. tauto.
  - intros c' Hc' Hkey. apply list_elem_of_In in Hc'. vm_compute in Hc'.
    destruct Hc' as [<-|[<-|[<-|[<-|[<-|[<-|[]]]]]]]; (done || discriminate).
  - rewrite Hresult. exact Hsame.
Defined.

(** The stamp wins over the name cloud-init gave, and the password may
    itself contain colons. *)
Lemma set_installer_password_stamp_witness :
  installer_user_name
    (after (set_installer_password demo_ext app_stamped_password))
  = Some "installer"
  ∧ installer_user_passwd
      (after (set_installer_password demo_ext app_stamped_password))
    = Some "s3cret:with:colons"
  ∧ trace (set_installer_password demo_ext app_stamped_password) = [].
Proof.
  destruct (set_installer_password_stamp demo_ext app_stamped_password
              "installer:s3cret:with:colons" eq_refl) as (Htrace & _ & Hload).
  destruct (Hload "ubuntu-server" "installer" "s3cret:with:colons"
              eq_refl eq_refl) as (_ & _ & Hname & Hpass & _).
  split_and!; [exact Hname | exact Hpass | exact Htrace].
Defined.

(** C9: without snapd, a restart request returns and the process goes on. *)
Lemma restart_POST_without_snapd :
  restart_POST demo_ext demo_app = (Ok tt, demo_app, [])
  ∧ ¬ ∃ file argv, result (restart_POST demo_ext demo_app) = Replaced file argv.
Proof.
  split; [reflexivity|]. intros (file & argv & H). discriminate H.
Qed.

(** With snapd the server is re-executed through [snap run]. *)
Lemma restart_POST_needs_snapd_witness :
  restart_POST demo_ext app_with_snapd
  = (Replaced "snap" ["snap"; "run"; "subiquity.subiquity-server"],
     app_with_snapd, []).
Proof.
  destruct (restart_POST_needs_snapd demo_ext app_with_snapd) as [Hexec _].
  exact (Hexec eq_refl).
Defined.

(** No password, no keys, one global address: the information is given. *)
Lemma ssh_info_GET_populated_witness :
  installer_user_passwd_kind app_no_credentials = NONE
  ∧ user_key_fingerprints demo_ext "installer" = []
  ∧ ∃ info, result (ssh_info_GET demo_ext app_no_credentials) = Ok (Some info)
            ∧ ips info = ["10.0.0.2"].
Proof.
  split; [reflexivity|]. split; [reflexivity|].
  destruct (ssh_info_GET_populated demo_ext app_no_credentials) as [Hinfo _].
  eexists. rewrite (Hinfo "installer"); [|discriminate|reflexivity].
  split; reflexivity.
Defined.

(** The first boot of a machine with an autoinstall file on the media: the
    installer user gets a password, the file is copied to the root, the
    early commands run once, every stage is set up, and the sweep applies
    every stage but the one that has become interactive. *)
Example first_boot :
  trace (start demo_ext app_first_boot)
  = [ApiServerStarted;
     FileWritten "/run/subiquity/server-state" "CLOUD_INIT_WAIT";
     Ran ["cloud-init"; "status"; "--wait"] EmptyString;
     PasswordGenerated;
     Ran ["chpasswd"]
       ("ubuntu-server:hunter2hunter2hunter2" +:+ String newline EmptyString);
     FileWritten "/run/subiquity/installer-user-passwd"
       "ubuntu-server:hunter2hunter2hunter2";
     FileCopied "/cdrom/autoinstall.yaml" "/autoinstall.yaml";
     Called Reporting "setup_autoinstall"; Called Reporting "start";
     Called Error "setup_autoinstall"; Called Early "setup_autoinstall";
     FileWritten "/run/subiquity/server-state" "EARLY_COMMANDS";
     Slept 1; Called Early "run";
     FileWritten "/run/subiquity/early-commands" EmptyString; Slept 1]
    ++ ((λ c, Called c "setup_autoinstall") <$> demo_controllers)
    ++ [FileWritten "/run/casper-no-prompt" EmptyString]
    ++ ((λ c, Called c "load_state") <$> demo_controllers)
    ++ [FileWritten "/run/subiquity/server-state" "WAITING"; SuperStarted]
    ++ flat_map (λ c, [Called c "apply_autoinstall_config";
                       Called c "configured"])
         [Early; Reporting; Error; Network; Install].
Proof. vm_compute. reflexivity. Qed.

(** The boot after it: the password comes from its stamp, the autoinstall
    file is found at the root, and the early commands are not run. *)
Example second_boot :
  let booted := reboot "4243" (after (start demo_ext app_first_boot)) in
  trace (start demo_ext booted)
  = [ApiServerStarted;
     FileWritten "/run/subiquity/server-state" "CLOUD_INIT_WAIT";
     Ran ["cloud-init"; "status"; "--wait"] EmptyString;
     FileCopied "/autoinstall.yaml" "/autoinstall.yaml";
     Called Reporting "setup_autoinstall"; Called Reporting "start";
     Called Error "setup_autoinstall"; Called Early "setup_autoinstall"]
    ++ ((λ c, Called c "setup_autoinstall") <$> demo_controllers)
    ++ [FileWritten "/run/casper-no-prompt" EmptyString]
    ++ ((λ c, Called c "load_state") <$> demo_controllers)
    ++ [FileWritten "/run/subiquity/server-state" "WAITING"; SuperStarted]
    ++ flat_map (λ c, [Called c "apply_autoinstall_config";
                       Called c "configured"])
         [Early; Reporting; Error; Network; Install]
  ∧ installer_user_passwd (after (start demo_ext booted))
    = Some "hunter2hunter2hunter2".
Proof. vm_compute. split; reflexivity. Qed.

Example os_path_join_examples :
  os_path_join "/" "autoinstall.yaml" = "/autoinstall.yaml"
  ∧ os_path_join "/run/subiquity" "server-state"
    = "/run/subiquity/server-state"
  ∧ os_path_join "/tmp/out/" "cdrom/autoinstall.yaml"
    = "/tmp/out/cdrom/autoinstall.yaml"
  ∧ os_path_join "/tmp/out" "/etc/shadow" = "/etc/shadow"
  ∧ os_path_join EmptyString "autoinstall.yaml" = "autoinstall.yaml".
Proof. repeat split; reflexivity. Qed.

(** The password cloud-init logged is found and stripped. *)
Example password_from_cloudinit_log :
  let files : gmap string string :=
    {[ "/var/log/cloud-init-output.log" :=
         "Cloud-init v. 23.3" +:+ String newline
           ("installer:  Xk3-pW9q " +:+ String newline "ci-info: done") ]} in
  result (get_installer_password_from_cloudinit_log (set_fs files demo_app))
  = Ok (Some "Xk3-pW9q").
Proof. vm_compute. reflexivity. Qed.

(** * More properties *)

(** ** More on the state event *)

(** X1. Between two calls, [status_GET] suspends exactly when [cur] is the
    current state. When it suspends it queues one future for its coroutine
    and changes nothing else; when it does not, it answers with the current
    status and leaves the server as it was. *)
Theorem status_GET_blocks_iff (a : App) (p : StatusPoll) :
  state_event_wf a →
  let o := status_GET p a in
  trace o = []
  ∧ (poll_cur p = Some (_state a) →
     result o = Ok None
     ∧ after o
       = set_state_event
           {| _value := false;
              _waiters := _waiters (state_event a)
                          ++ [{| fut_owner := p; fut_done := false |}] |} a)
  ∧ (poll_cur p ≠ Some (_state a) →
     result o = Ok (Some (current_status a)) ∧ after o = a)
  ∧ (result o = Ok None ↔ poll_cur p = Some (_state a)).
Proof.
  intros [Hidle _ _ _] o. subst o. unfold status_GET, Event_wait.
  rewrite Hidle. case_bool_decide as Hcur; unfold result, after, trace; simpl.
  - by split_and!; try rewrite Hidle.
  - split_and!; done.
Qed.

Lemma loop_run_once_head a p rest :
  loop_ready a = p :: rest →
  loop_run_once a =
  (Ok (Some (p, current_status a)),
   set_state_event (Event_wait_finally p (state_event a))
     (set_loop_ready rest a), []).
Proof.
  intros Hq. unfold loop_run_once. rewrite Hq.
  unfold status_GET_resumed. by rewrite bind_assoc, bind_modify, bind_gets.
Qed.

Lemma remove_resolved_keeps_pending (l : list Fut) f p :
  NoDup ((λ f, poll_id (fut_owner f)) <$> l) →
  f ∈ l → poll_id (fut_owner f) = poll_id p → resolved f →
  filter pending (remove_fut p l) = filter pending l.
Proof.
  induction l as [|g l IH]; intros Hnd Hin Hid Hres; simpl; [done|].
  simpl in Hnd. apply NoDup_cons in Hnd as [Hg Hnd].
  apply elem_of_cons in Hin as [<-|Hin].
  - rewrite bool_decide_true by done.
    rewrite filter_cons_False; [done|].
    unfold pending, resolved in *. congruence.
  - case_bool_decide as Hgp.
    + exfalso. apply Hg. rewrite Hgp, <- Hid.
      by apply (list_elem_of_fmap_2 (λ f, poll_id (fut_owner f))).
    + rewrite !filter_cons. by rewrite (IH Hnd Hin Hid Hres).
Qed.

Lemma loop_run_once_blocked a :
  state_event_wf a →
  blocked (state_event (after (loop_run_once a))) = blocked (state_event a).
Proof.
  intros [Hidle Hnd Hready Hcur].
  destruct (loop_ready a) as [|p rest] eqn:Hq.
  { unfold loop_run_once. by rewrite Hq. }
  rewrite (loop_run_once_head a p rest Hq). unfold after, blocked. simpl.
  assert (p ∈ fut_owner <$> filter resolved (_waiters (state_event a)))
    as Hp by (rewrite <- Hready; set_solver).
  apply list_elem_of_fmap in Hp as (f & -> & Hf).
  apply list_elem_of_filter in Hf as [Hres Hf].
  by rewrite (remove_resolved_keeps_pending _ f (fut_owner f)).
Qed.

(** X2. The loop answers the released waiters in the order they were
    released. When no state is written in between, each of them gets the
    status of the moment, the ready queue ends empty, no resolved future
    stays behind in the event, and the coroutines that were still blocked
    are blocked as before. *)
Theorem loop_run_answers_in_order (a : App) :
  state_event_wf a →
  let o := loop_run (length (loop_ready a)) a in
  result o = Ok ((λ p, (p, current_status a)) <$> loop_ready a)
  ∧ trace o = []
  ∧ loop_ready (after o) = []
  ∧ current_status (after o) = current_status a
  ∧ blocked (state_event (after o)) = blocked (state_event a)
  ∧ filter resolved (_waiters (state_event (after o))) = []
  ∧ state_event_wf (after o).
Proof.
  remember (length (loop_ready a)) as n eqn:Hn. revert a Hn.
  induction n as [|n IH]; intros a Hn Hwf; simpl.
  - destruct (loop_ready a) eqn:Hq; [|done].
    unfold result, after, trace. simpl. split_and!; try done.
    destruct Hwf as [_ _ Hready _]. rewrite Hq in Hready.
    symmetry in Hready. apply Permutation_nil_r in Hready.
    by apply fmap_nil_inv in Hready.
  - destruct (loop_ready a) as [|p rest] eqn:Hq; [done|].
    pose proof (wf_loop_run_once a Hwf) as Hwf1.
    pose proof (loop_run_once_blocked a Hwf) as Hblocked.
    rewrite bind_run. rewrite (loop_run_once_head a p rest Hq) in *.
    unfold after in Hwf1, Hblocked. simpl in Hwf1, Hblocked.
    rewrite prepend_nil.
    set (a1 := set_state_event _ _) in *.
    assert (n = length (loop_ready a1)) as Hn1 by (simpl in *; lia).
    destruct (IH a1 Hn1 Hwf1) as (Hres & Htr & Hrq & Hst & Hbl & Hnone & Hwf2).
    rewrite bind_run.
    destruct (loop_run n a1) as [[r a2] t].
    unfold result, after, trace in *. simpl in *. subst r t.
    simpl. split_and!; try done.
    by rewrite Hbl.
Qed.

(** ** More on the autoinstall source *)

Lemma first_existing_exists files (locations : list (option string)) loc :
  first_existing files locations = Some loc →
  Some loc ∈ locations ∧ is_Some (files !! loc).
Proof.
  induction locations as [|[l|] rest IH]; simpl; [done|..].
  - destruct (exists_in files l) eqn:Hl.
    + intros [= <-]. split; [apply list_elem_of_here|].
      by apply exists_in_true.
    + intros [? ?]%IH. split; [by apply list_elem_of_further|done].
  - intros [? ?]%IH. split; [by apply list_elem_of_further|done].
Qed.

(** The three ways [select_autoinstall] can end. *)
Lemma select_autoinstall_cases a :
  let rootpath := os_path_join (root a) root_autoinstall_path in
  (∃ msg, select_autoinstall a = (Raise (Exception msg), a, [])
          ∧ ∃ path, opts_autoinstall (opts a) = Some path
                    ∧ exists_in (fs a) path = false)
  ∨ select_autoinstall a = (Ok None, a, [])
  ∨ ∃ loc content,
      fs a !! loc = Some content
      ∧ Some loc ∈ candidates a
      ∧ (∀ path, opts_autoinstall (opts a) = Some path →
                 exists_in (fs a) path = true)
      ∧ select_autoinstall a =
        (Ok (Some rootpath), set_fs (<[rootpath := content]> (fs a)) a,
         [FileCopied loc rootpath]).
Proof.
  intros rootpath.
  destruct (decide (opts_autoinstall (opts a) = Some EmptyString)) as [He|Hne].
  { right. left. unfold select_autoinstall. rewrite bind_gets.
    by rewrite bool_decide_true. }
  destruct (opts_autoinstall (opts a)) as [path|] eqn:Hopt.
  - destruct (exists_in (fs a) path) eqn:Hex.
    + assert (∀ q, Some path = Some q → exists_in (fs a) q = true) as Hall
        by (by intros q [= <-]).
      pose proof (select_autoinstall_unfold a) as Hrun.
      rewrite Hopt in Hrun. specialize (Hrun Hne Hall).
      destruct (first_existing (fs a) (candidates a)) as [loc|] eqn:Hfirst.
      * right. right. apply first_existing_exists in Hfirst as [Hin [c Hc]].
        exists loc, c. split_and!; try done.
        rewrite Hrun, bind_ret. unfold copy_file_if_exists.
        rewrite bind_run. by rewrite Hc.
      * right. by left.
    + left. eexists. split; [|by eauto].
      unfold select_autoinstall. rewrite bind_gets, Hopt.
      rewrite bool_decide_false by done. rewrite bind_os_path_exists, Hex.
      reflexivity.
  - assert (∀ q, @None string = Some q → exists_in (fs a) q = true) as Hall
      by done.
    pose proof (select_autoinstall_unfold a) as Hrun.
    rewrite Hopt in Hrun. specialize (Hrun Hne Hall).
    destruct (first_existing (fs a) (candidates a)) as [loc|] eqn:Hfirst.
    + right. right. apply first_existing_exists in Hfirst as [Hin [c Hc]].
      exists loc, c. split_and!; try done.
      rewrite Hrun, bind_ret. unfold copy_file_if_exists.
      rewrite bind_run. by rewrite Hc.
    + right. by left.
Qed.

(** X3. Selecting a second time changes nothing more: once
    [select_autoinstall] has returned the root path, a further call, made
    at once or by the server of a later boot over the same files and
    options, returns the same path and leaves every file as it is. *)
Theorem select_autoinstall_again (a : App) (path : string) :
  result (select_autoinstall a) = Ok (Some path) →
  ∀ a2, opts a2 = opts a → root a2 = root a →
        fs a2 = fs (after (select_autoinstall a)) →
        result (select_autoinstall a2) = Ok (Some path)
        ∧ fs (after (select_autoinstall a2)) = fs a2
        ∧ trace (select_autoinstall a2) = [FileCopied path path].
Proof.
  intros Hfirst a2 Hopts Hroot Hfs.
  destruct (select_autoinstall_cases a)
    as [(msg & Hrun & _)|[Hrun|(loc & content & Hloc & Hin & Hop & Hrun)]];
    rewrite Hrun in Hfirst, Hfs; try done.
  unfold result, after in Hfirst, Hfs. simpl in Hfirst, Hfs.
  injection Hfirst as <-.
  set (rootpath := os_path_join (root a) root_autoinstall_path) in *.
  assert (fs a2 !! rootpath = Some content) as Hroot2
    by (rewrite Hfs; apply lookup_insert_eq).
  assert (opts_autoinstall (opts a2) ≠ Some EmptyString) as Hne.
  { rewrite Hopts. intros He. revert Hrun. unfold select_autoinstall.
    rewrite bind_gets, bool_decide_true by done. done. }
  assert (∀ q, opts_autoinstall (opts a2) = Some q →
               exists_in (fs a2) q = true) as Hall.
  { intros q Hq. rewrite Hfs. apply exists_in_insert, Hop. by rewrite <- Hopts. }
  rewrite (select_autoinstall_unfold a2 Hne Hall).
  assert (first_existing (fs a2) (candidates a2) = Some rootpath) as ->.
  { apply (first_existing_found _ _ 0).
    - unfold candidates. by rewrite Hroot.
    - apply exists_in_true. eauto.
    - intros j other Hj. lia. }
  rewrite bind_ret, bind_run. unfold copy_file_if_exists.
  rewrite Hroot. fold rootpath. rewrite Hroot2.
  unfold result, after, trace, prepend. simpl. split_and!; try done.
  by apply insert_id.
Qed.

(** X4. [select_autoinstall] writes at most one file, the one at the root
    path: every other file, the source it copies from included, is as
    before, and so is every attribute of the server. *)
Theorem select_autoinstall_touches_root_only (a : App) :
  let o := select_autoinstall a in
  let rootpath := os_path_join (root a) root_autoinstall_path in
  after o = set_fs (fs (after o)) a
  ∧ (∀ path, path ≠ rootpath → fs (after o) !! path = fs a !! path)
  ∧ (∀ path, is_Some (fs a !! path) → is_Some (fs (after o) !! path))
  ∧ (result o = Ok None ∨ (∃ e, result o = Raise e) → after o = a).
Proof.
  intros o rootpath. subst o.
  assert (set_fs (fs a) a = a) as Hid by (by destruct a).
  destruct (select_autoinstall_cases a)
    as [(msg & Hrun & _)|[Hrun|(loc & content & Hloc & Hin & Hop & Hrun)]];
    rewrite Hrun; unfold result, after; simpl.
  - split_and!; done.
  - split_and!; done.
  - fold rootpath. split_and!.
    + done.
    + intros path Hne. by rewrite lookup_insert_ne.
    + intros path Hsome. apply exists_in_true.
      by apply exists_in_insert, exists_in_true.
    + by intros [[=]|[e [=]]].
Qed.

(** ** More on the installer password *)

Lemma use_passwd_run pf pw a n :
  installer_user_name a = Some n →
  use_passwd pf pw a =
  (Ok tt,
   set_fs (<[pf := n +:+ ":" +:+ pw]> (fs a))
     (set_installer_user_passwd_kind KNOWN
        (set_installer_user_passwd (Some pw) a)),
   [FileWritten pf (n +:+ ":" +:+ pw)]).
Proof. intros Hn. unfold use_passwd. mrun. simpl. by rewrite Hn. Qed.

Lemma use_passwd_anonymous pf pw a :
  installer_user_name a = None →
  ∃ e, result (use_passwd pf pw a) = Raise e.
Proof.
  intros Hn. unfold use_passwd. mrun. simpl. rewrite Hn. mrun.
  by eexists.
Qed.

(** What a call of [use_passwd] that returns leaves behind. *)
Lemma use_passwd_persists pf pw a :
  result (use_passwd pf pw a) = Ok tt →
  ∃ n,
    installer_user_name (after (use_passwd pf pw a)) = Some n
    ∧ installer_user_passwd (after (use_passwd pf pw a)) = Some pw
    ∧ installer_user_passwd_kind (after (use_passwd pf pw a)) = KNOWN
    ∧ fs (after (use_passwd pf pw a)) !! pf = Some (n +:+ ":" +:+ pw).
Proof.
  destruct (installer_user_name a) as [n|] eqn:Hn.
  - rewrite (use_passwd_run pf pw a n Hn). intros _. exists n.
    unfold after. simpl. split_and!; try done. apply lookup_insert_eq.
  - destruct (use_passwd_anonymous pf pw a Hn) as [e He]. by rewrite He.
Qed.

(** The outcome of [set_installer_password] is one of: nothing (no user),
    the stamp read back, a failure, a password that is not known and no
    file written, or a password handed to [use_passwd] in some state. *)
Lemma set_installer_password_cases E a :
  let o := set_installer_password E a in
  (installer_user_name a = None ∧ o = (Ok tt, a, []))
  ∨ (∃ contents, fs a !! passfile a = Some contents
       ∧ match split_first_colon contents with
         | Some (n, p) =>
             o = (Ok tt,
                  set_installer_user_passwd (Some p)
                    (set_installer_user_name (Some n)
                       (set_installer_user_passwd_kind KNOWN a)), [])
         | None =>
             ∃ e, o = (Raise e, set_installer_user_passwd_kind KNOWN a, [])
         end)
  ∨ (fs a !! passfile a = None
     ∧ ((∃ e, result o = Raise e)
        ∨ (result o = Ok tt
           ∧ installer_user_passwd_kind (after o) ≠ KNOWN
           ∧ Forall (λ e, ¬ is_file_write e) (trace o))
        ∨ (∃ a1 pw t, o = prepend t (use_passwd (passfile a) pw a1)))).
Proof.
  intros o. subst o. unfold set_installer_password, passfile. mrun.
  destruct (installer_user_name a) as [user|] eqn:Huser; [|by left].
  right. mrun. unfold exists_in.
  destruct (fs a !! os_path_join (state_dir a) "installer-user-passwd")
    as [contents|] eqn:Hstamp.
  - left. exists contents. rewrite bool_decide_true by eauto.
    rewrite (bind_read_file _ contents) by done. mrun.
    split; [done|].
    destruct (split_first_colon contents) as [[n p]|]; mrun.
    + done.
    + by eexists.
  - right. split; [done|].
    rewrite bool_decide_false by (by intros [? ?]). mrun.
    destruct (dry_run (opts a)).
    { destruct (environ_USER E) as [u|]; [|left; by eexists].
      mrun. rewrite bind_run. unfold new_password.
      right. right. by eexists _, _, _. }
    unfold _user_has_password. mrun. rewrite bind_run. unfold read_file.
    destruct (fs a !! "/etc/shadow") as [shadow|]; [|left; by eexists].
    rewrite prepend_nil, bind_ret.
    destruct (existsb _ _).
    + rewrite bind_run. unfold get_installer_password_from_cloudinit_log.
      destruct (fs a !! "/var/log/cloud-init-output.log") as [log|].
      * rewrite prepend_nil.
        destruct (filter _ (lines log)) as [|line ?].
        { right. left. by split_and!. }
        case_bool_decide.
        { right. left. by split_and!. }
        right. right. eexists a, _, []. by rewrite prepend_nil.
      * rewrite prepend_nil. right. left. by split_and!.
    + destruct (user_key_fingerprints E user).
      * rewrite bind_run. unfold new_password. rewrite bind_run.
        unfold run_chpasswd.
        destruct (chpasswd E _ a) as [returncode a1].
        case_bool_decide.
        { right. right. eexists a1, _, _. by rewrite prepend_prepend. }
        right. left. unfold modify, prepend, result, after, trace. simpl.
        split_and!; try done.
        repeat (apply Forall_cons; split; [by intros []|]). done.
      * right. left. by split_and!.
Qed.

(** X5. A password is persisted exactly when it is known. When
    [set_installer_password] returns for a known user with the kind
    [KNOWN], the stamp file holds the user name and the password the server
    now has, joined by a colon; when it returns with another kind, it has
    written no file. *)
Theorem password_known_iff_persisted (E : Ext) (a : App) :
  let o := set_installer_password E a in
  installer_user_name a ≠ None →
  result o = Ok tt →
  (installer_user_passwd_kind (after o) = KNOWN →
     ∃ n p, installer_user_name (after o) = Some n
            ∧ installer_user_passwd (after o) = Some p
            ∧ fs (after o) !! passfile a = Some (n +:+ ":" +:+ p))
  ∧ (installer_user_passwd_kind (after o) ≠ KNOWN →
     Forall (λ e, ¬ is_file_write e) (trace o)).
Proof.
  intros o Huser Hok. subst o.
  destruct (set_installer_password_cases E a)
    as [[Hnone _]|[(contents & Hstamp & Hrun)|(Hstamp & Hrun)]]; [done|..].
  - destruct (split_first_colon contents) as [[n p]|] eqn:Hsplit.
    + rewrite Hrun. unfold after, trace. simpl. split; [|done].
      intros _. exists n, p. split_and!; try done.
      by rewrite Hstamp, (split_first_colon_verbatim _ _ _ Hsplit).
    + destruct Hrun as [e Hrun]. by rewrite Hrun in Hok.
  - destruct Hrun as [[e He]|[(_ & Hkind & Hquiet)|(a1 & pw & t & Hrun)]].
    + by rewrite He in Hok.
    + done.
    + rewrite Hrun in Hok |- *. rewrite result_prepend in Hok.
      rewrite after_prepend.
      destruct (use_passwd_persists _ _ _ Hok) as (n & Hn & Hp & Hk & Hfs).
      split; [|done]. intros _. by exists n, pw.
Qed.

(** X6. What one boot persists, the next boot reads back. When
    [set_installer_password] finds no stamp and returns with a known
    password for a user whose name has no colon, then a later call over the
    file it wrote, whatever user name cloud-init reports
    by then, gives the same name and the same password with the kind
    [KNOWN], and neither generates a password nor runs [chpasswd]. *)
Theorem password_survives_restart (E : Ext) (a : App) (n : string) :
  let o := set_installer_password E a in
  fs a !! passfile a = None →
  result o = Ok tt →
  installer_user_passwd_kind (after o) = KNOWN →
  installer_user_name (after o) = Some n →
  split_first_colon n = None →
  ∀ a2 user2,
    state_dir a2 = state_dir a →
    fs a2 !! passfile a = fs (after o) !! passfile a →
    installer_user_name a2 = Some user2 →
    let o2 := set_installer_password E a2 in
    result o2 = Ok tt
    ∧ trace o2 = []
    ∧ installer_user_name (after o2) = Some n
    ∧ installer_user_passwd (after o2) = installer_user_passwd (after o)
    ∧ installer_user_passwd_kind (after o2) = KNOWN.
Proof.
  intros o Hfresh Hok Hkind Hname Hcolon a2 user2 Hdir Hfs Huser2 o2.
  subst o o2.
  destruct (set_installer_password_cases E a)
    as [[Hnone Hrun]|[(contents & Hstamp & _)|(_ & Hrun)]].
  { rewrite Hrun in Hname. unfold after in Hname. simpl in Hname. congruence. }
  { congruence. }
  destruct Hrun as [[e He]|[(_ & Hk & _)|(a1 & pw & t & Hrun)]];
    [by rewrite He in Hok|done|].
  rewrite Hrun in Hok, Hname, Hfs |- *.
  rewrite result_prepend in Hok. rewrite after_prepend in Hname, Hfs |- *.
  destruct (use_passwd_persists _ _ _ Hok) as (n' & Hn & Hp & _ & Hwritten).
  rewrite Hn in Hname. injection Hname as ->.
  rewrite Hwritten in Hfs. rewrite Hp.
  destruct (set_installer_password_cases E a2)
    as [[Hnone _]|[(contents & Hstamp & Hrun2)|(Hstamp & _)]].
  - congruence.
  - unfold passfile in Hstamp. rewrite Hdir in Hstamp.
    unfold passfile in Hfs. rewrite Hfs in Hstamp. injection Hstamp as <-.
    rewrite (split_first_colon_join n pw Hcolon) in Hrun2.
    rewrite Hrun2. by unfold result, after, trace.
  - unfold passfile in Hstamp, Hfs. rewrite Hdir in Hstamp. congruence.
Qed.

(** ** The password in the cloud-init log *)

Lemma last_char_rev_app s acc :
  last_char (String.rev_app s acc) =
  match last_char acc with Some d => Some d | None => first_char s end.
Proof.
  revert acc. induction s as [|c s IH]; intros acc; simpl.
  - by destruct (last_char acc).
  - rewrite IH. simpl. by destruct (last_char acc).
Qed.

Lemma first_char_rev_app s acc :
  first_char (String.rev_app s acc) =
  match last_char s with Some d => Some d | None => first_char acc end.
Proof.
  revert acc. induction s as [|c s IH]; intros acc; simpl; [done|].
  rewrite IH. by destruct (last_char s).
Qed.

Lemma last_char_rev s : last_char (String.rev s) = first_char s.
Proof. unfold String.rev. by rewrite last_char_rev_app. Qed.

Lemma first_char_rev s : first_char (String.rev s) = last_char s.
Proof. unfold String.rev. rewrite first_char_rev_app. by destruct (last_char s). Qed.

Lemma first_char_lstrip s c :
  first_char (lstrip s) = Some c → isspace c = false.
Proof.
  induction s as [|d s IH]; simpl; [done|].
  destruct (isspace d) eqn:Hd; [done|]. simpl. by intros [= <-].
Qed.

Lemma last_char_lstrip s c :
  last_char (lstrip s) = Some c → last_char s = Some c.
Proof.
  induction s as [|d s IH]; simpl; [done|].
  destruct (isspace d) eqn:Hd; [|done].
  intros Hc. by rewrite (IH Hc).
Qed.

Lemma strip_no_space s c :
  first_char (strip s) = Some c ∨ last_char (strip s) = Some c →
  isspace c = false.
Proof.
  unfold strip. rewrite first_char_rev, last_char_rev. intros [Hc|Hc].
  - apply last_char_lstrip in Hc. rewrite last_char_rev in Hc.
    by apply first_char_lstrip in Hc.
  - by apply first_char_lstrip in Hc.
Qed.

(** X7. Reading the installer password from the cloud-init log never
    fails and never changes anything: without the log file, or without a
    line that starts with [installer:], the answer is [None]. A password
    that is found is what follows [installer:] on the first such line,
    without the white space around it. *)
Theorem logged_password_is_stripped (a : App) :
  let o := get_installer_password_from_cloudinit_log a in
  after o = a ∧ trace o = []
  ∧ (fs a !! "/var/log/cloud-init-output.log" = None → result o = Ok None)
  ∧ (∀ log, fs a !! "/var/log/cloud-init-output.log" = Some log →
       (∀ line, line ∈ lines log → startswith line "installer:" = false) →
       result o = Ok None)
  ∧ (∀ passwd, result o = Ok (Some passwd) →
       (∀ c, first_char passwd = Some c ∨ last_char passwd = Some c →
             isspace c = false)
       ∧ ∃ log before line later,
           fs a !! "/var/log/cloud-init-output.log" = Some log
           ∧ lines log = before ++ line :: later
           ∧ startswith line "installer:" = true
           ∧ (∀ l, l ∈ before → startswith l "installer:" = false)
           ∧ passwd = strip (drop_chars 10 line)).
Proof.
  intros o. subst o. unfold get_installer_password_from_cloudinit_log.
  destruct (fs a !! "/var/log/cloud-init-output.log") as [log|];
    unfold result, after, trace; simpl; [|by split_and!].
  split_and!; try done.
  - intros ? [= <-] Hnone.
    destruct (filter _ (lines log)) as [|line rest] eqn:Hf; [done|].
    assert (line ∈ filter (λ l, startswith l "installer:" = true) (lines log))
      as [Hl Hin]%list_elem_of_filter by (rewrite Hf; apply list_elem_of_here).
    rewrite (Hnone line Hin) in Hl. done.
  - intros passwd Hp.
    destruct (filter _ (lines log)) as [|line rest] eqn:Hf; [done|].
    injection Hp as <-. split; [intros c; apply strip_no_space|].
    exists log.
    assert (∃ before later,
      lines log = before ++ line :: later
      ∧ startswith line "installer:" = true
      ∧ ∀ l, l ∈ before → startswith l "installer:" = false)
      as (before & later & ? & ? & ?).
    { revert Hf. generalize (lines log) as ls.
      induction ls as [|l ls IH]; [done|].
      destruct (startswith l "installer:") eqn:Hl.
      - rewrite filter_cons_True by done. intros [= -> _].
        exists [], ls. split_and!; try done. by intros ? ?%elem_of_nil.
      - rewrite filter_cons_False by congruence.
        intros (before & later & -> & ? & Hb)%IH.
        exists (l :: before), later. split_and!; try done.
        intros l' [->|?]%elem_of_cons; auto. }
    by exists before, line, later.
Qed.

(** ** More on loading the autoinstall configuration *)

Lemma controller_named_run nm a :
  (∃ c, controller_named nm a = (Ok c, a, []) ∧ ctl_name c = nm)
  ∨ controller_named nm a = (Raise (AttributeError nm), a, []).
Proof.
  unfold controller_named.
  destruct (filter _ (instances a)) as [|c rest] eqn:Hf; [by right|].
  left. exists c. split; [done|].
  assert (c ∈ filter (λ c, ctl_name c = nm) (instances a)) as Hc
    by (rewrite Hf; apply list_elem_of_here).
  by apply list_elem_of_filter in Hc as [? _].
Qed.

Lemma validate_base_schema_run config a :
  validate_base_schema (optional_of_py config) a =
  if base_valid config then (Ok tt, a, []) else (Raise ValidationError, a, []).
Proof.
  destruct config as [| | | | |d]; try done. simpl.
  destruct (d !! "version") as [[| |[|[]|]| | |]|]; done.
Qed.

Lemma call_run c method f a :
  call c method f a = ((f c a).1, (f c a).2, [Called c method]).
Proof. unfold call. rewrite bind_emit. unfold foreign. by destruct (f c a). Qed.

Ltac not_early :=
  let c := fresh in let Hc := fresh in let Hin := fresh in
  intros c Hc Hin; unfold prepend, trace in Hin; simpl in Hin;
  repeat (apply elem_of_cons in Hin as [Hin|Hin]);
  try (by apply elem_of_nil in Hin);
  injection Hin; intros; subst; first [congruence | discriminate].

Ltac stop_here H :=
  cbv beta delta [prepend]; split_and!; [done|exact H|not_early].

(** X8. The early phase validates before it lets the Early controller
    in. When the file parses to a configuration that the base schema does
    not accept, [load_autoinstall_config(only_early=True)] does not return
    normally (it raises [ValidationError] unless a controller failed before)
    and has not called [setup_autoinstall] on the Early controller; the rejected
    configuration is what [autoinstall_config] then holds. (The reporting
    and error controllers are set up before the validation; they are taken
    to leave [autoinstall_config] alone.) *)
Theorem early_load_validates_first (E : Ext) (a : App)
    (path text : string) (config : PyVal) :
  autoinstall a = Some path → path ≠ EmptyString →
  fs a !! path = Some text →
  yaml_safe_load E text = Some config →
  ext_keeps E (has_config config) →
  base_valid config = false →
  let o := load_autoinstall_config E true a in
  result o ≠ Ok tt
  ∧ has_config config (after o)
  ∧ ∀ c, ctl_name c = "Early" → Called c "setup_autoinstall" ∉ trace o.
Proof.
  intros Hsrc Hne Hfile Hyaml HE Hbad o. subst o.
  set (bad := λ o : Res unit * App * list Effect,
         result o ≠ Ok tt ∧ has_config config (after o)
         ∧ ∀ c, ctl_name c = "Early" → Called c "setup_autoinstall" ∉ trace o).
  change (bad (load_autoinstall_config E true a)).
  unfold load_autoinstall_config. rewrite bind_gets, Hsrc.
  rewrite bool_decide_false by done.
  rewrite (bind_read_file _ text) by done. rewrite Hyaml, bind_modify.
  set (a0 := set_autoinstall_config (optional_of_py config) a).
  assert (has_config config a0) as H0 by done.
  (* Reporting.setup_autoinstall *)
  rewrite bind_run.
  destruct (controller_named_run "Reporting" a0) as [(rep & -> & Hrep)| ->];
    [|by subst bad; stop_here H0].
  rewrite prepend_nil, bind_run, call_run.
  pose proof (keeps_setup E _ HE rep a0 H0) as H1.
  destruct (ctl_setup_autoinstall E rep a0) as [[[]|e|file argv] a1];
    simpl in H1; cbn [fst snd].
  2: by subst bad; stop_here H1. 2: by subst bad; stop_here H1.
  (* Reporting.start *)
  rewrite bind_run.
  destruct (controller_named_run "Reporting" a1) as [(rep2 & -> & Hrep2)| ->];
    [|by subst bad; stop_here H1].
  rewrite prepend_nil, bind_run, call_run.
  pose proof (keeps_start E _ HE rep2 a1 H1) as H2.
  destruct (ctl_start E rep2 a1) as [[[]|e|file argv] a2];
    simpl in H2; cbn [fst snd].
  2: by subst bad; stop_here H2. 2: by subst bad; stop_here H2.
  (* Error.setup_autoinstall *)
  rewrite bind_run.
  destruct (controller_named_run "Error" a2) as [(err & -> & Herr)| ->];
    [|by subst bad; stop_here H2].
  rewrite prepend_nil, bind_run, call_run.
  pose proof (keeps_setup E _ HE err a2 H2) as H3.
  destruct (ctl_setup_autoinstall E err a2) as [[[]|e|file argv] a3];
    simpl in H3; cbn [fst snd].
  2: by subst bad; stop_here H3. 2: by subst bad; stop_here H3.
  (* the validation *)
  rewrite bind_gets, H3, bind_run, validate_base_schema_run, Hbad.
  by subst bad; stop_here H3.
Qed.

(** A loop that calls one method on each controller makes the calls in
    the order of the list and stops at the first call that does not
    return. *)
Lemma for_each_call_trace (cs : list Controller) method f a :
  let o := for_each cs (λ c, call c method f) a in
  ∃ n, n ≤ length cs
       ∧ trace o = (λ c, Called c method) <$> take n cs
       ∧ (result o = Ok tt → n = length cs).
Proof.
  revert a. induction cs as [|c cs IH]; intros a; simpl.
  { exists 0. by split_and!. }
  rewrite bind_run, call_run.
  destruct (f c a) as [[[]|e|file argv] a1]; cbn [fst snd].
  - destruct (IH a1) as (n & Hn & Htrace & Hok).
    exists (S n). rewrite trace_prepend, result_prepend, Htrace. simpl.
    split_and!; [lia|done|]. intros H. by rewrite (Hok H).
  - exists 1. unfold trace, result. simpl. rewrite ?take_0.
    split_and!; [lia|done|done].
  - exists 1. unfold trace, result. simpl. rewrite ?take_0.
    split_and!; [lia|done|done].
Qed.

(** X9. The full phase of [load_autoinstall_config]. Without a
    source (none, or the empty string) it does nothing. With a source that
    cannot be opened, or that does not parse, it raises and leaves the
    server as it was: no controller is called and [autoinstall_config] is
    not touched. Otherwise [setup_autoinstall] is called on the controllers
    in registry order, interactive or not, up to the first call that does
    not return; when the load returns, every controller was set up. *)
Theorem full_load_sets_up_every_controller (E : Ext) (a : App) :
  let o := load_autoinstall_config E false a in
  (autoinstall a = None ∨ autoinstall a = Some EmptyString →
     o = (Ok tt, a, []))
  ∧ (∀ path, autoinstall a = Some path → path ≠ EmptyString →
       (fs a !! path = None → o = (Raise (FileNotFoundError path), a, []))
       ∧ (∀ text, fs a !! path = Some text →
            (yaml_safe_load E text = None → o = (Raise YAMLError, a, []))
            ∧ (∀ config, yaml_safe_load E text = Some config →
                 ∃ n, n ≤ length (instances a)
                      ∧ trace o = (λ c, Called c "setup_autoinstall")
                                    <$> take n (instances a)
                      ∧ (result o = Ok tt → n = length (instances a))))).
Proof.
  intros o. subst o. unfold load_autoinstall_config. rewrite bind_gets.
  split.
  { intros [-> | ->]; [done|]. by rewrite bool_decide_true. }
  intros path -> Hne. rewrite bool_decide_false by done. split.
  { intros Hmissing. rewrite bind_run. unfold read_file. by rewrite Hmissing. }
  intros text Htext. rewrite (bind_read_file _ text) by done. split.
  { by intros ->. }
  intros config ->. rewrite bind_modify, bind_gets.
  apply (for_each_call_trace (instances a) "setup_autoinstall"
           (ctl_setup_autoinstall E)).
Qed.

(** ** More on the non-interactive sweep *)

Lemma for_each_all_skipped E (cs : list Controller) a :
  (∀ c, c ∈ cs → ctl_interactive E c a = true) →
  for_each cs (visit E) a = (Ok tt, a, []).
Proof.
  induction cs as [|c cs IH]; intros Hall; simpl; [done|].
  rewrite bind_run, visit_run, (Hall c) by apply list_elem_of_here.
  rewrite prepend_nil. apply IH. intros c' Hc'. apply Hall.
  by apply list_elem_of_further.
Qed.

(** X10. In a run where every controller reports itself interactive, the
    sweep calls nothing and changes nothing. *)
Theorem sweep_of_interactive_run_is_idle (E : Ext) (a : App) :
  (∀ c, c ∈ instances a → ctl_interactive E c a = true) →
  apply_autoinstall_config E a = (Ok tt, a, []).
Proof.
  intros Hall. rewrite apply_autoinstall_config_loop.
  by apply for_each_all_skipped.
Qed.

(** X11. A controller that fails ends the sweep. When the sweep has come
    to a non-interactive controller [c] and [c.apply_autoinstall_config]
    raises, the sweep raises the same exception: [configured] is not called
    on [c], and nothing is called on the controllers after it. The same
    holds when [c.configured] raises. *)
Theorem sweep_stops_at_failure (E : Ext) (a : App)
    (earlier later : list Controller) (c : Controller) (a_c : App)
    (t : list Effect) :
  instances a = earlier ++ c :: later →
  for_each earlier (visit E) a = (Ok tt, a_c, t) →
  ctl_interactive E c a_c = false →
  (∀ e a1, ctl_apply_autoinstall_config E c a_c = (Raise e, a1) →
     apply_autoinstall_config E a =
     (Raise e, a1, t ++ [Called c "apply_autoinstall_config"]))
  ∧ (∀ a1 e a2, ctl_apply_autoinstall_config E c a_c = (Ok tt, a1) →
       ctl_configured E c a1 = (Raise e, a2) →
       apply_autoinstall_config E a =
       (Raise e, a2,
        t ++ [Called c "apply_autoinstall_config"; Called c "configured"])).
Proof.
  intros Hinst Hearlier Hc.
  rewrite apply_autoinstall_config_loop, Hinst. split.
  - intros e a1 Hfail.
    rewrite for_each_app, bind_run, Hearlier. simpl.
    rewrite bind_run, visit_run, Hc, Hfail. done.
  - intros a1 e a2 Happly Hfail.
    rewrite for_each_app, bind_run, Hearlier. simpl.
    rewrite bind_run, visit_run, Hc, Happly, Hfail. done.
Qed.

(** ** More on the middleware *)

(** X12. Only view requests to stage controllers are ever answered by
    the middleware itself. A request whose [x-make-view-request] header is
    absent or is anything but [yes], and any request to a controller that is
    not a stage controller (the meta, error and dry-run controllers, or no
    controller at all), reaches its handler, whatever the state and the
    interactivity. *)
Theorem middleware_gates_view_requests_only (E : Ext) (request : Request)
    (handler : Handler) (a : App) :
  headers request !! "x-make-view-request" ≠ Some "yes"
  ∨ (∀ c, handler_controller handler ≠ Some (StageController c)) →
  middleware E request handler a = handled E request handler a
  ∧ head (trace (middleware E request handler a))
    = Some (HandlerInvoked (raw_path request)).
Proof.
  intros Hplain. rewrite middleware_run.
  assert (override_status E request handler a = None) as ->.
  { unfold override_status.
    destruct (handler_controller handler) as [[c|nm]|]; try done.
    case_bool_decide as Hyes; [|done].
    destruct Hplain as [Hno|Hno]; [done|]. by destruct (Hno c). }
  split; [done|]. unfold handled.
  by destruct (handler_call handler request a) as [[[resp|e|file argv] a1] t].
Qed.

(** X13. What the middleware does with a handler it calls. When the
    handler raises, the middleware raises the same exception: it sets no
    header and makes no report. When the handler returns a response without
    an exception, the middleware returns that response with [x-updated] set
    (a value the handler had put there is replaced) and every other header
    as the handler left it; it makes no report and leaves the server in the
    state the handler left it in. *)
Theorem middleware_passes_on (E : Ext) (request : Request) (handler : Handler)
    (a : App) :
  HandlerInvoked (raw_path request) ∈ trace (middleware E request handler a) →
  (∀ e a1 t, handler_call handler request a = (Raise e, a1, t) →
     middleware E request handler a =
     (Raise e, a1, HandlerInvoked (raw_path request) :: t))
  ∧ (∀ resp a1 t, handler_call handler request a = (Ok resp, a1, t) →
       resp_exception resp = None →
       ∃ resp',
         middleware E request handler a =
         (Ok resp', a1, HandlerInvoked (raw_path request) :: t)
         ∧ resp_headers resp' !! "x-updated"
           = Some (if updated a1 then "yes" else "no")
         ∧ (∀ key, key ≠ "x-updated" →
                   resp_headers resp' !! key = resp_headers resp !! key)
         ∧ resp_status resp' = resp_status resp
         ∧ resp_text resp' = resp_text resp
         ∧ resp_exception resp' = None).
Proof.
  rewrite middleware_run.
  destruct (override_status E request handler a) as [status|].
  { by intros ?%elem_of_nil. }
  intros _. unfold handled. split.
  - by intros e a1 t ->.
  - intros resp a1 t -> Hclean. unfold annotated. rewrite Hclean.
    eexists. unfold prepend. simpl. rewrite app_nil_r.
    split_and!; try done.
    + apply lookup_insert_eq.
    + intros key Hkey. apply lookup_insert_ne. congruence.
Qed.

(** ** Cloud-init *)

(** X14. [wait_for_cloudinit] loads the cloud configuration only when
    cloud-init says it is done. In a dry run it asks nothing and records
    success. Otherwise it runs [cloud-init status --wait]: on a timeout it
    records failure, on any answer it records success, and unless the answer
    contains [status: done] it leaves it at that: no user name is taken over
    and no file is written. *)
Theorem cloud_config_only_when_done (E : Ext) (a : App) :
  let o := wait_for_cloudinit E a in
  (dry_run (opts a) = true →
     o = (Ok tt, set_cloud_init_ok (Some true) a, []))
  ∧ (dry_run (opts a) = false →
     (cloud_init_status_wait E a = None →
        o = (Ok tt, set_cloud_init_ok (Some false) a,
             [cloud_init_wait_command]))
     ∧ (∀ stdout, cloud_init_status_wait E a = Some stdout →
          (str_contains "status: done" stdout = false →
             o = (Ok tt, set_cloud_init_ok (Some true) a,
                  [cloud_init_wait_command]))
          ∧ (str_contains "status: done" stdout = true →
               o = prepend [cloud_init_wait_command]
                     (load_cloud_config E (set_cloud_init_ok (Some true) a))))).
Proof.
  intros o. subst o. unfold wait_for_cloudinit, cloud_init_wait_command.
  rewrite bind_gets. split; intros ->; [done|].
  rewrite bind_emit, bind_gets. split.
  - intros ->. by rewrite bind_assoc, bind_modify, bind_ret.
  - intros stdout ->. rewrite bind_assoc, bind_modify, bind_ret.
    split; by intros ->.
Qed.

Lemma py_get_dict m key default :
  py_get (PDict m) key default =
  ret (match m !! key with Some v => v | None => default end).
Proof. done. Qed.

(** What [load_cloud_config] has done when it returns. *)
Lemma load_cloud_config_run E a :
  result (load_cloud_config E a) = Ok tt →
  ∃ user,
    (get_host_combined_cloud_config E a = ∅ → user = (stages_Init E a).2)
    ∧ (get_host_combined_cloud_config E a ≠ ∅ →
       get_host_combined_cloud_config E a !! "system_info" = None →
       user = None)
    ∧ load_cloud_config E a =
      match cloud_cfg_of E a !! "autoinstall" with
      | Some cfg =>
          (Ok tt,
           set_fs (<[cloud_path a := safeyaml_dumps E cfg]> (fs a))
             (set_installer_user_name user a),
           [FileWritten (cloud_path a) (safeyaml_dumps E cfg)])
      | None => (Ok tt, set_installer_user_name user a, [])
      end.
Proof.
  unfold load_cloud_config, cloud_cfg_of, cloud_path.
  rewrite bind_gets. case_bool_decide as Hempty.
  - rewrite !bind_assoc, bind_gets, bind_assoc, bind_modify, bind_ret.
    intros _. exists (stages_Init E a).2. split_and!; [done|done|].
    destruct ((stages_Init E a).1 !! "autoinstall"); [|done].
    by rewrite bind_base_relative.
  - rewrite !bind_assoc, py_get_dict, bind_ret, !bind_assoc.
    set (system_info := match _ !! "system_info" with
                        | Some v => v | None => PDict ∅ end).
    assert (get_host_combined_cloud_config E a !! "system_info" = None →
            system_info = PDict ∅) as Hsys.
    { intros Hnone. subst system_info. by rewrite Hnone. }
    destruct system_info as [| | | | |info] eqn:Hinfo;
      try (by rewrite bind_run).
    rewrite py_get_dict, bind_ret, !bind_assoc.
    set (default_user := match info !! "default_user" with
                         | Some v => v | None => PDict ∅ end).
    assert (info = ∅ → default_user = PDict ∅) as Hdef.
    { intros ->. subst default_user. by rewrite lookup_empty. }
    destruct default_user as [| | | | |user_cfg] eqn:Huser;
      try (by rewrite bind_run).
    rewrite py_get_dict, bind_ret, !bind_assoc, bind_modify, bind_ret.
    intros _.
    exists (optional_str (match user_cfg !! "name" with
                          | Some v => v | None => PNone end)).
    split_and!; [done| |].
    + intros _ Hnone. specialize (Hsys Hnone). injection Hsys as ->.
      specialize (Hdef eq_refl). injection Hdef as ->.
      by rewrite lookup_empty.
    + destruct (get_host_combined_cloud_config E a !! "autoinstall"); [|done].
      by rewrite bind_base_relative.
Qed.

(** X15. When [load_cloud_config] returns it has changed the installer
    user name and at most one file: with an [autoinstall] section in the
    cloud configuration, the section is written to the cloud autoinstall
    path, and without one no file is written. With an empty combined
    configuration the user name is the default user of [stages.Init()];
    with a combined configuration that has no [system_info] the user name
    becomes [None]. *)
Theorem load_cloud_config_effect (E : Ext) (a : App) :
  let o := load_cloud_config E a in
  result o = Ok tt →
  after o = set_fs (fs (after o))
              (set_installer_user_name (installer_user_name (after o)) a)
  ∧ (∀ path, path ≠ cloud_path a → fs (after o) !! path = fs a !! path)
  ∧ (∀ cfg, cloud_cfg_of E a !! "autoinstall" = Some cfg →
       fs (after o) !! cloud_path a = Some (safeyaml_dumps E cfg)
       ∧ trace o = [FileWritten (cloud_path a) (safeyaml_dumps E cfg)])
  ∧ (cloud_cfg_of E a !! "autoinstall" = None →
       fs (after o) = fs a ∧ trace o = [])
  ∧ (get_host_combined_cloud_config E a = ∅ →
       installer_user_name (after o) = (stages_Init E a).2)
  ∧ (get_host_combined_cloud_config E a ≠ ∅ →
     get_host_combined_cloud_config E a !! "system_info" = None →
       installer_user_name (after o) = None).
Proof.
  intros o Hok. subst o.
  destruct (load_cloud_config_run E a Hok) as (user & Hinit & Hnosys & ->).
  destruct (cloud_cfg_of E a !! "autoinstall") as [cfg|];
    unfold after, trace; simpl.
  - split_and!; try done.
    + intros path Hne. by rewrite lookup_insert_ne.
    + intros ? [= <-]. split; [apply lookup_insert_eq|done].
  - split_and!; try done.
Qed.

Lemma append_inj_left (p x y : string) : p +:+ x = p +:+ y → x = y.
Proof. induction p as [|c p IH]; simpl; [done|]. intros [= H]. by apply IH. Qed.

(** Two relative paths joined to the same directory stay different. *)
Lemma os_path_join_relative_inj dir x y :
  startswith x "/" = false → startswith y "/" = false →
  os_path_join dir x = os_path_join dir y → x = y.
Proof.
  unfold os_path_join. intros -> ->.
  destruct (_ || _).
  - apply append_inj_left.
  - intros H%append_inj_left. by apply (append_inj_left "/").
Qed.

(** X16. The autoinstall section of the cloud configuration reaches the
    root location: when [load_cloud_config] has written it, the operator
    gave no source and there is no [autoinstall.yaml] at the root yet,
    [select_autoinstall] copies the cloud file to the root location and
    returns that path, which then holds the dumped section. *)
Theorem cloud_autoinstall_reaches_root (E : Ext) (a : App) (cfg : PyVal) :
  let rootpath := os_path_join (root a) root_autoinstall_path in
  result (load_cloud_config E a) = Ok tt →
  cloud_cfg_of E a !! "autoinstall" = Some cfg →
  opts_autoinstall (opts a) = None →
  fs a !! rootpath = None →
  let o := select_autoinstall (after (load_cloud_config E a)) in
  result o = Ok (Some rootpath)
  ∧ fs (after o) !! rootpath = Some (safeyaml_dumps E cfg)
  ∧ trace o = [FileCopied (cloud_path a) rootpath].
Proof.
  intros rootpath Hok Hcfg Hopt Hroot o. subst o.
  destruct (load_cloud_config_run E a Hok) as (user & _ & _ & ->).
  rewrite Hcfg. set (a1 := set_fs _ _).
  change (after (Ok tt, a1, _)) with a1.
  assert (cloud_path a ≠ rootpath) as Hne.
  { unfold cloud_path, rootpath. by intros H%os_path_join_relative_inj. }
  rewrite select_autoinstall_unfold; cycle 1.
  { subst a1. simpl. by rewrite Hopt. }
  { intros path. subst a1. simpl. by rewrite Hopt. }
  rewrite (first_existing_found _ _ 2 (cloud_path a)); cycle 1.
  { done. }
  { apply exists_in_true. subst a1. simpl. rewrite lookup_insert_eq. eauto. }
  { intros j other Hj. subst a1. unfold candidates. simpl. rewrite Hopt.
    destruct j as [|[|j]]; simpl; [|done|lia].
    intros [= <-]. apply exists_in_false.
    by rewrite lookup_insert_ne. }
  rewrite bind_ret. unfold bind, copy_file_if_exists.
  subst a1. simpl. rewrite lookup_insert_eq. simpl.
  split_and!; [done| |done]. apply lookup_insert_eq.
Qed.

(** ** The state on disk *)

Lemma name_inj s1 s2 : name s1 = name s2 → s1 = s2.
Proof. by destruct s1, s2. Qed.

Lemma status_GET_frame p a :
  let a' := after (status_GET p a) in
  fs a' = fs a ∧ _state a' = _state a ∧ state_dir a' = state_dir a.
Proof.
  unfold status_GET. case_bool_decide; [|done].
  destruct (Event_wait p (state_event a)) as [[] ev]; done.
Qed.

Lemma loop_run_once_frame a :
  let a' := after (loop_run_once a) in
  fs a' = fs a ∧ _state a' = _state a ∧ state_dir a' = state_dir a.
Proof.
  destruct (loop_ready a) as [|p rest] eqn:Hq.
  - unfold loop_run_once. by rewrite Hq.
  - by rewrite (loop_run_once_head a p rest Hq).
Qed.

(** X17. In every state the server reaches from its construction through
    state writes, status polls and turns of the loop, the event is between
    two calls (flag down, one future per coroutine, the ready queue made of
    the resolved ones, everyone blocked polled with the current state) and
    the state file holds the name of the current state, which names no
    other state. *)
Theorem state_file_tracks_state (a : App) :
  reachable a →
  state_event_wf a
  ∧ fs a !! state_file a = Some (name (_state a))
  ∧ (∀ s, fs a !! state_file a = Some (name s) → s = _state a).
Proof.
  intros Hreach. split; [by apply reachable_wf|].
  assert (fs a !! state_file a = Some (name (_state a))) as Hfile.
  { unfold state_file.
    assert (∀ s b, let b' := after (update_state s b) in
              fs b' !! os_path_join (state_dir b') "server-state"
              = Some (name (_state b'))) as Hwrite.
    { intros s b. rewrite update_state_unfold. unfold after. simpl.
      apply lookup_insert_eq. }
    induction Hreach as [| a s _ _ | a p _ IH _ | a _ IH].
    - apply Hwrite.
    - apply Hwrite.
    - destruct (status_GET_frame p a) as (-> & -> & ->). apply IH.
    - destruct (loop_run_once_frame a) as (-> & -> & ->). apply IH. }
  split; [done|].
  intros s Hs. rewrite Hfile in Hs. injection Hs as Hs. by apply name_inj.
Qed.

(** ** Marking controllers configured *)

Lemma for_each_configured E (endpoints : list (option string))
    (cs : list Controller) a :
  let o := for_each cs (λ controller,
             if bool_decide (endpoint controller ∈ endpoints)
             then call controller "configured" (ctl_configured E)
             else ret tt) a in
  trace o `prefix_of`
    configured_calls (filter (λ c, endpoint c ∈ endpoints) cs)
  ∧ (result o = Ok tt →
     trace o = configured_calls (filter (λ c, endpoint c ∈ endpoints) cs)).
Proof.
  revert a. induction cs as [|c cs IH]; intros a; [done|].
  cbn [for_each]. cbv zeta. rewrite bind_run. case_bool_decide as Hin.
  - rewrite filter_cons_True by done. rewrite call_run.
    destruct (ctl_configured E c a) as [[[]|e|file argv] a1]; cbn [fst snd].
    + destruct (IH a1) as [Hpre Hall].
      rewrite trace_prepend, result_prepend. split.
      * by apply prefix_cons.
      * intros Hok. by rewrite (Hall Hok).
    + split; [|done]. apply prefix_cons, prefix_nil.
    + split; [|done]. apply prefix_cons, prefix_nil.
  - rewrite filter_cons_False by done. cbn [ret]. rewrite prepend_nil.
    apply IH.
Qed.

(** X18. [mark_configured_POST] calls [configured] on the controllers
    whose endpoint is among the endpoints the names resolve to, in the
    order of the instances, and calls nothing else; a call that fails ends
    it. A name the API does not have resolves to [None], so that with such
    a name in the list the controllers that have no endpoint are marked
    configured as well. *)
Theorem mark_configured_POST_calls (E : Ext)
    (api_attr : string → option string) (endpoint_names : list string)
    (a : App) :
  let o := mark_configured_POST E api_attr endpoint_names a in
  let marked :=
    filter (λ c, endpoint c ∈ api_attr <$> endpoint_names) (instances a) in
  trace o `prefix_of` configured_calls marked
  ∧ (result o = Ok tt → trace o = configured_calls marked)
  ∧ (∀ c, c ∈ marked ↔
       c ∈ instances a
       ∧ match endpoint c with
         | Some e => ∃ en, en ∈ endpoint_names ∧ api_attr en = Some e
         | None => ∃ en, en ∈ endpoint_names ∧ api_attr en = None
         end).
Proof.
  intros o marked. subst o marked. unfold mark_configured_POST.
  rewrite bind_gets.
  destruct (for_each_configured E (api_attr <$> endpoint_names)
              (instances a) a) as [Hpre Hall].
  split_and!; [done|done|].
  intros c. rewrite list_elem_of_filter, list_elem_of_fmap. split.
  - intros [(en & Hen & Hnames) Hin]. split; [done|].
    destruct (endpoint c); eauto.
  - intros [Hin Hc]. split; [|done].
    destruct (endpoint c); destruct Hc as (en & Hnames & Hen); eauto.
Qed.

(** ** The autoinstall configuration the server makes *)

Lemma last_cons_default {A} (x : A) (l : list A) :
  last (x :: l) = Some (default x (last l)).
Proof.
  revert x. induction l as [|y l IH]; intros x; [done|].
  rewrite last_cons_cons, IH. by destruct l.
Qed.

Lemma make_autoinstall_fold (make_conf : Controller → App → PyVal) (a : App)
    (cs : list Controller) (init : gmap (option string) PyVal)
    (k : option string) :
  foldl (λ config controller,
           let controller_conf := make_conf controller a in
           if truthy controller_conf
           then <[autoinstall_key controller := controller_conf]> config
           else config) init cs !! k =
  match last (filter (contributes make_conf a k) cs) with
  | Some c => Some (make_conf c a)
  | None => init !! k
  end.
Proof.
  revert init. induction cs as [|c cs IH]; intros init; [done|].
  cbn [foldl]. rewrite IH. cbv zeta.
  destruct (decide (contributes make_conf a k c)) as [[Hk Ht]|Hno].
  - rewrite filter_cons_True by done. rewrite last_cons_default.
    destruct (last (filter _ cs)); [done|]. simpl.
    by rewrite Ht, <- Hk, lookup_insert_eq.
  - rewrite filter_cons_False by done.
    destruct (last (filter _ cs)); [done|].
    destruct (truthy (make_conf c a)) eqn:Ht; [|done].
    apply lookup_insert_ne. intros Hk. by apply Hno.
Qed.

(** X19. What [make_autoinstall] returns holds, under each key, the
    configuration of the last controller in the instances that has this
    [autoinstall_key] and a truthy configuration of its own; a controller
    whose configuration is falsy leaves no entry. Where no controller
    contributes, [version] is 1 and every other key is absent. So every
    entry but the version is truthy and comes from a controller. *)
Theorem make_autoinstall_entries (make_conf : Controller → App → PyVal)
    (a : App) (k : option string) :
  make_autoinstall make_conf a !! k =
    match last (filter (contributes make_conf a k) (instances a)) with
    | Some c => Some (make_conf c a)
    | None => if bool_decide (k = Some "version") then Some (PInt 1) else None
    end
  ∧ (∀ v, make_autoinstall make_conf a !! k = Some v →
       (k = Some "version" ∧ v = PInt 1)
       ∨ (truthy v = true
          ∧ ∃ c, c ∈ instances a ∧ autoinstall_key c = k
                 ∧ v = make_conf c a)).
Proof.
  unfold make_autoinstall. rewrite make_autoinstall_fold.
  destruct (last (filter _ (instances a))) as [c|] eqn:Hlast.
  - split; [done|]. intros v [= <-]. right.
    apply last_Some_elem_of in Hlast.
    apply list_elem_of_filter in Hlast as [[Hk Ht] Hin]. eauto.
  - case_bool_decide as Hk.
    + subst k. rewrite lookup_singleton_eq. split; [done|].
      intros v [= <-]. by left.
    + rewrite lookup_singleton_ne by congruence. done.
Qed.

(** ** Faults that reach the event loop *)

Lemma exception_handler_run super_handler report_for_exc exc
    (running : bool) a :
  let report := default (unknown_error_report exc a) (report_for_exc exc a) in
  let t := ReportMade <$> new_reports (report_for_exc exc a) report in
  let a1 := set_fatal_error (Some report)
              (match report_for_exc exc a with
               | Some _ => a
               | None => set_error_reports (error_reports a ++ [report]) a
               end) in
  let started := if running then None else Some report in
  _exception_handler super_handler report_for_exc (Some exc) running a =
  if default false (interactive a)
  then (Ok (true, started), after (update_state ERROR a1),
        t ++ trace (update_state ERROR a1))
  else (Ok (true, started), a1, t).
Proof.
  intros report t a1 started. subst report t a1 started.
  unfold _exception_handler, unknown_error_report. rewrite bind_gets.
  destruct (report_for_exc exc a) as [found|]; cbn [default].
  - rewrite bind_ret, bind_modify, bind_gets. cbn [interactive set_fatal_error].
    destruct (default false (interactive a)).
    + rewrite bind_update_state. unfold prepend.
      destruct running; cbn -[update_state]; by rewrite ?app_nil_r.
    + rewrite bind_ret. by destruct running.
  - unfold make_apport_report at 1. rewrite bind_run. cbn [fst snd].
    rewrite bind_modify, bind_gets.
    cbn [interactive set_fatal_error set_error_reports].
    destruct (default false (interactive a)).
    + rewrite bind_update_state. unfold prepend.
      destruct running; cbn -[update_state]; by rewrite ?app_nil_r.
    + rewrite bind_ret. by destruct running.
Qed.

(** X20. A fault with an exception is recorded whatever else happens:
    [_exception_handler] returns normally, [fatal_error] then holds the
    report the reporter has for the exception, or a new report of kind
    [UNKNOWN] for it, which is added to the reporter's reports; only in an
    interactive run does the handler itself write the state [ERROR];
    [running_error_commands] is set afterwards, and the error commands are
    started with this report exactly when it was not set before. *)
Theorem exception_handler_records_fault
    (super_handler : App → Res unit * App)
    (report_for_exc : Exn → App → option ErrorReport)
    (exc : Exn) (running : bool) (a : App) :
  let o := _exception_handler super_handler report_for_exc (Some exc) running
             a in
  let report := default (unknown_error_report exc a) (report_for_exc exc a) in
  result o = Ok (true, if running then None else Some report)
  ∧ fatal_error (after o) = Some report
  ∧ error_reports (after o)
    = error_reports a ++ new_reports (report_for_exc exc a) report
  ∧ (interactive a = Some true →
       _state (after o) = ERROR
       ∧ fs (after o) !! state_file a = Some "ERROR"
       ∧ Exists is_error_write (trace o))
  ∧ (interactive a ≠ Some true →
       _state (after o) = _state a ∧ fs (after o) = fs a
       ∧ Forall (λ e, ¬ is_error_write e) (trace o)).
Proof.
  intros o report. subst o report. rewrite exception_handler_run.
  destruct (interactive a) as [[]|] eqn:Hint; cbn [default].
  - rewrite !update_state_unfold. unfold result, after, trace. cbn [fst snd].
    split_and!; try done.
    + simpl. destruct (report_for_exc exc a); simpl; [|done].
      by rewrite app_nil_r.
    + intros _. split_and!; [done| |].
      * simpl. unfold state_file.
        destruct (report_for_exc exc a); apply lookup_insert_eq.
      * apply Exists_app. right. by apply Exists_cons_hd.
  - unfold result, after, trace. cbn [fst snd]. split_and!; try done.
    + simpl. destruct (report_for_exc exc a); simpl; [|done].
      by rewrite app_nil_r.
    + intros _. split_and!.
      * by destruct (report_for_exc exc a).
      * by destruct (report_for_exc exc a).
      * destruct (report_for_exc exc a); [done|].
        apply Forall_cons. split; [by intros []|done].
  - unfold result, after, trace. cbn [fst snd]. split_and!; try done.
    + simpl. destruct (report_for_exc exc a); simpl; [|done].
      by rewrite app_nil_r.
    + intros _. split_and!.
      * by destruct (report_for_exc exc a).
      * by destruct (report_for_exc exc a).
      * destruct (report_for_exc exc a); [done|].
        apply Forall_cons. split; [by intros []|done].
Qed.

Lemma bind_Ok_inv {A B} (m : M A) (k : A → M B) a (y : B) :
  result (bind m k a) = Ok y →
  ∃ x, result (m a) = Ok x ∧ result (k x (after (m a))) = Ok y.
Proof.
  rewrite bind_run. destruct (m a) as [[[x|e|file argv] a1] t1]; try done.
  rewrite result_prepend. eauto.
Qed.

Lemma exception_handler_flag super_handler report_for_exc exc
    (running : bool) a running' started :
  result (_exception_handler super_handler report_for_exc exc running a)
  = Ok (running', started) →
  match exc with
  | Some _ =>
      running' = true ∧ (if running then started = None else is_Some started)
  | None => running' = running ∧ started = None
  end.
Proof.
  destruct exc as [exc|].
  - rewrite exception_handler_run.
    destruct (default false (interactive a)); intros [= <- <-];
      destruct running; eauto.
  - unfold _exception_handler. intros (? & _ & Hret)%bind_Ok_inv.
    by injection Hret as <- <-.
Qed.

(** X21. The error commands are started at most once. Over any series of
    faults handled one after the other, with or without an exception: when
    [running_error_commands] is set at the beginning, no [_run_error_cmds]
    coroutine is started; when it is not, one is started if one of the
    faults carries an exception, and the flag is then set, and none is
    started if none does, and the flag stays down. *)
Theorem error_commands_started_once
    (super_handler : App → Res unit * App)
    (report_for_exc : Exn → App → option ErrorReport)
    (faults : list (option Exn)) (running : bool) (a : App)
    (running' : bool) (started : list ErrorReport) :
  result (handle_faults super_handler report_for_exc faults running a)
  = Ok (running', started) →
  (running = true → running' = true ∧ started = [])
  ∧ (running = false → Forall (λ f, f = None) faults →
       running' = false ∧ started = [])
  ∧ (running = false → Exists (λ f, f ≠ None) faults →
       running' = true ∧ length started = 1).
Proof.
  revert running a running' started.
  induction faults as [|exc later IH]; intros running a running' started.
  - intros [= <- <-]. split_and!; try done. by intros _ ?%Exists_nil.
  - cbn [handle_faults].
    intros ([r1 s1] & Hfirst & Hrest)%bind_Ok_inv.
    apply bind_Ok_inv in Hrest as ([r2 s2] & Hlater & Hret).
    injection Hret as <- <-. cbn [fst snd] in *.
    apply exception_handler_flag in Hfirst.
    apply IH in Hlater as (Hset & Hnone & Hsome).
    destruct exc as [exc|].
    + destruct Hfirst as [-> Hs1]. destruct (Hset eq_refl) as [-> ->].
      split_and!.
      * intros ->. by subst s1.
      * intros _ [? _]%Forall_cons. done.
      * intros -> _. destruct Hs1 as [report ->]. done.
    + destruct Hfirst as [-> ->]. split_and!.
      * intros ->. by apply Hset.
      * intros -> [_ ?]%Forall_cons. by apply Hnone.
      * intros -> [?|?]%Exists_cons; [done|]. by apply Hsome.
Qed.

Lemma try_and_log_call c method f a :
  try_and_log (call c method f) a =
  (match (f c a).1 with Raise _ => Ok tt | r => r end, (f c a).2,
   [Called c method]).
Proof.
  unfold try_and_log. rewrite call_run. by destruct (f c a) as [[] ?].
Qed.

Lemma run_error_cmds_run E info_task report a :
  (info_task report a).1 = Ok tt →
  let a1 := (info_task report a).2 in
  _run_error_cmds E info_task report a =
  match error_commands E a1 with
  | Some c =>
      match ctl_run E c a1 with
      | (Replaced file argv, a2) => (Replaced file argv, a2, [Called c "run"])
      | (_, a2) => prepend [Called c "run"] (error_state_unless_interactive a2)
      end
  | None => error_state_unless_interactive a1
  end.
Proof.
  intros Hinfo a1. subst a1. unfold _run_error_cmds, error_commands.
  rewrite bind_run. unfold foreign at 1.
  destruct (info_task report a) as [r a1]. simpl in Hinfo. subst r.
  rewrite prepend_nil. unfold controller_named_or_None. rewrite bind_gets.
  cbn [snd]. fold error_state_unless_interactive.
  destruct (head _) as [c|]; [|by rewrite bind_ret].
  rewrite bind_assoc, bind_gets.
  destruct (truthy (ctl_cmds E c a1)); [|by rewrite bind_ret].
  rewrite bind_run, try_and_log_call.
  by destruct (ctl_run E c a1) as [[[]|e|file argv] a2].
Qed.

Lemma error_state_unless_interactive_run a :
  error_state_unless_interactive a =
  if default false (interactive a) then (Ok tt, a, [])
  else update_state ERROR a.
Proof.
  unfold error_state_unless_interactive. rewrite bind_gets.
  by destruct (default false (interactive a)).
Qed.

Lemma released_no_error_write (l : list StatusPoll) :
  filter is_error_write (Released <$> l) = [].
Proof.
  induction l as [|p l IH]; [done|]. rewrite fmap_cons.
  rewrite filter_cons_False; [done|]. by intros ?.
Qed.

Lemma error_state_written a :
  let o := error_state_unless_interactive a in
  result o = Ok tt
  ∧ interactive (after o) = interactive a
  ∧ Forall (λ e, ¬ is_run e) (trace o)
  ∧ (default false (interactive a) = false →
       _state (after o) = ERROR
       ∧ fs (after o) !! state_file (after o) = Some "ERROR"
       ∧ length (filter is_error_write (trace o)) = 1)
  ∧ (default false (interactive a) = true → after o = a ∧ trace o = []).
Proof.
  cbv zeta. rewrite error_state_unless_interactive_run.
  destruct (default false (interactive a)) eqn:Hint; [done|].
  rewrite update_state_unfold. unfold result, after, trace. cbn [fst snd].
  split_and!; try done.
  - apply Forall_cons. split; [by intros ?|].
    apply Forall_fmap, Forall_forall. by intros p _ ?.
  - intros _. split_and!; [done|apply lookup_insert_eq|].
    rewrite filter_cons_True by done.
    by rewrite released_no_error_write.
Qed.

(** X22. When the report's information is in, [_run_error_cmds] calls
    [run] on the Error controller exactly when there is one and it has
    commands, and a failure of these commands does not end the coroutine:
    it never raises. When it returns in a run that is not interactive, the
    state is [ERROR] and the state file says so; in an interactive run it
    leaves the state to the handler. *)
Theorem run_error_cmds_outcome (E : Ext)
    (info_task : ErrorReport → App → Res unit * App)
    (report : ErrorReport) (a : App) :
  (info_task report a).1 = Ok tt →
  let o := _run_error_cmds E info_task report a in
  (∀ e, result o ≠ Raise e)
  ∧ (Exists is_run (trace o)
     ↔ is_Some (error_commands E (info_task report a).2))
  ∧ (result o = Ok tt →
       (default false (interactive (after o)) = false →
          _state (after o) = ERROR
          ∧ fs (after o) !! state_file (after o) = Some "ERROR")
       ∧ (default false (interactive (after o)) = true →
          Forall (λ e, ¬ is_error_write e) (trace o))).
Proof.
  intros Hinfo o. subst o. rewrite (run_error_cmds_run _ _ _ _ Hinfo).
  set (a1 := (info_task report a).2).
  assert (∀ b t,
    let o := prepend t (error_state_unless_interactive b) in
    Forall (λ e, ¬ is_error_write e) t →
    (∀ e, result o ≠ Raise e)
    ∧ (Exists is_run (trace o) ↔ Exists is_run t)
    ∧ (result o = Ok tt →
       (default false (interactive (after o)) = false →
          _state (after o) = ERROR
          ∧ fs (after o) !! state_file (after o) = Some "ERROR")
       ∧ (default false (interactive (after o)) = true →
          Forall (λ e, ¬ is_error_write e) (trace o)))) as Htail.
  { intros b t o Ht. subst o.
    destruct (error_state_written b) as (Hok & Hint & Hquiet & Hno & Hyes).
    rewrite result_prepend, after_prepend, trace_prepend, Hok, Hint.
    split_and!; [done| |].
    - rewrite Exists_app. split; [|by left].
      intros [?|Hrun]; [done|].
      apply Exists_exists in Hrun as (e & He & Hrun).
      by apply (proj1 (Forall_forall _ _) Hquiet e) in Hrun.
    - intros _. split.
      + intros Hfalse. by destruct (Hno Hfalse) as (? & ? & _).
      + intros Htrue. destruct (Hyes Htrue) as [_ ->].
        by rewrite app_nil_r. }
  destruct (error_commands E a1) as [c|].
  - destruct (ctl_run E c a1) as [[[]|e|file argv] a2].
    + destruct (Htail a2 [Called c "run"]) as (? & Hrun & ?).
      { apply Forall_cons. by split; [intros ?|]. }
      split_and!; [done| |done]. rewrite Hrun. split; [eauto|].
      intros _. by apply Exists_cons_hd.
    + destruct (Htail a2 [Called c "run"]) as (? & Hrun & ?).
      { apply Forall_cons. by split; [intros ?|]. }
      split_and!; [done| |done]. rewrite Hrun. split; [eauto|].
      intros _. by apply Exists_cons_hd.
    + unfold result, trace. cbn [fst snd]. split_and!; [done| |done].
      split; [eauto|]. intros _. by apply Exists_cons_hd.
  - destruct (Htail a1 []) as (Hraise & Hrun & Hstate); [done|].
    rewrite prepend_nil in Hraise, Hrun, Hstate.
    split_and!; [done| |done]. rewrite Hrun. split.
    + by intros ?%Exists_nil.
    + by intros [? ?].
Qed.

Lemma filter_error_write_app (t1 t2 : list Effect) :
  length (filter is_error_write (t1 ++ t2))
  = length (filter is_error_write t1) + length (filter is_error_write t2).
Proof. by rewrite filter_app, length_app. Qed.

Lemma run_error_cmds_writes E info_task report a :
  (∀ r, keeps_state (info_task r)) →
  (∀ c, keeps_state (ctl_run E c)) →
  let o := _run_error_cmds E info_task report a in
  result o = Ok tt →
  (default false (interactive a) = false →
     _state (after o) = ERROR
     ∧ length (filter is_error_write (trace o)) = 1)
  ∧ (default false (interactive a) = true →
     _state (after o) = _state a
     ∧ length (filter is_error_write (trace o)) = 0).
Proof.
  intros Hinfo Hrun o Hok. subst o.
  assert ((info_task report a).1 = Ok tt) as Hin.
  { unfold _run_error_cmds in Hok.
    apply bind_Ok_inv in Hok as ([] & Hfirst & _). unfold foreign in Hfirst.
    by destruct (info_task report a). }
  rewrite (run_error_cmds_run _ _ _ _ Hin) in Hok |- *.
  destruct (Hinfo report a) as [Hi1 Hs1].
  set (a1 := (info_task report a).2) in *.
  assert (∀ b t,
    interactive b = interactive a → _state b = _state a →
    filter is_error_write t = [] →
    let o := prepend t (error_state_unless_interactive b) in
    (default false (interactive a) = false →
       _state (after o) = ERROR
       ∧ length (filter is_error_write (trace o)) = 1)
    ∧ (default false (interactive a) = true →
       _state (after o) = _state a
       ∧ length (filter is_error_write (trace o)) = 0)) as Htail.
  { intros b t Hi Hs Ht o. subst o.
    destruct (error_state_written b) as (_ & _ & _ & Hno & Hyes).
    rewrite after_prepend, trace_prepend, filter_error_write_app, Ht.
    rewrite Hi in Hno, Hyes. split.
    - intros Hfalse. by destruct (Hno Hfalse) as (? & _ & ->).
    - intros Htrue. destruct (Hyes Htrue) as [-> ->]. done. }
  destruct (error_commands E a1) as [c|].
  - destruct (Hrun c a1) as [Hi2 Hs2].
    destruct (ctl_run E c a1) as [[[]|e|file argv] a2]; [| |done];
      cbn [snd] in Hi2, Hs2.
    + apply Htail; [congruence|congruence|done].
    + apply Htail; [congruence|congruence|done].
  - rewrite <- (prepend_nil (error_state_unless_interactive a1)).
    by apply Htail.
Qed.

(** X23. One fault, one [ERROR]. When a fault with an exception arrives
    while no error commands are running, and the report's information task
    and the error commands leave the state and the kind of run alone, then
    once the handler and the [_run_error_cmds] coroutine it starts have
    returned, the state is [ERROR] and it has been written exactly once: by
    the handler in an interactive run, by the coroutine otherwise. *)
Theorem fault_writes_error_once (E : Ext)
    (super_handler : App → Res unit * App)
    (report_for_exc : Exn → App → option ErrorReport)
    (info_task : ErrorReport → App → Res unit * App)
    (exc : Exn) (a : App) :
  (∀ r, keeps_state (info_task r)) →
  (∀ c, keeps_state (ctl_run E c)) →
  let o := fault_handled E super_handler report_for_exc info_task exc false
             a in
  result o = Ok true →
  _state (after o) = ERROR
  ∧ length (filter is_error_write (trace o)) = 1.
Proof.
  intros Hinfo Hrun o Hok. subst o. unfold fault_handled in *.
  rewrite bind_run, exception_handler_run in Hok |- *.
  set (report := default (unknown_error_report exc a) (report_for_exc exc a))
    in *.
  set (a1 := set_fatal_error _ _) in *.
  assert (interactive a1 = interactive a ∧ _state a1 = _state a) as [Hi Hs].
  { subst a1. by destruct (report_for_exc exc a). }
  assert (filter is_error_write
            (ReportMade <$> new_reports (report_for_exc exc a) report) = [])
    as Hmade.
  { by destruct (report_for_exc exc a). }
  destruct (default false (interactive a)) eqn:Hint; cbv beta iota in *;
    cbn [snd fst] in *.
  - rewrite result_prepend in Hok. rewrite after_prepend, trace_prepend.
    apply bind_Ok_inv in Hok as ([] & Htask & _).
    rewrite bind_run.
    destruct (run_error_cmds_writes E info_task report
                (after (update_state ERROR a1)) Hinfo Hrun Htask)
      as [_ Hyes].
    destruct (_run_error_cmds E info_task report _) as [[[[]|e|file argv] a2] t2];
      try done.
    rewrite after_prepend, trace_prepend.
    change (after (ret true a2)) with a2.
    change (trace (ret true a2)) with (@nil Effect).
    change (after (Ok tt, a2, t2)) with a2 in Hyes.
    change (trace (Ok tt, a2, t2)) with t2 in Hyes.
    rewrite update_state_unfold in Hyes |- *.
    unfold after, trace in Hyes |- *. cbn [fst snd] in Hyes |- *.
    destruct Hyes as [-> Hnone].
    { change (default false (interactive a1) = true). by rewrite Hi. }
    split; [done|].
    rewrite !filter_error_write_app, Hmade, Hnone.
    rewrite filter_cons_True by done.
    rewrite released_no_error_write. simpl. lia.
  - rewrite result_prepend in Hok. rewrite after_prepend, trace_prepend.
    apply bind_Ok_inv in Hok as ([] & Htask & _).
    rewrite bind_run.
    destruct (run_error_cmds_writes E info_task report a1 Hinfo Hrun Htask)
      as [Hno _].
    destruct (_run_error_cmds E info_task report _) as [[[[]|e|file argv] a2] t2];
      try done.
    rewrite after_prepend, trace_prepend.
    change (after (ret true a2)) with a2.
    change (trace (ret true a2)) with (@nil Effect).
    change (after (Ok tt, a2, t2)) with a2 in Hno.
    change (trace (Ok tt, a2, t2)) with t2 in Hno.
    destruct Hno as [-> Hone]; [by rewrite Hi|].
    split; [done|].
    rewrite !filter_error_write_app, Hmade, Hone. simpl. lia.
Qed.

(** ** When the early commands are not due *)

(** X24. The early-commands block of [start()] does nothing at all when
    no autoinstall configuration is loaded, or when the Early controller
    has no commands; with a configuration and no Early controller it
    raises [AttributeError]. So a call of [run] in it means that a
    configuration is loaded, the Early controller has commands and the
    stamp file is absent. *)
Theorem early_commands_not_due (E : Ext) (a : App) :
  let o := run_early_commands E a in
  let early := filter (λ c, ctl_name c = "Early") (instances a) in
  (has_autoinstall_config a = false → o = (Ok tt, a, []))
  ∧ (has_autoinstall_config a = true → early = [] →
       o = (Raise (AttributeError "Early"), a, []))
  ∧ (has_autoinstall_config a = true →
       ∀ c, head early = Some c → truthy (ctl_cmds E c a) = false →
            o = (Ok tt, a, []))
  ∧ (Exists is_run (trace o) →
       has_autoinstall_config a = true ∧ ¬ stamped a
       ∧ ∃ c, head early = Some c ∧ truthy (ctl_cmds E c a) = true).
Proof.
  intros o early. subst o early. unfold run_early_commands.
  rewrite bind_gets.
  destruct (has_autoinstall_config a) eqn:Hcfg.
  2: { split_and!; try done. by intros ?%Exists_nil. }
  destruct (filter _ (instances a)) as [|c others] eqn:Hearly.
  { assert (controller_named "Early" a = (Raise (AttributeError "Early"), a, []))
      as Hnone by (unfold controller_named; by rewrite Hearly).
    rewrite bind_run, Hnone. split_and!; try done. by intros ?%Exists_nil. }
  assert (controller_named "Early" a = (Ok c, a, [])) as Hsome
    by (unfold controller_named; by rewrite Hearly).
  rewrite bind_run, Hsome, prepend_nil, bind_gets.
  destruct (truthy (ctl_cmds E c a)) eqn:Hcmds.
  2: { split_and!; try done. by intros ?%Exists_nil. }
  rewrite bind_state_path, bind_os_path_exists. fold (stamp_file a).
  destruct (exists_in (fs a) (stamp_file a)) eqn:Hst.
  { split_and!; try done. by intros ?%Exists_nil. }
  split_and!; try done; try (intros _ c' [= <-]; congruence).
  intros _. split_and!; [done| |by exists c].
  unfold stamped. by rewrite Hst.
Qed.

(** ** The order of [start()] *)

(** The effect is not a call of the sweep, by its shape. *)
Ltac not_a_sweep_call :=
  solve [ by intros ? | intros [?|?]; discriminate ].

Ltac calm_step :=
  match goal with
  | |- only _ (bind _ _) => apply only_bind; [|intros ?]
  | |- only _ (ret _) => by apply only_silent
  | |- only _ get => by apply only_silent
  | |- only _ (gets _) => by apply only_silent
  | |- only _ (raise _) => by apply only_silent
  | |- only _ (modify _) => by apply only_silent
  | |- only _ (state_path _) => by apply only_silent
  | |- only _ (base_relative _) => by apply only_silent
  | |- only _ (os_path_exists _) => by apply only_silent
  | |- only _ (foreign _) => apply only_foreign
  | |- only _ (controller_named _) => apply only_controller_named
  | |- only _ (read_file _) => apply only_read_file
  | |- only _ get_installer_password_from_cloudinit_log =>
      apply only_get_installer_password
  | |- only _ (emit _) => apply only_emit; not_a_sweep_call
  | |- only _ (new_password _) =>
      intros ?; apply Forall_singleton; not_a_sweep_call
  | |- only _ (write_file _ _) =>
      intros ?; apply Forall_singleton; not_a_sweep_call
  | |- only _ (write_text _ _) =>
      intros ?; apply Forall_singleton; not_a_sweep_call
  | |- only _ (truncate _) =>
      intros ?; apply Forall_singleton; not_a_sweep_call
  | |- only _ (run_chpasswd _ _) => apply only_run_chpasswd; not_a_sweep_call
  | |- only _ (copy_file_if_exists _ _) =>
      apply only_copy_file_if_exists; not_a_sweep_call
  | |- only _ (update_state _) =>
      apply only_update_state; intros ?; not_a_sweep_call
  | |- only _ (call _ _ _) => apply only_call; not_a_sweep_call
  | |- only _ (py_get _ _ _) => unfold py_get
  | |- only _ (when _ _) => apply only_if
  | |- only _ (if ?b then _ else _) => apply only_if
  | |- only _ (match ?x with _ => _ end) => destruct x
  | |- only _ (for_each _ _) => apply only_for_each; intros ?
  end.

Lemma calm_wait_for_cloudinit E :
  only (λ e, ¬ is_sweep_call e) (wait_for_cloudinit E).
Proof.
  unfold wait_for_cloudinit, load_cloud_config, py_get. repeat calm_step.
Qed.

Lemma calm_set_installer_password E :
  only (λ e, ¬ is_sweep_call e) (set_installer_password E).
Proof.
  unfold set_installer_password, _user_has_password, use_passwd.
  repeat calm_step.
Qed.

Lemma calm_select_autoinstall :
  only (λ e, ¬ is_sweep_call e) select_autoinstall.
Proof. unfold select_autoinstall. repeat calm_step. Qed.

Lemma calm_load_autoinstall_config E only_early :
  only (λ e, ¬ is_sweep_call e) (load_autoinstall_config E only_early).
Proof.
  unfold load_autoinstall_config, validate_base_schema. repeat calm_step.
Qed.

Lemma calm_run_early_commands E :
  only (λ e, ¬ is_sweep_call e) (run_early_commands E).
Proof. unfold run_early_commands. repeat calm_step. Qed.

Lemma calm_load_serialized_state E :
  only (λ e, ¬ is_sweep_call e) (load_serialized_state E).
Proof. unfold load_serialized_state. repeat calm_step. Qed.

Lemma sweep_calls_only E :
  only is_sweep_call (apply_autoinstall_config E).
Proof.
  unfold apply_autoinstall_config.
  apply only_bind; [by apply only_silent|]. intros cs.
  apply only_for_each. intros c.
  apply only_bind; [by apply only_silent|]. intros [].
  - by apply only_silent.
  - apply only_bind; [|intros _]; apply only_call; simpl; eauto.
Qed.

(** [m], then the rest: when [m] makes no call of the sweep. *)
Lemma sweep_comes_last_bind {A B} (m : M A) (k : A → M B) :
  only (λ e, ¬ is_sweep_call e) m →
  (∀ x a, sweep_comes_last (trace (k x a))) →
  ∀ a, sweep_comes_last (trace (bind m k a)).
Proof.
  intros Hm Hk a. specialize (Hm a). rewrite bind_run.
  destruct (m a) as [[[x|e|file argv] a1] t1].
  - rewrite trace_prepend.
    destruct (Hk x a1) as (before & sweep & -> & Hb & Hs & Hmark).
    exists (t1 ++ before), sweep.
    split_and!; [by rewrite app_assoc|by apply Forall_app|done|].
    intros Hne. destruct (Hmark Hne) as (earlier & path & released & ->).
    exists (t1 ++ earlier), path, released. by rewrite <- app_assoc.
  - exists t1, []. by rewrite app_nil_r.
  - exists t1, []. by rewrite app_nil_r.
Qed.

(** The end of [start()]. *)
Lemma sweep_comes_last_end E a :
  sweep_comes_last
    (trace ((update_state WAITING ;; emit SuperStarted ;;
             foreign (Application_start E) ;;
             apply_autoinstall_config E) a)).
Proof.
  rewrite bind_update_state, bind_emit, prepend_prepend, bind_run.
  rewrite update_state_unfold. unfold trace at 2. cbn [snd].
  unfold foreign at 1.
  set (path := os_path_join (state_dir a) "server-state").
  set (released := (Event_set (state_event a)).2).
  set (a1 := after _).
  assert (Forall (λ e, ¬ is_sweep_call e)
            ((FileWritten path (name WAITING) :: (Released <$> released))
             ++ [SuperStarted])) as Hcalm.
  { apply Forall_app. split; [|by apply Forall_singleton; intros ?].
    apply Forall_cons. split; [by intros ?|].
    apply Forall_fmap, Forall_forall. by intros p _ ?. }
  destruct (Application_start E a1) as [[[]|e|file argv] a2].
  - rewrite prepend_nil, trace_prepend.
    eexists _, _. split_and!; [done|exact Hcalm|apply sweep_calls_only|].
    intros _. by exists [], path, released.
  - rewrite trace_prepend. eexists _, []. by split_and!.
  - rewrite trace_prepend. eexists _, []. by split_and!.
Qed.

(** X25. [start()] applies the autoinstall configuration last, and in
    the state [WAITING]: whatever the collaborators do, what a run of
    [start()] does splits into a first part without any call of
    [apply_autoinstall_config] or [configured], and the calls of the sweep;
    when there are such calls, the first part ends with the write of the
    state [WAITING], the release of those who waited for it, and the start
    of the base class. *)
Theorem start_applies_config_last (E : Ext) (a : App) :
  sweep_comes_last (trace (start E a)).
Proof.
  revert a. unfold start, start_api_server.
  repeat lazymatch goal with
  | |- ∀ a, sweep_comes_last (trace (bind (update_state WAITING) _ a)) =>
      fail
  | |- ∀ a, sweep_comes_last (trace (bind _ _ a)) =>
      apply sweep_comes_last_bind; [|intros ?]
  end.
  all: try apply sweep_comes_last_end.
  all: try solve
    [ repeat calm_step
    | apply calm_wait_for_cloudinit
    | apply calm_set_installer_password
    | apply calm_select_autoinstall
    | apply calm_load_autoinstall_config
    | apply calm_run_early_commands
    | apply calm_load_serialized_state ].
Qed.

(** ** Events to the journal *)

(** X26. Which events reach the journal. An event of a request never
    does. Any other event does when its context is an install context, or
    when the run is known not to be interactive. In a run that is
    interactive, or not yet known to be, an event outside the install
    contexts reaches the journal exactly when it is not of a request and
    belongs to a controller that is not interactive. What is sent carries
    the server's event identifier and the type of the event. *)
Theorem journal_filter (E : Ext) (event_type : string) (context : Context)
    (description : string) (a : App) :
  let sent := _maybe_push_to_journal E event_type context description a in
  (is_Some sent → ctx_request context = false)
  ∧ (ctx_request context = false →
     ctx_is_install_context context = true ∨ interactive a = Some false →
     is_Some sent)
  ∧ (ctx_is_install_context context = false → interactive a ≠ Some false →
     (is_Some sent ↔
      ctx_request context = false
      ∧ ∃ c, ctx_controller context = Some c ∧ ctl_interactive E c a = false))
  ∧ (∀ entry, sent = Some entry →
       SYSLOG_IDENTIFIER entry = event_syslog_id a
       ∧ SUBIQUITY_EVENT_TYPE entry = event_type
       ∧ SUBIQUITY_CONTEXT_NAME entry = ctx_full_name context).
Proof.
  intros sent. subst sent. unfold _maybe_push_to_journal.
  assert (∀ x : JournalEntry, is_Some (Some x)) as Hsome by eauto.
  assert (¬ is_Some (@None JournalEntry)) as Hnone by (by intros [? ?]).
  destruct (interactive a) as [[]|] eqn:Hint;
    destruct (ctx_is_install_context context) eqn:Hinstall;
    destruct (ctx_request context) eqn:Hreq;
    destruct (ctx_controller context) as [c|] eqn:Hc;
    try destruct (ctl_interactive E c a) eqn:Hci;
    cbn -[str_times str_count];
    (split_and!;
     [ first [done | by intros ?%Hnone]
     | intros ? [?|?]; first [done | apply Hsome]
     | intros ? ?; first [done | split;
         [ first [by intros ?%Hnone | intros _; split; [done|eauto]]
         | first [ intros; apply Hsome
                 | intros [? (c' & ? & ?)]; congruence ] ] ]
     | intros entry Hentry; first [done | by injection Hentry as <-] ]).
Qed.

(** ** More runs on the demonstration installation *)

(** A second client, polling without [cur], gets its answer at once; the
    first one, polling with the current state, is suspended. *)
Lemma status_GET_blocks_iff_witness :
  state_event_wf demo_app
  ∧ result (status_GET demo_poll demo_app) = Ok None
  ∧ result (status_GET {| poll_id := 1; poll_cur := None |} demo_app)
    = Ok (Some (current_status demo_app)).
Proof.
  assert (state_event_wf demo_app) as Hwf by (by apply wf_fresh_event).
  split; [exact Hwf|]. split.
  - destruct (status_GET_blocks_iff demo_app demo_poll Hwf)
      as (_ & Hblock & _).
    apply Hblock. reflexivity.
  - destruct (status_GET_blocks_iff demo_app
                {| poll_id := 1; poll_cur := None |} Hwf)
      as (_ & _ & Hanswer & _).
    apply Hanswer. discriminate.
Defined.

(** One turn of the loop gives the released client the state written. *)
Lemma loop_run_answers_in_order_witness :
  state_event_wf app_released
  ∧ result (loop_run 1 app_released)
    = Ok [(demo_poll, current_status app_released)]
  ∧ status_state (current_status app_released) = WAITING.
Proof.
  assert (state_event_wf app_released) as Hwf
    by apply wf_update_state, app_with_waiter_wf.
  split; [exact Hwf|].
  destruct (loop_run_answers_in_order app_released Hwf) as (Hanswers & _).
  split; [exact Hanswers|reflexivity].
Defined.

(** Its state file. *)
Lemma state_file_tracks_state_witness :
  reachable server_waiting
  ∧ fs server_waiting !! "/run/subiquity/server-state" = Some "WAITING".
Proof.
  assert (reachable server_waiting) as Hreach.
  { apply reach_update_state, reach_status_GET; [apply reach_init|].
    by intros ?%elem_of_nil. }
  destruct (state_file_tracks_state server_waiting Hreach) as (_ & Hfile & _).
  split; [exact Hreach|exact Hfile].
Defined.

(** Once the cloud-init file is copied to the root, the next resolution
    finds it there and copies it onto itself. *)
Lemma select_autoinstall_again_witness :
  result (select_autoinstall app_two_sources) = Ok (Some "/autoinstall.yaml")
  ∧ trace (select_autoinstall (after (select_autoinstall app_two_sources)))
    = [FileCopied "/autoinstall.yaml" "/autoinstall.yaml"].
Proof.
  split; [reflexivity|].
  destruct (select_autoinstall_again app_two_sources "/autoinstall.yaml"
              eq_refl (after (select_autoinstall app_two_sources))
              eq_refl eq_refl eq_refl) as (_ & _ & Htrace).
  exact Htrace.
Defined.

(** Its password is generated and kept in the state directory. *)
Lemma password_known_iff_persisted_witness :
  result (set_installer_password demo_ext app_new_user) = Ok tt
  ∧ ∃ n p,
      installer_user_name
        (after (set_installer_password demo_ext app_new_user)) = Some n
      ∧ fs (after (set_installer_password demo_ext app_new_user))
          !! "/run/subiquity/installer-user-passwd"
        = Some (n +:+ ":" +:+ p).
Proof.
  split; [reflexivity|].
  destruct (password_known_iff_persisted demo_ext app_new_user)
    as [Hknown _]; [discriminate|reflexivity|].
  destruct (Hknown eq_refl) as (n & p & Hn & _ & Hfile).
  exists n, p. split; [exact Hn|exact Hfile].
Defined.

(** The next process, whatever name cloud-init gives it, reads the same
    credentials back. *)
Lemma password_survives_restart_witness :
  let o := set_installer_password demo_ext app_new_user in
  let o2 := set_installer_password demo_ext
              (set_installer_user_name (Some "cloud-user")
                 (reboot "4243" (after o))) in
  trace o2 = []
  ∧ installer_user_name (after o2) = Some "ubuntu-server"
  ∧ installer_user_passwd (after o2) = Some "hunter2hunter2hunter2".
Proof.
  destruct (password_survives_restart demo_ext app_new_user "ubuntu-server"
              eq_refl eq_refl eq_refl eq_refl eq_refl
              (set_installer_user_name (Some "cloud-user")
                 (reboot "4243"
                    (after (set_installer_password demo_ext app_new_user))))
              "cloud-user" eq_refl eq_refl eq_refl)
    as (_ & Htrace & Hname & Hpass & _).
  split; [exact Htrace|]. split; [exact Hname|].
  rewrite Hpass. reflexivity.
Defined.

Lemma with_yaml_keeps load E P :
  ext_keeps E P → ext_keeps (with_yaml load E) P.
Proof. intros []. by split. Defined.

(** It is rejected before the Early controller sees it. *)
Lemma early_load_validates_first_witness :
  let o := load_autoinstall_config (with_yaml (λ _, Some version_2) demo_ext)
             true app_version_2 in
  result o = Raise ValidationError
  ∧ (Called Early "setup_autoinstall" ∉ trace o)
  ∧ autoinstall_config (after o) = Some version_2.
Proof.
  destruct (early_load_validates_first
              (with_yaml (λ _, Some version_2) demo_ext) app_version_2
              "/autoinstall.yaml" "version: 2" version_2
              eq_refl) as (_ & Hconfig & Hearly);
    [discriminate|reflexivity|reflexivity| |reflexivity|].
  { apply with_yaml_keeps, demo_ext_keeps; intros; assumption. }
  split; [reflexivity|]. split; [|exact Hconfig].
  apply (Hearly Early). reflexivity.
Defined.

Lemma sweep_of_interactive_run_is_idle_witness :
  apply_autoinstall_config demo_ext app_all_interactive
  = (Ok tt, app_all_interactive, []).
Proof.
  apply sweep_of_interactive_run_is_idle.
  intros c Hc. apply list_elem_of_In in Hc. vm_compute in Hc.
  destruct Hc as [<-|[<-|[<-|[<-|[<-|[<-|[]]]]]]]; reflexivity.
Defined.

(** The network stage fails: the sweep ends there. *)
Lemma sweep_stops_at_failure_witness :
  apply_autoinstall_config (with_failing_stage "Network" demo_ext) demo_app
  = (Raise (CollaboratorError "Network"), demo_app,
     flat_map (λ c, [Called c "apply_autoinstall_config";
                     Called c "configured"]) [Early; Reporting; Error]
     ++ [Called Network "apply_autoinstall_config"]).
Proof.
  destruct (sweep_stops_at_failure (with_failing_stage "Network" demo_ext)
              demo_app [Early; Reporting; Error] [Identity; Install] Network
              demo_app
              (flat_map (λ c, [Called c "apply_autoinstall_config";
                               Called c "configured"])
                 [Early; Reporting; Error])
              eq_refl eq_refl eq_refl) as [Hraise _].
  apply Hraise. reflexivity.
Defined.

Lemma middleware_gates_view_requests_only_witness :
  head (trace (middleware demo_ext plain_request identity_GET demo_app))
  = Some (HandlerInvoked "/identity").
Proof.
  destruct (middleware_gates_view_requests_only demo_ext plain_request
              identity_GET demo_app) as [_ Hhead].
  - left. discriminate.
  - exact Hhead.
Defined.

Lemma middleware_passes_on_witness :
  ∃ resp,
    middleware demo_ext plain_request identity_GET demo_app
    = (Ok resp, demo_app, [HandlerInvoked "/identity"])
    ∧ resp_headers resp !! "x-updated" = Some "no"
    ∧ resp_text resp = "{}".
Proof.
  destruct (middleware_passes_on demo_ext plain_request identity_GET demo_app)
    as [_ Hclean].
  { vm_compute. apply list_elem_of_here. }
  destruct (Hclean _ demo_app [] eq_refl eq_refl)
    as (resp & Hrun & Hupdated & _ & _ & Htext & _).
  exists resp. split; [exact Hrun|]. split; [exact Hupdated|exact Htext].
Defined.

(** Without a combined cloud configuration the user is the default user
    of [stages.Init()], and no file is written. *)
Lemma load_cloud_config_effect_witness :
  installer_user_name (after (load_cloud_config demo_ext demo_app))
  = Some "ubuntu-server"
  ∧ fs (after (load_cloud_config demo_ext demo_app)) = fs demo_app.
Proof.
  destruct (load_cloud_config_effect demo_ext demo_app eq_refl)
    as (_ & _ & _ & Hnone & Hinit & _).
  split; [exact (Hinit eq_refl)|].
  destruct (Hnone eq_refl) as [Hfs _]. exact Hfs.
Defined.

(** The section is written where cloud-init's autoinstall file is looked
    for, and from there it reaches the root. *)
Lemma cloud_autoinstall_reaches_root_witness :
  let E := with_cloud_config cloud_with_autoinstall demo_ext in
  let o := select_autoinstall (after (load_cloud_config E demo_app)) in
  result o = Ok (Some "/autoinstall.yaml")
  ∧ fs (after o) !! "/autoinstall.yaml" = Some "version: 1"
  ∧ trace o = [FileCopied "/run/subiquity/cloud.autoinstall.yaml"
                 "/autoinstall.yaml"].
Proof.
  exact (cloud_autoinstall_reaches_root
           (with_cloud_config cloud_with_autoinstall demo_ext) demo_app
           (PDict {[ "version" := PInt 1 ]}) eq_refl eq_refl eq_refl eq_refl).
Defined.

(** Three faults, two of them with an exception: one coroutine. *)
Lemma error_commands_started_once_witness :
  ∃ started,
    result (handle_faults super_handler_ok no_report_for_exc
              [None; Some (ValueError "first"); Some (KeyError "second")]
              false demo_app) = Ok (true, started)
    ∧ length started = 1.
Proof.
  eexists. split; [reflexivity|].
  destruct (error_commands_started_once super_handler_ok no_report_for_exc
              [None; Some (ValueError "first"); Some (KeyError "second")]
              false demo_app true _ eq_refl) as (_ & _ & Hone).
  destruct (Hone eq_refl) as [_ Hlength]; [|exact Hlength].
  apply Exists_cons_tl, Exists_cons_hd. discriminate.
Defined.

(** The Error controller has commands: they run, and the run, which is not
    known to be interactive, ends in [ERROR]. *)
Lemma run_error_cmds_outcome_witness :
  let o := _run_error_cmds demo_ext info_task_ok
             (unknown_error_report (ValueError "first") app_early)
             app_early in
  Exists is_run (trace o) ∧ _state (after o) = ERROR.
Proof.
  destruct (run_error_cmds_outcome demo_ext info_task_ok
              (unknown_error_report (ValueError "first") app_early)
              app_early eq_refl) as (_ & Hrun & Hstate).
  split.
  - apply Hrun. vm_compute. eauto.
  - destruct (Hstate eq_refl) as [Herror _].
    destruct (Herror eq_refl) as [Hname _]. exact Hname.
Defined.

(** A fault in an interactive run: the handler writes [ERROR], the
    coroutine does not write it again. *)
Lemma fault_writes_error_once_witness :
  let o := fault_handled demo_ext super_handler_ok no_report_for_exc
             info_task_ok (ValueError "first") false
             (set_interactive (Some true) app_early) in
  result o = Ok true
  ∧ _state (after o) = ERROR
  ∧ length (filter is_error_write (trace o)) = 1.
Proof.
  split; [reflexivity|].
  apply (fault_writes_error_once demo_ext super_handler_ok no_report_for_exc
           info_task_ok (ValueError "first")
           (set_interactive (Some true) app_early)).
  - by intros r b.
  - by intros c b.
  - reflexivity.
Defined.

(** A name the API knows marks its stage; a name it does not know marks
    the four controllers that have no endpoint. *)
Example mark_configured_POST_on_demo :
  trace (mark_configured_POST demo_ext demo_api ["identity"] demo_app)
  = [Called Identity "configured"]
  ∧ trace (mark_configured_POST demo_ext demo_api ["identty"] demo_app)
    = configured_calls [Early; Reporting; Error; Install].
Proof. split; vm_compute; reflexivity. Qed.

(** Two stages have something to say; the others leave no key. *)
Example make_autoinstall_on_demo :
  make_autoinstall
    (λ c a, if bool_decide (ctl_name c = "Network")
            then PDict {[ "version" := PInt 2 ]}
            else if bool_decide (ctl_name c = "Identity")
            then PDict {[ "username" := PStr "ubuntu" ]}
            else PDict ∅) demo_app
  = {[ Some "version" := PInt 1;
       Some "network" := PDict {[ "version" := PInt 2 ]};
       Some "identity" := PDict {[ "username" := PStr "ubuntu" ]} ]}.
Proof. vm_compute. reflexivity. Qed.

(** An event of the network stage in an autoinstall run, two levels below
    the root context. *)
Example journal_entry_on_demo :
  MESSAGE <$> _maybe_push_to_journal demo_ext "start"
    {| ctx_is_install_context := false; ctx_controller := Some Network;
       ctx_request := false;
       ctx_full_name := "subiquity/Network/apply/wait";
       ctx_description := "waiting"; ctx_level := "INFO";
       ctx_id := "12"; ctx_parent_id := Some "11" |}
    "for the network" (set_interactive (Some false) demo_app)
  = Some "  subiquity/Network/apply/wait: for the network".
Proof. vm_compute. reflexivity. Qed.

(** A log whose lines end in carriage returns, the password set off by a
    no-break space and followed by a next-line control. *)
Example password_after_carriage_return :
  let log :=
    "progress" +:+ String carriage_return
      ("installer:" +:+ String (Ascii.ascii_of_nat 160)
         ("s3cret" +:+ String (Ascii.ascii_of_nat 133)
            (String carriage_return (String newline "ci-info: done")))) in
  length (lines log) = 3
  ∧ lines ("progress" +:+ String carriage_return
             ("installer:s3cret" +:+ String newline EmptyString))
    = ["progress"; "installer:s3cret"]
  ∧ result (get_installer_password_from_cloudinit_log
              (set_fs {[ "/var/log/cloud-init-output.log" := log ]} demo_app))
    = Ok (Some "s3cret").
Proof. vm_compute. repeat split; reflexivity. Qed.
